(** * LogDevice: reader-flow health tracer and nodes-configuration publisher

    A shallow embedding of

      - [logdevice/common/ClientReadersFlowTracer.cpp]
      - [logdevice/common/NodesConfigurationPublisher.cpp]

    Every method of the tracer becomes a function from the tracer's fields
    (and a snapshot of what the method reads from its surroundings) to the
    new fields together with the list of externally visible effects it
    performs, in program order.

    Conventions.

      - [lsn_t], [size_t] and the sample counter are 64-bit unsigned: they
        are [Z] with the wrap-around [wrap64] written where the code does
        arithmetic on them; a bucket's [ttl] is [uint16_t], wrapped by
        [wrap16].
      - Time points and durations are signed 64-bit counts.  Signed overflow
        is undefined in C++, so signed arithmetic on them is plain [Z]
        arithmetic.  The one exception is the byte lag: its operands are
        64-bit counters read as [int64_t], whose whole range is reachable
        (the invalid offset is the all-ones counter), so their difference
        is the two's-complement result the compiled code produces
        ([to_int64]).
        All clocks are read at millisecond resolution, and each entry into
        the tracer reads the clock once ([now], [steady_now] of [Env]).
      - [double] values: the slope threshold is an IEEE 754 binary64 number
        ([float], the kernel's primitive floats), and the slope test
        converts, multiplies and compares as the hardware does.  The
        sampling weights are only passed on, never computed with, and are
        rationals ([Q]).  The exponential moving average needs [std::exp]
        and is kept as the uninterpreted application of
        [updateExponentialMovingAverage] to its arguments (see [double]).
      - Rate-limited log lines are not effects of the model. *)

From Stdlib Require Import String ZArith List Bool Lia QArith.
From Stdlib Require Import PrimFloat SpecFloat FloatOps.
Import ListNotations.
Local Open Scope Z_scope.

(** ** Scalar types *)

Definition lsn_t := Z.
Definition TimePoint := Z.

Definition wrap64 (z : Z) : Z := z mod 2 ^ 64.
Definition wrap16 (z : Z) : Z := z mod 2 ^ 16.

(** [static_cast<double>] of an integer: the nearest binary64 number, ties
    to even. *)
Definition to_double (z : Z) : float :=
  SF2Prim (binary_normalize prec emax z 0 false).

Definition LSN_INVALID : lsn_t := 0.

(** Modelled from the spec: [LSN_MAX] is declared in a header that is not in
    the source tree; the spec calls it "the sentinel maximum" of the
    position type. *)
Definition LSN_MAX : lsn_t := 2 ^ 64 - 1.

(** [TimePoint::max()], the "not set" value of both dwell timers. *)
Definition TimePoint_max : TimePoint := 2 ^ 63 - 1.

(** [BYTE_OFFSET_INVALID]: the all-ones 64-bit counter value. *)
Definition BYTE_OFFSET_INVALID : Z := 2 ^ 64 - 1.

(** The status codes a tail query can complete with.  The tracer only ever
    tests a status against [E::OK]. *)
Inductive Status : Type :=
| E_OK | E_NOBUFS | E_TIMEDOUT | E_CONNFAILED | E_SHUTDOWN | E_FAILED.

Definition Status_eqb (a b : Status) : bool :=
  match a, b with
  | E_OK, E_OK | E_NOBUFS, E_NOBUFS | E_TIMEDOUT, E_TIMEDOUT
  | E_CONNFAILED, E_CONNFAILED | E_SHUTDOWN, E_SHUTDOWN
  | E_FAILED, E_FAILED => true
  | _, _ => false
  end.

(** [ClientReadersFlowTracer::State]. *)
Inductive State : Type :=
| HEALTHY | STUCK | STUCK_WHILE_FAILING_SYNC_SEQ_REQ | LAGGING.

Definition State_eqb (a b : State) : bool :=
  match a, b with
  | HEALTHY, HEALTHY | STUCK, STUCK
  | STUCK_WHILE_FAILING_SYNC_SEQ_REQ, STUCK_WHILE_FAILING_SYNC_SEQ_REQ
  | LAGGING, LAGGING => true
  | _, _ => false
  end.

Definition toString (state : State) : string :=
  match state with
  | STUCK => "stuck"
  | STUCK_WHILE_FAILING_SYNC_SEQ_REQ => "stuck_while_failing_sync_seq_req"
  | LAGGING => "lagging"
  | HEALTHY => "healthy"
  end.

(** A [double] that holds a moving average.  [DEma v s d] is the value
    [updateExponentialMovingAverage] leaves in [current_value] when called
    with [current_value = v], [new_sample = s] and [time_diff = d]:
    [(1 - alpha) * v + alpha * s] with [alpha = 1 - exp (- d / 1min)], capped
    at [INT64_MAX]. *)
Inductive double : Type :=
| DZero
| DEma (current_value : double) (new_sample : Z) (time_diff : Z).

Definition updateExponentialMovingAverage
  (current_value : double) (new_sample : Z) (time_diff : Z) : double :=
  DEma current_value new_sample time_diff.

(** ** Statistics, histograms and trace samples *)

(** The counters [updateCountersForState] names. *)
Inductive Counter : Type :=
| read_streams_stuck_or_lagging_ignoring_overload
| read_streams_stuck_ignoring_overload
| read_streams_lagging_ignoring_overload
| read_streams_stuck_or_lagging
| read_streams_stuck_failing_sync_seq_req
| read_streams_stuck
| read_streams_lagging.

Definition Counter_eqb (a b : Counter) : bool :=
  match a, b with
  | read_streams_stuck_or_lagging_ignoring_overload,
    read_streams_stuck_or_lagging_ignoring_overload
  | read_streams_stuck_ignoring_overload,
    read_streams_stuck_ignoring_overload
  | read_streams_lagging_ignoring_overload,
    read_streams_lagging_ignoring_overload
  | read_streams_stuck_or_lagging, read_streams_stuck_or_lagging
  | read_streams_stuck_failing_sync_seq_req,
    read_streams_stuck_failing_sync_seq_req
  | read_streams_stuck, read_streams_stuck
  | read_streams_lagging, read_streams_lagging => true
  | _, _ => false
  end.

Inductive Histogram : Type := hist_time_stuck | hist_time_lag.

(** The fields of a trace sample that the tracer computes itself, named
    [smp_<key>] after their keys.  The remaining fields of the sample are
    strings copied from the owning read stream.  The two reading speeds are
    the moving averages, which the code rounds to [int64_t]. *)
Record TraceSample : Type := mkTraceSample {
  smp_bytes_lagged : option Z;
  smp_timestamp_lagged : option Z;
  smp_time_stuck : Z;
  smp_time_lagging : Z;
  smp_reading_speed_bytes : double;
  smp_reading_speed_records : double;
  smp_in_overloaded_worker : bool;
  smp_waiting_for_node : string;
  smp_state : string;
  smp_monitoring_tags : list string
}.

(** What a method does to the world outside the tracer.  [publish] is the
    call of [SampledTracer::publish], which decides by the weight whether the
    sample is kept. *)
Inductive Effect : Type :=
| WORKER_STAT_ADD (name : Counter) (val : Z)
| TAGGED_STAT_ADD (tags : list string) (name : Counter) (val : Z)
| TAGGED_HISTOGRAM_ADD (name : Histogram) (tags : list string) (val : Z)
| publish (sample : TraceSample) (weight : Q)
| postRequest (timeout : Z) (skip_remote_preemption_check : bool)
| timer_activate (delay : Z)
| timer_cancel.

(** ** The surroundings of a tracer *)

Record Settings : Type := mkSettings {
  client_readers_flow_tracer_period : Z;
  client_readers_flow_tracer_lagging_metric_num_sample_groups : Z;
  client_readers_flow_tracer_lagging_metric_sample_group_size : Z;
  client_readers_flow_tracer_lagging_slope_threshold : float;
  client_readers_flow_max_acceptable_time_lag_per_tag : list (string * Z);
  client_readers_flow_tracer_unhealthy_publish_weight : Q;
  reader_stuck_threshold : Z;
  client_readers_flow_tracer_GSS_skip_remote_preemption_checks : bool
}.

(** The members of the owning [ClientReadStream] that the tracer reads. *)
Record ClientReadStream : Type := mkClientReadStream {
  next_lsn_to_deliver_ : lsn_t;
  until_lsn_ : lsn_t;
  last_released_ : lsn_t;
  last_in_record_ts_ : Z;
  accumulated_offsets_ : Z;
  num_bytes_delivered_ : Z;
  num_records_delivered_ : Z;
  monitoring_tags_ : list string;
  redelivery_timer_active : bool;
  window_update_pending_ : bool;
  waitingForNodeStr : string
}.

(** What one entry into the tracer observes: the current settings, the
    owner, the two clocks and the worker's overload detector ([None] when
    the worker has none, otherwise the answer of [overloaded()]). *)
Record Env : Type := mkEnv {
  settings : Settings;
  owner_ : ClientReadStream;
  now : TimePoint;
  steady_now : Z;
  overloadDetector : option bool
}.

(** [LogTailAttributes], as far as the tracer reads it. *)
Record LogTailAttributes : Type := mkLogTailAttributes {
  last_released_real_lsn : lsn_t;
  last_timestamp : Z;
  attr_offsets : Z
}.

(** ** The lag record: a [boost::circular_buffer] of buckets *)

Record TimeLagBucket : Type := mkBucket {
  time_lag : Z;
  time_lag_correction : Z;
  ttl : Z
}.

Record circular_buffer : Type := mkBuffer {
  capacity : Z;
  items : list TimeLagBucket
}.

Definition cb_size (b : circular_buffer) : Z := Z.of_nat (length (items b)).
Definition cb_empty (b : circular_buffer) : bool := cb_size b =? 0.
Definition cb_full (b : circular_buffer) : bool := cb_size b =? capacity b.

(** [front()] and [back()] of an empty buffer are undefined in the library;
    the code calls them only on a non-empty buffer, except for [front()] in the
    slope test when the capacity is zero.  The model answers with an all-zero
    bucket there. *)
Definition cb_front (b : circular_buffer) : TimeLagBucket :=
  hd (mkBucket 0 0 0) (items b).
Definition cb_back (b : circular_buffer) : TimeLagBucket :=
  last (items b) (mkBucket 0 0 0).

(** [push_back]: nothing is inserted into a buffer of capacity zero, and a
    full buffer loses its first element. *)
Definition cb_push_back (x : TimeLagBucket) (b : circular_buffer)
  : circular_buffer :=
  if capacity b =? 0 then b
  else if cb_full b then mkBuffer (capacity b) (tl (items b) ++ [x])
  else mkBuffer (capacity b) (items b ++ [x]).

Definition cb_pop_front (b : circular_buffer) : circular_buffer :=
  mkBuffer (capacity b) (tl (items b)).

(** [set_capacity]: when the buffer holds more than the new capacity, the
    last elements are removed. *)
Definition cb_set_capacity (len : Z) (b : circular_buffer) : circular_buffer :=
  mkBuffer len (firstn (Z.to_nat len) (items b)).

(** Apply [f] to the last element ([back() op= ...]). *)
Fixpoint update_last (f : TimeLagBucket -> TimeLagBucket)
  (l : list TimeLagBucket) : list TimeLagBucket :=
  match l with
  | [] => []
  | [x] => [f x]
  | x :: r => x :: update_last f r
  end.

Definition cb_update_back (f : TimeLagBucket -> TimeLagBucket)
  (b : circular_buffer) : circular_buffer :=
  mkBuffer (capacity b) (update_last f (items b)).

Definition add_time_lag_correction (d : Z) (s : TimeLagBucket)
  : TimeLagBucket :=
  mkBucket (time_lag s) (time_lag_correction s + d) (ttl s).

(** ** The tracer *)

Record TailInfo : Type := mkTailInfo {
  offsets : Z;
  timestamp : Z;
  lsn_approx : lsn_t
}.

Record Params : Type := mkParams {
  tracer_period : Z;
  push_samples : bool;
  ignore_overload : bool
}.

(** The data members of one [ClientReadersFlowTracer], apart from the
    shadow tracer it may own (see [ClientReadersFlowTracer] below).
    [timer_active_] is the answer of [timer_->isActive()]. *)
Record Fields : Type := mkFields {
  params_ : Params;
  timer_active_ : bool;
  last_num_bytes_read_ : Z;
  last_num_records_read_ : Z;
  last_trace_time_ : Z;
  speed_records_moving_avg_ : double;
  speed_bytes_moving_avg_ : double;
  latest_tail_info_ : option TailInfo;
  time_lag_record_ : circular_buffer;
  sample_counter_ : Z;
  last_time_stuck_ : TimePoint;
  last_time_lagging_ : TimePoint;
  last_next_lsn_to_deliver_ : lsn_t;
  last_reported_state_ : State;
  should_track_ : bool;
  last_sync_seq_request_result_ : Status
}.

Definition set_params_ (v : Params) (t : Fields) : Fields :=
  mkFields v (timer_active_ t) (last_num_bytes_read_ t)
  (last_num_records_read_ t) (last_trace_time_ t) (speed_records_moving_avg_
  t) (speed_bytes_moving_avg_ t) (latest_tail_info_ t) (time_lag_record_ t)
  (sample_counter_ t) (last_time_stuck_ t) (last_time_lagging_ t)
  (last_next_lsn_to_deliver_ t) (last_reported_state_ t) (should_track_ t)
  (last_sync_seq_request_result_ t).

Definition set_timer_active_ (v : bool) (t : Fields) : Fields :=
  mkFields (params_ t) v (last_num_bytes_read_ t) (last_num_records_read_ t)
  (last_trace_time_ t) (speed_records_moving_avg_ t) (speed_bytes_moving_avg_
  t) (latest_tail_info_ t) (time_lag_record_ t) (sample_counter_ t)
  (last_time_stuck_ t) (last_time_lagging_ t) (last_next_lsn_to_deliver_ t)
  (last_reported_state_ t) (should_track_ t) (last_sync_seq_request_result_
  t).

Definition set_last_num_bytes_read_ (v : Z) (t : Fields) : Fields :=
  mkFields (params_ t) (timer_active_ t) v (last_num_records_read_ t)
  (last_trace_time_ t) (speed_records_moving_avg_ t) (speed_bytes_moving_avg_
  t) (latest_tail_info_ t) (time_lag_record_ t) (sample_counter_ t)
  (last_time_stuck_ t) (last_time_lagging_ t) (last_next_lsn_to_deliver_ t)
  (last_reported_state_ t) (should_track_ t) (last_sync_seq_request_result_
  t).

Definition set_last_num_records_read_ (v : Z) (t : Fields) : Fields :=
  mkFields (params_ t) (timer_active_ t) (last_num_bytes_read_ t) v
  (last_trace_time_ t) (speed_records_moving_avg_ t) (speed_bytes_moving_avg_
  t) (latest_tail_info_ t) (time_lag_record_ t) (sample_counter_ t)
  (last_time_stuck_ t) (last_time_lagging_ t) (last_next_lsn_to_deliver_ t)
  (last_reported_state_ t) (should_track_ t) (last_sync_seq_request_result_
  t).

Definition set_last_trace_time_ (v : Z) (t : Fields) : Fields :=
  mkFields (params_ t) (timer_active_ t) (last_num_bytes_read_ t)
  (last_num_records_read_ t) v (speed_records_moving_avg_ t)
  (speed_bytes_moving_avg_ t) (latest_tail_info_ t) (time_lag_record_ t)
  (sample_counter_ t) (last_time_stuck_ t) (last_time_lagging_ t)
  (last_next_lsn_to_deliver_ t) (last_reported_state_ t) (should_track_ t)
  (last_sync_seq_request_result_ t).

Definition set_speed_records_moving_avg_ (v : double) (t : Fields) : Fields :=
  mkFields (params_ t) (timer_active_ t) (last_num_bytes_read_ t)
  (last_num_records_read_ t) (last_trace_time_ t) v (speed_bytes_moving_avg_
  t) (latest_tail_info_ t) (time_lag_record_ t) (sample_counter_ t)
  (last_time_stuck_ t) (last_time_lagging_ t) (last_next_lsn_to_deliver_ t)
  (last_reported_state_ t) (should_track_ t) (last_sync_seq_request_result_
  t).

Definition set_speed_bytes_moving_avg_ (v : double) (t : Fields) : Fields :=
  mkFields (params_ t) (timer_active_ t) (last_num_bytes_read_ t)
  (last_num_records_read_ t) (last_trace_time_ t) (speed_records_moving_avg_
  t) v (latest_tail_info_ t) (time_lag_record_ t) (sample_counter_ t)
  (last_time_stuck_ t) (last_time_lagging_ t) (last_next_lsn_to_deliver_ t)
  (last_reported_state_ t) (should_track_ t) (last_sync_seq_request_result_
  t).

Definition set_latest_tail_info_ (v : option TailInfo) (t : Fields) : Fields :=
  mkFields (params_ t) (timer_active_ t) (last_num_bytes_read_ t)
  (last_num_records_read_ t) (last_trace_time_ t) (speed_records_moving_avg_
  t) (speed_bytes_moving_avg_ t) v (time_lag_record_ t) (sample_counter_ t)
  (last_time_stuck_ t) (last_time_lagging_ t) (last_next_lsn_to_deliver_ t)
  (last_reported_state_ t) (should_track_ t) (last_sync_seq_request_result_
  t).

Definition set_time_lag_record_ (v : circular_buffer) (t : Fields) : Fields :=
  mkFields (params_ t) (timer_active_ t) (last_num_bytes_read_ t)
  (last_num_records_read_ t) (last_trace_time_ t) (speed_records_moving_avg_
  t) (speed_bytes_moving_avg_ t) (latest_tail_info_ t) v (sample_counter_ t)
  (last_time_stuck_ t) (last_time_lagging_ t) (last_next_lsn_to_deliver_ t)
  (last_reported_state_ t) (should_track_ t) (last_sync_seq_request_result_
  t).

Definition set_sample_counter_ (v : Z) (t : Fields) : Fields :=
  mkFields (params_ t) (timer_active_ t) (last_num_bytes_read_ t)
  (last_num_records_read_ t) (last_trace_time_ t) (speed_records_moving_avg_
  t) (speed_bytes_moving_avg_ t) (latest_tail_info_ t) (time_lag_record_ t) v
  (last_time_stuck_ t) (last_time_lagging_ t) (last_next_lsn_to_deliver_ t)
  (last_reported_state_ t) (should_track_ t) (last_sync_seq_request_result_
  t).

Definition set_last_time_stuck_ (v : TimePoint) (t : Fields) : Fields :=
  mkFields (params_ t) (timer_active_ t) (last_num_bytes_read_ t)
  (last_num_records_read_ t) (last_trace_time_ t) (speed_records_moving_avg_
  t) (speed_bytes_moving_avg_ t) (latest_tail_info_ t) (time_lag_record_ t)
  (sample_counter_ t) v (last_time_lagging_ t) (last_next_lsn_to_deliver_ t)
  (last_reported_state_ t) (should_track_ t) (last_sync_seq_request_result_
  t).

Definition set_last_time_lagging_ (v : TimePoint) (t : Fields) : Fields :=
  mkFields (params_ t) (timer_active_ t) (last_num_bytes_read_ t)
  (last_num_records_read_ t) (last_trace_time_ t) (speed_records_moving_avg_
  t) (speed_bytes_moving_avg_ t) (latest_tail_info_ t) (time_lag_record_ t)
  (sample_counter_ t) (last_time_stuck_ t) v (last_next_lsn_to_deliver_ t)
  (last_reported_state_ t) (should_track_ t) (last_sync_seq_request_result_
  t).

Definition set_last_next_lsn_to_deliver_ (v : lsn_t) (t : Fields) : Fields :=
  mkFields (params_ t) (timer_active_ t) (last_num_bytes_read_ t)
  (last_num_records_read_ t) (last_trace_time_ t) (speed_records_moving_avg_
  t) (speed_bytes_moving_avg_ t) (latest_tail_info_ t) (time_lag_record_ t)
  (sample_counter_ t) (last_time_stuck_ t) (last_time_lagging_ t) v
  (last_reported_state_ t) (should_track_ t) (last_sync_seq_request_result_
  t).

Definition set_last_reported_state_ (v : State) (t : Fields) : Fields :=
  mkFields (params_ t) (timer_active_ t) (last_num_bytes_read_ t)
  (last_num_records_read_ t) (last_trace_time_ t) (speed_records_moving_avg_
  t) (speed_bytes_moving_avg_ t) (latest_tail_info_ t) (time_lag_record_ t)
  (sample_counter_ t) (last_time_stuck_ t) (last_time_lagging_ t)
  (last_next_lsn_to_deliver_ t) v (should_track_ t)
  (last_sync_seq_request_result_ t).

Definition set_should_track_ (v : bool) (t : Fields) : Fields :=
  mkFields (params_ t) (timer_active_ t) (last_num_bytes_read_ t)
  (last_num_records_read_ t) (last_trace_time_ t) (speed_records_moving_avg_
  t) (speed_bytes_moving_avg_ t) (latest_tail_info_ t) (time_lag_record_ t)
  (sample_counter_ t) (last_time_stuck_ t) (last_time_lagging_ t)
  (last_next_lsn_to_deliver_ t) (last_reported_state_ t) v
  (last_sync_seq_request_result_ t).

Definition set_last_sync_seq_request_result_ (v : Status) (t : Fields) : Fields :=
  mkFields (params_ t) (timer_active_ t) (last_num_bytes_read_ t)
  (last_num_records_read_ t) (last_trace_time_ t) (speed_records_moving_avg_
  t) (speed_bytes_moving_avg_ t) (latest_tail_info_ t) (time_lag_record_ t)
  (sample_counter_ t) (last_time_stuck_ t) (last_time_lagging_ t)
  (last_next_lsn_to_deliver_ t) (last_reported_state_ t) (should_track_ t) v.

(** ** Free functions *)

(** [uint16_t get_initial_ttl(size_t, size_t)] returns
    [1.25 * group_size * num_groups]: the product is truncated toward zero
    and then narrowed to 16 bits.  (Narrowing a value of 65536 or more is
    undefined in C++; the model reduces it modulo 2^16, and the theorems
    about the value assume it fits.) *)
Definition get_initial_ttl (group_size num_groups : Z) : Z :=
  wrap16 (5 * group_size * num_groups / 4).

Definition updateCountersForState (state : State) (ignoring_overload : bool)
  (monitoring_tags : list string) (increment : Z) : list Effect :=
  if ignoring_overload then
    (if State_eqb state STUCK || State_eqb state LAGGING
     then [WORKER_STAT_ADD read_streams_stuck_or_lagging_ignoring_overload
             increment]
     else [])
    ++
    (if State_eqb state STUCK
        || State_eqb state STUCK_WHILE_FAILING_SYNC_SEQ_REQ
     then [WORKER_STAT_ADD read_streams_stuck_ignoring_overload increment]
     else if State_eqb state LAGGING
     then [WORKER_STAT_ADD read_streams_lagging_ignoring_overload increment]
     else [])
  else
    (if State_eqb state STUCK || State_eqb state LAGGING
     then [TAGGED_STAT_ADD monitoring_tags read_streams_stuck_or_lagging
             increment]
     else [])
    ++
    (if State_eqb state STUCK_WHILE_FAILING_SYNC_SEQ_REQ
     then [TAGGED_STAT_ADD monitoring_tags
             read_streams_stuck_failing_sync_seq_req increment]
     else [])
    ++
    (if State_eqb state STUCK
        || State_eqb state STUCK_WHILE_FAILING_SYNC_SEQ_REQ
     then [TAGGED_STAT_ADD monitoring_tags read_streams_stuck increment]
     else if State_eqb state LAGGING
     then [TAGGED_STAT_ADD monitoring_tags read_streams_lagging increment]
     else []).

(** Modelled from the spec: [msec_since] and [usec_since] are helpers of a
    header that is not in the source tree; the spec describes them as the
    time elapsed since a time point, in milliseconds and microseconds. *)
Definition msec_since (e : Env) (tp : TimePoint) : Z := now e - tp.
Definition usec_since (e : Env) (tp : TimePoint) : Z := (now e - tp) * 1000.

(** Reinterpret a 64-bit counter as [int64_t]. *)
Definition to_int64 (z : Z) : Z :=
  let w := wrap64 z in if w <? 2 ^ 63 then w else w - 2 ^ 64.

(** Lookup in the tag-to-threshold map of the settings. *)
Fixpoint threshold_map_at (tag : string) (m : list (string * Z)) : option Z :=
  match m with
  | [] => None
  | (k, v) :: r => if String.eqb k tag then Some v else threshold_map_at tag r
  end.

(** ** Methods that only read the tracer *)

Definition estimateTimeLag (e : Env) (t : Fields) : option Z :=
  match latest_tail_info_ t with
  | Some info =>
      let tail_lsn := lsn_approx info in
      let tail_ts := timestamp info in
      let last_in_record_ts := last_in_record_ts_ (owner_ e) in
      if tail_lsn <? next_lsn_to_deliver_ (owner_ e) then Some 0
      else if 0 <? last_in_record_ts
           then Some (Z.max (tail_ts - last_in_record_ts) 0)
           else None
  | None => None
  end.

Definition estimateByteLag (e : Env) (t : Fields) : option Z :=
  match latest_tail_info_ t with
  | Some info =>
      let tail_lsn := lsn_approx info in
      let tail_byte_offset := to_int64 (offsets info) in
      let acc_byte_offset := to_int64 (accumulated_offsets_ (owner_ e)) in
      if tail_lsn <? next_lsn_to_deliver_ (owner_ e) then Some 0
      else if negb (wrap64 acc_byte_offset =? BYTE_OFFSET_INVALID)
              && negb (wrap64 tail_byte_offset =? BYTE_OFFSET_INVALID)
           then if acc_byte_offset <=? tail_byte_offset
                then Some (to_int64 (tail_byte_offset - acc_byte_offset))
                else Some 0
           else None
  | None => None
  end.

Definition estimateTailLSN (e : Env) (t : Fields) : lsn_t :=
  let latest_tail_approx := last_released_ (owner_ e) in
  match latest_tail_info_ t with
  | Some info => Z.max (lsn_approx info) latest_tail_approx
  | None => latest_tail_approx
  end.

Definition readerIsStuck (t : Fields) : bool :=
  State_eqb (last_reported_state_ t) STUCK
  || State_eqb (last_reported_state_ t) STUCK_WHILE_FAILING_SYNC_SEQ_REQ.

Definition readerIsUnhealthy (e : Env) (t : Fields) : bool :=
  let time_lag_above_threshold :=
    match estimateTimeLag e t with
    | Some lag =>
        existsb
          (fun tag =>
             match threshold_map_at tag
                     (client_readers_flow_max_acceptable_time_lag_per_tag
                        (settings e)) with
             | Some threshold => threshold <? lag
             | None => false
             end)
          (monitoring_tags_ (owner_ e))
    | None => false
    end in
  negb (State_eqb (last_reported_state_ t) HEALTHY)
  || time_lag_above_threshold.

Definition calculateSamplingWeight (e : Env) (t : Fields) : Q :=
  if readerIsUnhealthy e t
  then client_readers_flow_tracer_unhealthy_publish_weight (settings e)
  else 1%Q.

(** The state [maybeBumpStats] computes into its local [state_to_report]. *)
Definition state_to_report (e : Env) (force_healthy : bool) (t : Fields)
  : State :=
  if force_healthy then HEALTHY
  else if (if negb (last_time_stuck_ t =? TimePoint_max)
           then last_time_stuck_ t + reader_stuck_threshold (settings e)
                <=? now e
           else false)
  then (if negb (Status_eqb (last_sync_seq_request_result_ t) E_OK)
           && (estimateTailLSN e t <=? next_lsn_to_deliver_ (owner_ e))
        then STUCK_WHILE_FAILING_SYNC_SEQ_REQ
        else STUCK)
  else if negb (last_time_lagging_ t =? TimePoint_max)
          && (until_lsn_ (owner_ e) =? LSN_MAX)
  then LAGGING
  else HEALTHY.

(** ** Methods that change the tracer *)

(** A method: new fields and the effects performed, oldest first. *)
Definition M : Type := Fields -> Fields * list Effect.

Definition skip : M := fun t => (t, []).
Definition modify (f : Fields -> Fields) : M := fun t => (f t, []).
Definition andThen (a b : M) : M :=
  fun t => let (t1, o1) := a t in let (t2, o2) := b t1 in (t2, o1 ++ o2).

Declare Scope method_scope.
Delimit Scope method_scope with method.
Notation "a ;; b" := (andThen a b)
  (at level 61, right associativity) : method_scope.
Bind Scope method_scope with M.

Definition maybeBumpStats (e : Env) (force_healthy : bool) : M := fun t =>
  let state_to_report := state_to_report e force_healthy t in
  if negb (State_eqb state_to_report (last_reported_state_ t)) then
    (set_last_reported_state_ state_to_report t,
     updateCountersForState (last_reported_state_ t)
       (ignore_overload (params_ t)) (monitoring_tags_ (owner_ e)) (-1)
     ++ updateCountersForState state_to_report
          (ignore_overload (params_ t)) (monitoring_tags_ (owner_ e)) 1)
  else (t, []).

(** The sample the builder of [traceReaderFlow] produces. *)
Definition sample_builder (e : Env) (t : Fields) : TraceSample :=
  {| smp_bytes_lagged := estimateByteLag e t;
     smp_timestamp_lagged := estimateTimeLag e t;
     smp_time_stuck := Z.max (msec_since e (last_time_stuck_ t)) 0;
     smp_time_lagging := Z.max (msec_since e (last_time_lagging_ t)) 0;
     smp_reading_speed_bytes := speed_bytes_moving_avg_ t;
     smp_reading_speed_records := speed_records_moving_avg_ t;
     smp_in_overloaded_worker :=
       match overloadDetector e with Some o => o | None => false end;
     smp_waiting_for_node :=
       if readerIsStuck t then waitingForNodeStr (owner_ e) else EmptyString;
     smp_state := toString (last_reported_state_ t);
     smp_monitoring_tags := monitoring_tags_ (owner_ e) |}.

Definition traceReaderFlow (e : Env) (num_bytes_read num_records_read : Z)
  : M := fun t =>
  if negb (push_samples (params_ t)) then (t, [])
  else
    let time_diff := steady_now e - last_trace_time_ t in
    let t :=
      set_speed_records_moving_avg_
        (updateExponentialMovingAverage (speed_records_moving_avg_ t)
           (wrap64 (num_records_read - last_num_records_read_ t)) time_diff)
        t in
    let t :=
      set_speed_bytes_moving_avg_
        (updateExponentialMovingAverage (speed_bytes_moving_avg_ t)
           (wrap64 (num_bytes_read - last_num_bytes_read_ t)) time_diff)
        t in
    let t := set_last_num_bytes_read_ num_bytes_read t in
    let t := set_last_num_records_read_ num_records_read t in
    let t := set_last_trace_time_ (steady_now e) t in
    (t, [publish (sample_builder e t) (calculateSamplingWeight e t)]).

Definition onSettingsUpdated (e : Env) : M := fun t =>
  let period := client_readers_flow_tracer_period (settings e) in
  let t :=
    set_params_
      (mkParams period (push_samples (params_ t))
         (ignore_overload (params_ t))) t in
  let '(t, o) :=
    if negb (period =? 0) then
      if negb (timer_active_ t)
      then (set_timer_active_ true t, [timer_activate 0])
      else (t, [])
    else
      if timer_active_ t
      then (set_timer_active_ false t, [timer_cancel])
      else (t, []) in
  let len :=
    client_readers_flow_tracer_lagging_metric_num_sample_groups (settings e)
  in
  let t :=
    if negb (len =? capacity (time_lag_record_ t))
    then set_time_lag_record_ (cb_set_capacity len (time_lag_record_ t)) t
    else t in
  (t, o).

Definition updateTimeStuck (e : Env) (tail_lsn : lsn_t) (st : Status) : M :=
  ((fun t =>
      if negb (last_next_lsn_to_deliver_ t
               =? next_lsn_to_deliver_ (owner_ e))
      then (modify (set_last_next_lsn_to_deliver_
                      (next_lsn_to_deliver_ (owner_ e))) ;;
            modify (set_last_time_stuck_ TimePoint_max) ;;
            maybeBumpStats e false)%method t
      else skip t) ;;
   (fun t =>
      let is_stuck :=
        should_track_ t
        && (negb (Status_eqb st E_OK)
            || (next_lsn_to_deliver_ (owner_ e)
                <=? Z.min tail_lsn (until_lsn_ (owner_ e)))) in
      if negb is_stuck then modify (set_last_time_stuck_ TimePoint_max) t
      else if last_time_stuck_ t =? TimePoint_max
           then modify (set_last_time_stuck_ (now e)) t
           else skip t) ;;
   maybeBumpStats e false)%method.

(** The loop [while (!empty() && front().ttl == 0) pop_front()]. *)
Fixpoint pop_old_samples (l : list TimeLagBucket) : list TimeLagBucket :=
  match l with
  | s :: r => if ttl s =? 0 then pop_old_samples r else l
  | [] => []
  end.

(** [--s.ttl] on a [uint16_t]. *)
Definition decrement_ttl (s : TimeLagBucket) : TimeLagBucket :=
  mkBucket (time_lag s) (time_lag_correction s) (wrap16 (ttl s - 1)).

(** The lag record after the two loops that open a sample: expired buckets
    popped from the front, then every remaining TTL counted down. *)
Definition aged (b : circular_buffer) : circular_buffer :=
  mkBuffer (capacity b) (map decrement_ttl (pop_old_samples (items b))).

(** The sample [updateTimeLagging] works with, if it has one. *)
Definition cur_ts_lag (e : Env) (st : Status) (t : Fields) : option Z :=
  match estimateTimeLag e t with
  | Some last_lag =>
      if Status_eqb st E_OK then Some last_lag
      else if negb (cb_empty (time_lag_record_ t))
           then Some (time_lag (cb_back (time_lag_record_ t)))
           else None
  | None =>
      if negb (Status_eqb st E_OK) && negb (cb_empty (time_lag_record_ t))
      then Some (time_lag (cb_back (time_lag_record_ t)))
      else None
  end.

(** [time_window]: [size_t] arithmetic, the period converted to unsigned. *)
Definition time_window (period group_size num_groups sample_counter : Z)
  : Z :=
  wrap64 (wrap64 period
          * wrap64 (wrap64 (group_size * wrap64 (num_groups - 1))
                    + sample_counter mod group_size)).

Definition sum_corrections (l : list TimeLagBucket) : Z :=
  fold_left (fun correction x => correction + time_lag_correction x) l 0.

(** The third disjunct of [is_catching_up],
    [growth <= slope_threshold * time_window], where [growth] is a duration
    counted in [int64_t] and [time_window] one counted in [size_t].  The
    product is the [double] product of the threshold and the window
    converted to [double]; the comparison converts [growth] to [double] and,
    being [operator<=] of [std::chrono::duration], is the negation of
    [product < growth], so that a NaN product passes the test. *)
Definition slope_within (slope_threshold : float) (time_window growth : Z)
  : bool :=
  negb (PrimFloat.ltb (PrimFloat.mul slope_threshold (to_double time_window))
          (to_double growth)).

(** The value of the local [is_catching_up]. *)
Definition is_catching_up (e : Env) (cur_ts_lag : Z) (t : Fields) : bool :=
  let group_size :=
    Z.max (client_readers_flow_tracer_lagging_metric_sample_group_size
             (settings e)) 1 in
  let slope_threshold :=
    client_readers_flow_tracer_lagging_slope_threshold (settings e) in
  let num_groups :=
    client_readers_flow_tracer_lagging_metric_num_sample_groups (settings e)
  in
  let time_window :=
    time_window (tracer_period (params_ t)) group_size num_groups
      (sample_counter_ t) in
  let correction := sum_corrections (items (time_lag_record_ t)) in
  (cur_ts_lag <=? tracer_period (params_ t))
  || negb (cb_full (time_lag_record_ t))
  || slope_within slope_threshold time_window
       (cur_ts_lag - time_lag (cb_front (time_lag_record_ t)) - correction).

(** The part of [updateTimeLagging] that decides whether to open a bucket:
    [if ((sample_counter_++) % group_size == 0) { ... push_back ... }]. *)
Definition record_sample (e : Env) (cur_ts_lag : Z) : M := fun t =>
  let group_size :=
    Z.max (client_readers_flow_tracer_lagging_metric_sample_group_size
             (settings e)) 1 in
  let num_groups :=
    client_readers_flow_tracer_lagging_metric_num_sample_groups (settings e)
  in
  let counter := sample_counter_ t in
  let t := set_sample_counter_ (wrap64 (counter + 1)) t in
  if counter mod group_size =? 0 then
    let '(t, new_time_lag_correction) :=
      if negb (should_track_ t)
      then (set_time_lag_record_
              (cb_update_back (add_time_lag_correction cur_ts_lag)
                 (time_lag_record_ t)) t,
            0 - cur_ts_lag)
      else (t, 0) in
    (set_time_lag_record_
       (cb_push_back
          (mkBucket cur_ts_lag new_time_lag_correction
             (get_initial_ttl group_size num_groups))
          (time_lag_record_ t)) t,
     [])
  else (t, []).

Definition updateTimeLagging (e : Env) (st : Status) : M := fun t =>
  match cur_ts_lag e st t with
  | None => (t, [])
  | Some cur_ts_lag =>
      (modify (fun t =>
                 set_time_lag_record_ (aged (time_lag_record_ t)) t) ;;
       (fun t =>
          if negb (should_track_ t)
          then (modify (set_last_time_lagging_ TimePoint_max) ;;
                maybeBumpStats e false)%method t
          else
            (record_sample e cur_ts_lag ;;
             (fun t =>
                if is_catching_up e cur_ts_lag t
                then modify (set_last_time_lagging_ TimePoint_max) t
                else if last_time_lagging_ t =? TimePoint_max
                     then modify (set_last_time_lagging_ (now e)) t
                     else skip t) ;;
             maybeBumpStats e false)%method t))%method t
  end.

Definition bumpHistograms (e : Env) : M := fun t =>
  let time_stuck := Z.max (usec_since e (last_time_stuck_ t)) 0 in
  (t,
   TAGGED_HISTOGRAM_ADD hist_time_stuck (monitoring_tags_ (owner_ e))
     time_stuck
   :: match estimateTimeLag e t with
      | Some time_lag =>
          [TAGGED_HISTOGRAM_ADD hist_time_lag (monitoring_tags_ (owner_ e))
             (time_lag * 1000)]
      | None => []
      end).

Definition updateShouldTrack (e : Env) : M := fun t =>
  let was_being_tracked := should_track_ t in
  let overloaded :=
    match overloadDetector e with
    | Some o => if negb (ignore_overload (params_ t)) then o else false
    | None => false
    end in
  let t :=
    set_should_track_
      (negb overloaded
       && negb (redelivery_timer_active (owner_ e))
       && negb (window_update_pending_ (owner_ e))) t in
  let adjust (d : Z) : M :=
    modify (fun t =>
              set_time_lag_record_
                (cb_update_back (add_time_lag_correction d)
                   (time_lag_record_ t)) t) in
  if was_being_tracked && negb (should_track_ t) then
    match estimateTimeLag e t with
    | Some time_lag =>
        if negb (cb_empty (time_lag_record_ t))
        then adjust (0 - time_lag) t else skip t
    | None => skip t
    end
  else if negb was_being_tracked && should_track_ t then
    match estimateTimeLag e t with
    | Some time_lag =>
        if negb (cb_empty (time_lag_record_ t))
        then adjust time_lag t else skip t
    | None => skip t
    end
  else skip t.

Definition onSyncSequencerRequestResponse (e : Env) (st : Status)
  (next_lsn : lsn_t) (attrs : option LogTailAttributes) : M :=
  (modify (set_last_sync_seq_request_result_ st) ;;
   match attrs with
   | Some a =>
       if Status_eqb st E_OK then
         let tail_lsn_approx :=
           if negb (last_released_real_lsn a =? LSN_INVALID)
           then last_released_real_lsn a
           else wrap64 (next_lsn - 1) in
         (modify (set_latest_tail_info_
                    (Some (mkTailInfo (attr_offsets a) (last_timestamp a)
                             tail_lsn_approx))) ;;
          updateTimeStuck e tail_lsn_approx E_OK)
       else updateTimeStuck e LSN_INVALID st
   | None => updateTimeStuck e LSN_INVALID st
   end ;;
   updateTimeLagging e st ;;
   traceReaderFlow e (num_bytes_delivered_ (owner_ e))
     (num_records_delivered_ (owner_ e)) ;;
   bumpHistograms e)%method.

(** [post_ok] says whether [postRequest] returned 0. *)
Definition sendSyncSequencerRequest (e : Env) (post_ok : bool) : M :=
  ((fun t =>
      (t, [postRequest (tracer_period (params_ t))
             (client_readers_flow_tracer_GSS_skip_remote_preemption_checks
                (settings e))])) ;;
   (if negb post_ok
    then onSyncSequencerRequestResponse e E_NOBUFS LSN_INVALID None
    else skip))%method.

Definition onTimerTriggered (e : Env) (post_ok : bool) : M :=
  (sendSyncSequencerRequest e post_ok ;;
   updateShouldTrack e ;;
   maybeBumpStats e false ;;
   (fun t =>
      (set_timer_active_ true t, [timer_activate (tracer_period (params_ t))])))
  %method.

(** ** A tracer and its shadow *)

(** A tracer built with [ignore_overload = false] owns a second tracer,
    [tracer_ignoring_overload_], which is built with [ignore_overload = true]
    and so owns none itself: the nesting is one level deep, and the model is
    the tracer's own fields next to the optional fields of its shadow. *)
Record ClientReadersFlowTracer : Type := mkTracer {
  self : Fields;
  tracer_ignoring_overload_ : option Fields
}.

(** The default member initialisers the spec is silent about.  The class
    declaration is not in the source tree; nothing proved below depends on
    these values. *)
Record MemberDefaults : Type := mkMemberDefaults {
  default_last_num_bytes_read : Z;
  default_last_num_records_read : Z;
  default_last_trace_time : Z;
  default_sample_counter : Z;
  default_last_next_lsn_to_deliver : lsn_t;
  default_should_track : bool;
  default_last_sync_seq_request_result : Status
}.

(** Modelled from the spec: the state of the data members when the body of
    the constructor starts.  The spec gives the initial state as HEALTHY, both
    moving averages as zero, the dwell timers as "none" and the tail info as
    absent; the lag record is an empty buffer and the timer is idle. *)
Definition initial_fields (push_samples ignore_overload : bool)
  (d : MemberDefaults) : Fields :=
  {| params_ := mkParams 0 push_samples ignore_overload;
     timer_active_ := false;
     last_num_bytes_read_ := default_last_num_bytes_read d;
     last_num_records_read_ := default_last_num_records_read d;
     last_trace_time_ := default_last_trace_time d;
     speed_records_moving_avg_ := DZero;
     speed_bytes_moving_avg_ := DZero;
     latest_tail_info_ := None;
     time_lag_record_ := mkBuffer 0 [];
     sample_counter_ := default_sample_counter d;
     last_time_stuck_ := TimePoint_max;
     last_time_lagging_ := TimePoint_max;
     last_next_lsn_to_deliver_ := default_last_next_lsn_to_deliver d;
     last_reported_state_ := HEALTHY;
     should_track_ := default_should_track d;
     last_sync_seq_request_result_ :=
       default_last_sync_seq_request_result d |}.

(** The constructor: read the settings, then build the shadow if this tracer
    does not ignore overload. *)
Definition construct (e : Env) (push_samples ignore_overload : bool)
  (d : MemberDefaults) : ClientReadersFlowTracer * list Effect :=
  let (s, o) :=
    onSettingsUpdated e (initial_fields push_samples ignore_overload d) in
  if negb ignore_overload then
    let (shadow, o') := onSettingsUpdated e (initial_fields false true d) in
    (mkTracer s (Some shadow), o ++ o')
  else (mkTracer s None, o).

Definition on_self (m : M) (t : ClientReadersFlowTracer)
  : ClientReadersFlowTracer * list Effect :=
  let (s, o) := m (self t) in (mkTracer s (tracer_ignoring_overload_ t), o).

Definition on_shadow (m : M) (t : ClientReadersFlowTracer)
  : ClientReadersFlowTracer * list Effect :=
  match tracer_ignoring_overload_ t with
  | Some shadow => let (s, o) := m shadow in (mkTracer (self t) (Some s), o)
  | None => (t, [])
  end.

(** A method that ends with
    [if (tracer_ignoring_overload_) tracer_ignoring_overload_->method()]. *)
Definition forwarded (m : M) (t : ClientReadersFlowTracer)
  : ClientReadersFlowTracer * list Effect :=
  let (t1, o1) := on_self m t in
  let (t2, o2) := on_shadow m t1 in
  (t2, o1 ++ o2).

(** Which of the two tracers a timer or a tail-query completion belongs to:
    each has a timer and posts requests of its own. *)
Inductive Target : Type := Primary | Shadow.

Definition on_target (who : Target) (m : M) (t : ClientReadersFlowTracer)
  : ClientReadersFlowTracer * list Effect :=
  match who with
  | Primary => on_self m t
  | Shadow => on_shadow m t
  end.

(** The ways into a live tracer. *)
Inductive Event : Type :=
| SettingsUpdated
| TimerTriggered (who : Target) (post_ok : bool)
| SyncSequencerRequestResponse (who : Target) (st : Status)
    (next_lsn : lsn_t) (attrs : option LogTailAttributes)
| RedeliveryTimerInactive
| RedeliveryTimerActive
| WindowUpdatePending
| WindowUpdateSent.

Definition step (e : Env) (ev : Event) (t : ClientReadersFlowTracer)
  : ClientReadersFlowTracer * list Effect :=
  match ev with
  | SettingsUpdated => forwarded (onSettingsUpdated e) t
  | TimerTriggered who post_ok => on_target who (onTimerTriggered e post_ok) t
  | SyncSequencerRequestResponse who st next_lsn attrs =>
      on_target who (onSyncSequencerRequestResponse e st next_lsn attrs) t
  | RedeliveryTimerInactive | RedeliveryTimerActive
  | WindowUpdatePending | WindowUpdateSent =>
      forwarded (updateShouldTrack e) t
  end.

(** A history: every event with what the tracer observes when it happens. *)
Fixpoint run (evs : list (Env * Event)) (t : ClientReadersFlowTracer)
  : ClientReadersFlowTracer * list Effect :=
  match evs with
  | [] => (t, [])
  | (e, ev) :: rest =>
      let (t1, o1) := step e ev t in
      let (t2, o2) := run rest t1 in
      (t2, o1 ++ o2)
  end.

(** The destructor runs [maybeBumpStats(true)]; destroying the members then
    destroys the shadow, whose destructor does the same. *)
Definition destroy (e : Env) (t : ClientReadersFlowTracer) : list Effect :=
  snd (maybeBumpStats e true (self t))
  ++ match tracer_ignoring_overload_ t with
     | Some shadow => snd (maybeBumpStats e true shadow)
     | None => []
     end.

(** Everything a tracer does from construction to destruction. *)
Definition lifetime (e0 : Env) (push_samples ignore_overload : bool)
  (d : MemberDefaults) (evs : list (Env * Event)) (e_end : Env)
  : list Effect :=
  let (t0, o0) := construct e0 push_samples ignore_overload d in
  let (t1, o1) := run evs t0 in
  o0 ++ o1 ++ destroy e_end t1.

(** ** Reading the effects *)

(** The counter a statistics effect adds to, and by how much. *)
Definition stat_delta (x : Effect) : option (Counter * Z) :=
  match x with
  | WORKER_STAT_ADD name val => Some (name, val)
  | TAGGED_STAT_ADD _ name val => Some (name, val)
  | _ => None
  end.

(** How many times the effects add exactly [val] to counter [c]. *)
Definition count_deltas (c : Counter) (val : Z) (o : list Effect) : nat :=
  List.length
    (filter (fun x =>
               match stat_delta x with
               | Some (name, v) => Counter_eqb name c && (v =? val)
               | None => false
               end) o).

(** The sum of everything the effects add to counter [c]. *)
Definition net_delta (c : Counter) (o : list Effect) : Z :=
  fold_right (fun x acc =>
                match stat_delta x with
                | Some (name, v) => if Counter_eqb name c then v + acc else acc
                | None => acc
                end) 0 o.

Definition is_publish (x : Effect) : bool :=
  match x with publish _ _ => true | _ => false end.

Definition count_published (o : list Effect) : nat :=
  List.length (filter is_publish o).

(** ** The nodes-configuration publisher *)

Module NodesConfigurationPublisher.

(** A [std::shared_ptr<const NodesConfiguration>], compared by address. *)
Definition NodesConfigurationPtr := Z.

Record Settings : Type := mkSettings {
  enable_nodes_configuration_manager : bool;
  use_nodes_configuration_manager_nodes_configuration : bool
}.

(** [UpdateableConfig]: the two sources and the published view. *)
Record UpdateableConfig : Type := mkConfig {
  getNodesConfigurationFromNCMSource : NodesConfigurationPtr;
  getNodesConfigurationFromServerConfigSource : NodesConfigurationPtr;
  getNodesConfiguration : NodesConfigurationPtr
}.

Inductive Effect : Type :=
| update_called (nc : NodesConfigurationPtr)
| ld_error (nc : NodesConfigurationPtr)
| ld_info (nc : NodesConfigurationPtr) (from_ncm : bool).

(** Modelled from the spec: [updateableNodesConfiguration()->update] is not
    in the source tree.  It answers with a code [rv]; on 0 the argument is the
    published view from then on, and otherwise "the previous view remains
    authoritative". *)
Definition update (rv : Z) (nc : NodesConfigurationPtr) (c : UpdateableConfig)
  : UpdateableConfig :=
  if rv =? 0
  then mkConfig (getNodesConfigurationFromNCMSource c)
         (getNodesConfigurationFromServerConfigSource c) nc
  else c.

(** The view [publish] decides to publish. *)
Definition nodes_configuration_to_publish (s : Settings)
  (c : UpdateableConfig) : NodesConfigurationPtr :=
  let from_ncm :=
    enable_nodes_configuration_manager s
    && use_nodes_configuration_manager_nodes_configuration s in
  if from_ncm then getNodesConfigurationFromNCMSource c
  else getNodesConfigurationFromServerConfigSource c.

(** [publish()], run under the mutex; [rv] is what [update] will answer if
    it is called.  [ld_check] is compiled out of release builds. *)
Definition publish (s : Settings) (rv : Z) (c : UpdateableConfig)
  : UpdateableConfig * list Effect :=
  let from_ncm :=
    enable_nodes_configuration_manager s
    && use_nodes_configuration_manager_nodes_configuration s in
  let to_publish := nodes_configuration_to_publish s c in
  let current_nodes_configuration := getNodesConfiguration c in
  if negb (current_nodes_configuration =? to_publish) then
    (update rv to_publish c,
     update_called to_publish
     :: (if negb (rv =? 0) then [ld_error to_publish]
         else [ld_info to_publish from_ncm]))
  else (c, []).

End NodesConfigurationPublisher.


(** ** Relations between a method's input, effects and output *)

Definition Rel : Type := Fields -> list Effect -> Fields -> Prop.

Record compositional (R : Rel) : Prop := mkCompositional {
  comp_nil : forall t, R t [] t;
  comp_app : forall t o1 t1 o2 t2,
      R t o1 t1 -> R t1 o2 t2 -> R t (o1 ++ o2) t2
}.

Definition sat (R : Rel) (m : M) : Prop :=
  forall t, R t (snd (m t)) (fst (m t)).


(** ** Definitions used to state the properties *)

(** A statistics effect that adds exactly +1 or -1. *)
Definition unit_delta (x : Effect) : Prop :=
  match stat_delta x with
  | Some (_, v) => v = 1 \/ v = -1
  | None => True
  end.

(** What a tracer whose last reported state is [s] has added to counter [c]
    and not yet taken back: the number of +1 deltas
    [updateCountersForState] sends to [c] for [s]. *)
Definition contribution (c : Counter) (ignoring_overload : bool) (s : State)
  : nat :=
  count_deltas c 1 (updateCountersForState s ignoring_overload [] 1).

Definition contribution_of (c : Counter) (t : Fields) : nat :=
  contribution c (ignore_overload (params_ t)) (last_reported_state_ t).

(** Counter bookkeeping of one method: the overload flag is kept, every
    delta is a unit, and the +1 deltas to [c] plus what the tracer
    contributed before equal the -1 deltas plus what it contributes after. *)
Definition conserves (c : Counter) : Rel := fun t o t' =>
  ignore_overload (params_ t') = ignore_overload (params_ t)
  /\ Forall unit_delta o
  /\ (count_deltas c 1 o + contribution_of c t
      = count_deltas c (-1) o + contribution_of c t')%nat.

(** What [traceReaderFlow] keeps between calls. *)
Definition trace_state (t : Fields) : Z * Z * Z * double * double :=
  (last_num_bytes_read_ t, last_num_records_read_ t, last_trace_time_ t,
   speed_records_moving_avg_ t, speed_bytes_moving_avg_ t).

(** A step that keeps the two flags of [params_], the reported state and
    the trace state, touches no counter and publishes no sample. *)
Definition plain : Rel := fun t o t' =>
  push_samples (params_ t') = push_samples (params_ t)
  /\ ignore_overload (params_ t') = ignore_overload (params_ t)
  /\ last_reported_state_ t' = last_reported_state_ t
  /\ trace_state t' = trace_state t
  /\ Forall (fun x => stat_delta x = None /\ is_publish x = false) o.

(** What a tracer and its shadow together contribute to counter [c]. *)
Definition contribution_of_pair (c : Counter) (t : ClientReadersFlowTracer)
  : nat :=
  (contribution_of c (self t)
   + match tracer_ignoring_overload_ t with
     | Some shadow => contribution_of c shadow
     | None => 0
     end)%nat.

Definition conserves_pair (c : Counter)
  (t : ClientReadersFlowTracer) (o : list Effect)
  (t' : ClientReadersFlowTracer) : Prop :=
  Forall unit_delta o
  /\ (count_deltas c 1 o + contribution_of_pair c t
      = count_deltas c (-1) o + contribution_of_pair c t')%nat.

(** ** Invariants of a tracer and its shadow

    [I1] and [P1] speak of the tracer itself and the effects of its methods,
    [I2] and [P2] of its shadow. *)

Definition inv_rel (I : Fields -> Prop) (P : Effect -> Prop) : Rel :=
  fun t o t' => I t -> I t' /\ Forall P o.

Definition inv_pair (I1 I2 : Fields -> Prop) (t : ClientReadersFlowTracer)
  : Prop :=
  I1 (self t)
  /\ match tracer_ignoring_overload_ t with
     | Some shadow => I2 shadow
     | None => True
     end.

(** The entry points, run with what [e] shows, satisfy [R]. *)
Definition entry_points (R : Rel) (e : Env) : Prop :=
  sat R (onSettingsUpdated e)
  /\ (forall post_ok, sat R (onTimerTriggered e post_ok))
  /\ (forall st next_lsn attrs,
        sat R (onSyncSequencerRequestResponse e st next_lsn attrs))
  /\ sat R (updateShouldTrack e).

(** No effect reports LAGGING: no sample carries that state, and neither
    lagging counter is touched. *)
Definition quiet_about_lagging (x : Effect) : Prop :=
  match x with
  | publish sample _ => smp_state sample <> toString LAGGING
  | WORKER_STAT_ADD name _ | TAGGED_STAT_ADD _ name _ =>
      name <> read_streams_lagging
      /\ name <> read_streams_lagging_ignoring_overload
  | _ => True
  end.

Definition not_lagging (t : Fields) : Prop :=
  last_reported_state_ t <> LAGGING.

(** ** The counter families, in the spec's words

    The spec lists four families and the states each counts; the code is
    compared with this table. *)
Inductive Family : Type :=
| family_stuck_or_lagging
| family_stuck
| family_lagging
| family_stuck_failing_tail_query.

Definition counts (f : Family) (s : State) : bool :=
  match f, s with
  | family_stuck_or_lagging, (STUCK | LAGGING) => true
  | family_stuck, (STUCK | STUCK_WHILE_FAILING_SYNC_SEQ_REQ) => true
  | family_lagging, LAGGING => true
  | family_stuck_failing_tail_query, STUCK_WHILE_FAILING_SYNC_SEQ_REQ => true
  | _, _ => false
  end.

(** The counter that stands for a family in [updateCountersForState], in the
    variant the overload flag selects.  The code has no counter for the
    fourth family when overload is ignored. *)
Definition counter_of (f : Family) (ignoring_overload : bool)
  : option Counter :=
  match f, ignoring_overload with
  | family_stuck_or_lagging, true =>
      Some read_streams_stuck_or_lagging_ignoring_overload
  | family_stuck, true => Some read_streams_stuck_ignoring_overload
  | family_lagging, true => Some read_streams_lagging_ignoring_overload
  | family_stuck_failing_tail_query, true => None
  | family_stuck_or_lagging, false => Some read_streams_stuck_or_lagging
  | family_stuck, false => Some read_streams_stuck
  | family_lagging, false => Some read_streams_lagging
  | family_stuck_failing_tail_query, false =>
      Some read_streams_stuck_failing_sync_seq_req
  end.

(** A statistics effect of the variant the overload flag selects: untagged
    when overload is ignored, tagged with [tags] otherwise. *)
Definition in_variant (ignoring_overload : bool) (tags : list string)
  (x : Effect) : Prop :=
  match x with
  | WORKER_STAT_ADD _ _ => ignoring_overload = true
  | TAGGED_STAT_ADD tg _ _ => ignoring_overload = false /\ tg = tags
  | _ => False
  end.

(** A step that publishes no sample and keeps [push_samples] and the trace
    state. *)
Definition unpublished : Rel := fun t o t' =>
  push_samples (params_ t') = push_samples (params_ t)
  /\ trace_state t' = trace_state t
  /\ count_published o = 0%nat.

(** A step that publishes one sample if the tracer pushes samples and none
    if it does not. *)
Definition publishes_once : Rel := fun t o t' =>
  push_samples (params_ t') = push_samples (params_ t)
  /\ count_published o = (if push_samples (params_ t) then 1 else 0)%nat.

(** A tracer that does not push samples and whose trace state is [ts]. *)
Definition never_traced (ts : Z * Z * Z * double * double) (t : Fields)
  : Prop :=
  push_samples (params_ t) = false /\ trace_state t = ts.

Definition not_published (x : Effect) : Prop := is_publish x = false.

(** ** The order of the TTLs in the lag record *)

Fixpoint non_decreasing (l : list Z) : Prop :=
  match l with
  | a :: (b :: _) as r => a <= b /\ non_decreasing r
  | _ => True
  end.

Fixpoint non_increasing (l : list Z) : Prop :=
  match l with
  | a :: (b :: _) as r => b <= a /\ non_increasing r
  | _ => True
  end.

(** The TTLs of the lag record, oldest bucket first. *)
Definition ttls (t : Fields) : list Z :=
  map ttl (items (time_lag_record_ t)).

(** The TTLs do not decrease from the oldest to the newest bucket, and none
    exceeds the initial TTL [initial]. *)
Definition ttl_ordered (initial : Z) (t : Fields) : Prop :=
  non_decreasing (ttls t) /\ Forall (fun x => 0 <= x <= initial) (ttls t).

(** The initial TTL the settings of [e] give a new bucket. *)
Definition initial_ttl_of (e : Env) : Z :=
  get_initial_ttl
    (Z.max (client_readers_flow_tracer_lagging_metric_sample_group_size
              (settings e)) 1)
    (client_readers_flow_tracer_lagging_metric_num_sample_groups (settings e)).

Definition anything (x : Effect) : Prop := True.

(** The initial TTL in the spec's words: the ceiling of
    [1.25 * group_size * num_groups]. *)
Definition spec_initial_ttl (group_size num_groups : Z) : Z :=
  - ((- (5 * group_size * num_groups)) / 4).

(** ** The catch-up rule, in the spec's words

    [window = T * (G * (N - 1) + i)] with [i = sample_counter mod G], the
    sample counter being the one the spec opens buckets by: the number of
    samples taken before this one (a bucket is opened when it is a multiple
    of [G]).  Test (c), [lag - lag0 - correction <= slope_threshold * window],
    is an inequality between numbers, here exact rationals. *)
Definition spec_window (T G N sample_counter : Z) : Z :=
  T * (G * (N - 1) + sample_counter mod G).

Definition spec_catching_up (slope_threshold : Q)
  (T G N sample_counter lag : Z) (record : circular_buffer) : Prop :=
  let lag0 := time_lag (cb_front record) in
  let correction :=
    fold_right Z.add 0 (map time_lag_correction (items record)) in
  lag <= T
  \/ cb_size record <> capacity record
  \/ (inject_Z (lag - lag0 - correction)
      <= slope_threshold * inject_Z (spec_window T G N sample_counter))%Q.

(** The number a finite double stands for. *)
Definition exact_value (x : float) : option Q :=
  match Prim2SF x with
  | S754_zero _ => Some 0%Q
  | S754_finite s m e =>
      let q := (inject_Z (Z.pos m) * (2 # 1) ^ e)%Q in
      Some (if s then (- q)%Q else q)
  | _ => None
  end.

(** The events that can open a bucket of the lag record: a completion of
    the tail query, and a tick whose request could not be posted (it runs
    the completion itself). *)
Definition may_open_bucket (ev : Event) : bool :=
  match ev with
  | SyncSequencerRequestResponse _ _ _ _ => true
  | TimerTriggered _ post_ok => negb post_ok
  | _ => false
  end.

(** The initial TTLs the settings give at the events of a history that can
    open a bucket, in order. *)
Definition initial_ttls (evs : list (Env * Event)) : list Z :=
  map (fun x => initial_ttl_of (fst x))
    (filter (fun x => may_open_bucket (snd x)) evs).


(** A tagged delta carries exactly the tags [tags]. *)
Definition tagged_with (tags : list string) (x : Effect) : Prop :=
  match x with
  | TAGGED_STAT_ADD tg _ _ => tg = tags
  | _ => True
  end.

Definition always (t : Fields) : Prop := True.

(** ** Concrete inputs

    A stream read with a one-second tracer period, groups of one sample, a
    lag record of two groups, a slope threshold of 1/10 and a stuck threshold
    of one minute.  The reader sits at position 5 while the tail is at 50; at
    time [now] (milliseconds) the last delivered record is [lag] milliseconds
    older than the tail record. *)

(** The double nearest to 0.1, which is what the literal [0.1] denotes. *)
Definition one_tenth : float := 0x1.999999999999ap-4.

Definition example_settings : Settings :=
  {| client_readers_flow_tracer_period := 1000;
     client_readers_flow_tracer_lagging_metric_num_sample_groups := 2;
     client_readers_flow_tracer_lagging_metric_sample_group_size := 1;
     client_readers_flow_tracer_lagging_slope_threshold := one_tenth;
     client_readers_flow_max_acceptable_time_lag_per_tag := [];
     client_readers_flow_tracer_unhealthy_publish_weight := 5 # 1;
     reader_stuck_threshold := 60000;
     client_readers_flow_tracer_GSS_skip_remote_preemption_checks := false |}.

Definition example_owner (until_lsn : lsn_t) (next_lsn_to_deliver : lsn_t)
  : ClientReadStream :=
  {| next_lsn_to_deliver_ := next_lsn_to_deliver;
     until_lsn_ := until_lsn;
     last_released_ := 50;
     last_in_record_ts_ := 1000;
     accumulated_offsets_ := 0;
     num_bytes_delivered_ := 0;
     num_records_delivered_ := 0;
     monitoring_tags_ := ["tag"%string];
     redelivery_timer_active := false;
     window_update_pending_ := false;
     waitingForNodeStr := "N1"%string |}.

Definition example_env (until_lsn next_lsn_to_deliver : lsn_t)
  (now : TimePoint) : Env :=
  {| settings := example_settings;
     owner_ := example_owner until_lsn next_lsn_to_deliver;
     now := now;
     steady_now := now;
     overloadDetector := Some false |}.

Definition example_defaults : MemberDefaults :=
  {| default_last_num_bytes_read := 0;
     default_last_num_records_read := 0;
     default_last_trace_time := 0;
     default_sample_counter := 0;
     default_last_next_lsn_to_deliver := LSN_INVALID;
     default_should_track := true;
     default_last_sync_seq_request_result := E_OK |}.

(** A successful tail query: the tail is at 50 and its record is [lag]
    milliseconds younger than the reader's last record. *)
Definition example_attrs (lag : Z) : option LogTailAttributes :=
  Some {| last_released_real_lsn := 50;
          last_timestamp := 1000 + lag;
          attr_offsets := 0 |}.

(** Three ticks of the primary tracer, one second apart, each answered at
    once; the lag grows by five seconds per tick and the reader advances one
    position per tick. *)
Definition example_growing_lag (until_lsn : lsn_t) : list (Env * Event) :=
  [ (example_env until_lsn 5 1000, TimerTriggered Primary true);
    (example_env until_lsn 5 1000,
     SyncSequencerRequestResponse Primary E_OK 51 (example_attrs 5000));
    (example_env until_lsn 6 2000, TimerTriggered Primary true);
    (example_env until_lsn 6 2000,
     SyncSequencerRequestResponse Primary E_OK 51 (example_attrs 10000));
    (example_env until_lsn 7 3000, TimerTriggered Primary true);
    (example_env until_lsn 7 3000,
     SyncSequencerRequestResponse Primary E_OK 51 (example_attrs 15000)) ].

(** A stream whose reader sits at position 60, past the last released
    position 50. *)
Definition example_env_at_tail (now : TimePoint) : Env :=
  example_env LSN_MAX 60 now.

(** The shadow tracer's tail query times out at time 0, and its timer fires
    a minute later. *)
Definition example_failing_tail_query : list (Env * Event) :=
  [ (example_env_at_tail 0,
     SyncSequencerRequestResponse Shadow E_TIMEDOUT LSN_INVALID None);
    (example_env_at_tail 60000, TimerTriggered Shadow true) ].

(** The same stream under other settings of the lag metric. *)
Definition example_env_with (num_groups group_size : Z) (now : TimePoint)
  : Env :=
  {| settings :=
       {| client_readers_flow_tracer_period := 1000;
          client_readers_flow_tracer_lagging_metric_num_sample_groups :=
            num_groups;
          client_readers_flow_tracer_lagging_metric_sample_group_size :=
            group_size;
          client_readers_flow_tracer_lagging_slope_threshold := one_tenth;
          client_readers_flow_max_acceptable_time_lag_per_tag := [];
          client_readers_flow_tracer_unhealthy_publish_weight := 5 # 1;
          reader_stuck_threshold := 60000;
          client_readers_flow_tracer_GSS_skip_remote_preemption_checks :=
            false |};
     owner_ := example_owner LSN_MAX 5;
     now := now;
     steady_now := now;
     overloadDetector := Some false |}.

(** One sample is taken with eight groups configured, then the settings
    change to two groups and a second sample is taken. *)
Definition example_shrinking_settings : list (Env * Event) :=
  [ (example_env_with 8 1 1000,
     SyncSequencerRequestResponse Primary E_OK 51 (example_attrs 5000));
    (example_env_with 2 1 1500, SettingsUpdated);
    (example_env_with 2 1 2000,
     SyncSequencerRequestResponse Primary E_OK 51 (example_attrs 5000)) ].

(** The primary tracer after the first two ticks of the growing-lag history
    on a stream with a moving tail, and what it observes at the third
    completion. *)
Definition example_after_two_ticks : Fields :=
  self (fst (run (firstn 5 (example_growing_lag LSN_MAX))
               (fst (construct (example_env LSN_MAX 5 0) true false
                       example_defaults)))).

Definition example_third_completion : Env := example_env LSN_MAX 7 3000.

(** The same tracer once the third completion has latched a tail record
    that is fifteen seconds younger than the reader's last record. *)
Definition example_third_sample : Fields :=
  set_latest_tail_info_ (Some (mkTailInfo 0 16000 50))
    example_after_two_ticks.

(** A reader that stays at position 5 below a tail at 50: a successful tail
    query at time 0, and the timer firing at time [now]. *)
Definition example_stuck_by_position (now : TimePoint) : list (Env * Event) :=
  [ (example_env LSN_MAX 5 0,
     SyncSequencerRequestResponse Primary E_OK 51 (example_attrs 0));
    (example_env LSN_MAX 5 now, TimerTriggered Primary true) ].

(** The same stream under other settings of the tracer period and of the
    slope test. *)
Definition example_env_slope (period : Z) (slope_threshold : float)
  (num_groups group_size : Z) (now : TimePoint) : Env :=
  {| settings :=
       {| client_readers_flow_tracer_period := period;
          client_readers_flow_tracer_lagging_metric_num_sample_groups :=
            num_groups;
          client_readers_flow_tracer_lagging_metric_sample_group_size :=
            group_size;
          client_readers_flow_tracer_lagging_slope_threshold :=
            slope_threshold;
          client_readers_flow_max_acceptable_time_lag_per_tag := [];
          client_readers_flow_tracer_unhealthy_publish_weight := 5 # 1;
          reader_stuck_threshold := 60000;
          client_readers_flow_tracer_GSS_skip_remote_preemption_checks :=
            false |};
     owner_ := example_owner LSN_MAX 5;
     now := now;
     steady_now := now;
     overloadDetector := Some false |}.

(** Four ticks, one second apart, each answered at once, with two groups
    of two samples and a slope threshold of 1/2: the lag is 5 s, 5.2 s,
    5.5 s and then 6.2 s.  The first and the third sample open a bucket; the
    fourth is the second of its group. *)
Definition example_second_of_group (now : TimePoint) : Env :=
  example_env_slope 1000 0.5 2 2 now.

Definition example_mid_group : list (Env * Event) :=
  [ (example_second_of_group 1000, TimerTriggered Primary true);
    (example_second_of_group 1000,
     SyncSequencerRequestResponse Primary E_OK 51 (example_attrs 5000));
    (example_second_of_group 2000, TimerTriggered Primary true);
    (example_second_of_group 2000,
     SyncSequencerRequestResponse Primary E_OK 51 (example_attrs 5200));
    (example_second_of_group 3000, TimerTriggered Primary true);
    (example_second_of_group 3000,
     SyncSequencerRequestResponse Primary E_OK 51 (example_attrs 5500));
    (example_second_of_group 4000, TimerTriggered Primary true);
    (example_second_of_group 4000,
     SyncSequencerRequestResponse Primary E_OK 51 (example_attrs 6200)) ].

(** The tracer when the fourth tail query completes, and after it did. *)
Definition example_before_fourth_sample : Fields :=
  self (fst (run (firstn 7 example_mid_group)
               (fst (construct (example_second_of_group 0) true false
                       example_defaults)))).

Definition example_after_fourth_sample : Fields :=
  self (fst (run example_mid_group
               (fst (construct (example_second_of_group 0) true false
                       example_defaults)))).

(** The double nearest to 0.7; its exact value is a little below 7/10. *)
Definition seven_tenths : float := 0x1.6666666666666p-1.

(** Two ticks, 10 ms apart, each answered at once, with two groups of one
    sample and a slope threshold of [seven_tenths]: the lag is 13 ms and
    then 20 ms. *)
Definition example_on_the_slope (now : TimePoint) : Env :=
  example_env_slope 10 seven_tenths 2 1 now.

Definition example_rounding : list (Env * Event) :=
  [ (example_on_the_slope 10, TimerTriggered Primary true);
    (example_on_the_slope 10,
     SyncSequencerRequestResponse Primary E_OK 51 (example_attrs 13));
    (example_on_the_slope 20, TimerTriggered Primary true);
    (example_on_the_slope 20,
     SyncSequencerRequestResponse Primary E_OK 51 (example_attrs 20)) ].

(** One sample is taken with two groups configured, then the settings
    change to eight groups and a second sample is taken. *)
Definition example_growing_settings : list (Env * Event) :=
  [ (example_env_with 2 1 1000, TimerTriggered Primary true);
    (example_env_with 2 1 1000,
     SyncSequencerRequestResponse Primary E_OK 51 (example_attrs 5000));
    (example_env_with 8 1 1500, SettingsUpdated);
    (example_env_with 8 1 2000, TimerTriggered Primary true);
    (example_env_with 8 1 2000,
     SyncSequencerRequestResponse Primary E_OK 51 (example_attrs 5000)) ].

(** ** Further definitions used to state properties of the remaining code *)

(** [lastReportedStatePretty()]. *)
Definition lastReportedStatePretty (t : Fields) : string :=
  match last_reported_state_ t with
  | HEALTHY => "healthy"
  | STUCK | STUCK_WHILE_FAILING_SYNC_SEQ_REQ => "stuck"
  | LAGGING => "lagging"
  end.

(** The same surroundings with another overload detector. *)
Definition with_overloadDetector (d : option bool) (e : Env) : Env :=
  mkEnv (settings e) (owner_ e) (now e) (steady_now e) d.

(** The value [updateShouldTrack] assigns to [should_track_]. *)
Definition tracking_gate (e : Env) (ignore_overload : bool) : bool :=
  negb (match overloadDetector e with
        | Some o => negb ignore_overload && o
        | None => false
        end)
  && negb (redelivery_timer_active (owner_ e))
  && negb (window_update_pending_ (owner_ e)).

(** The lags and the corrections held by the lag record, oldest first. *)
Definition time_lags (t : Fields) : list Z :=
  map time_lag (items (time_lag_record_ t)).

Definition corrections (t : Fields) : list Z :=
  map time_lag_correction (items (time_lag_record_ t)).

Definition total_correction (t : Fields) : Z :=
  fold_right Z.add 0 (corrections t).

(** A step that keeps the value of [f]. *)
Definition keeps {A : Type} (f : Fields -> A) : Rel :=
  fun t _ t' => f t' = f t.

(** What the stuck side of the health state is computed from. *)
Definition stuck_inputs (t : Fields)
  : TimePoint * bool * lsn_t * Status * option TailInfo :=
  (last_time_stuck_ t, should_track_ t, last_next_lsn_to_deliver_ t,
   last_sync_seq_request_result_ t, latest_tail_info_ t).

(** The reader delivered something since the tracer last looked. *)
Definition advanced (e : Env) (t : Fields) : bool :=
  negb (last_next_lsn_to_deliver_ t =? next_lsn_to_deliver_ (owner_ e)).

(** The local [is_stuck] of [updateTimeStuck]. *)
Definition is_stuck (e : Env) (tail_lsn : lsn_t) (st : Status) (t : Fields)
  : bool :=
  should_track_ t
  && (negb (Status_eqb st E_OK)
      || (next_lsn_to_deliver_ (owner_ e)
          <=? Z.min tail_lsn (until_lsn_ (owner_ e)))).

(** The reported state is one of the two stuck states. *)
Definition reports_stuck (t : Fields) : Prop :=
  last_reported_state_ t = STUCK
  \/ last_reported_state_ t = STUCK_WHILE_FAILING_SYNC_SEQ_REQ.

(** The reported state is the one [maybeBumpStats()] computes from the other
    fields and what [e] shows. *)
Definition up_to_date (e : Env) (t : Fields) : Prop :=
  last_reported_state_ t = state_to_report e false t.

(** The tail position a completion passes to [updateTimeStuck], and the
    tail info it latches. *)
Definition tail_lsn_approx (next_lsn : lsn_t) (a : LogTailAttributes)
  : lsn_t :=
  if negb (last_released_real_lsn a =? LSN_INVALID)
  then last_released_real_lsn a
  else wrap64 (next_lsn - 1).

(** The same stream with the window-update flag and the timestamp of the
    last delivered record chosen. *)
Definition example_env_gate (window_update_pending : bool)
  (last_in_record_ts : Z) (now : TimePoint) : Env :=
  {| settings := example_settings;
     owner_ :=
       {| next_lsn_to_deliver_ := 7;
          until_lsn_ := LSN_MAX;
          last_released_ := 50;
          last_in_record_ts_ := last_in_record_ts;
          accumulated_offsets_ := 0;
          num_bytes_delivered_ := 0;
          num_records_delivered_ := 0;
          monitoring_tags_ := ["tag"%string];
          redelivery_timer_active := false;
          window_update_pending_ := window_update_pending;
          waitingForNodeStr := "N1"%string |};
     now := now;
     steady_now := now;
     overloadDetector := Some false |}.

(** The value [updateTimeStuck] leaves in [last_time_stuck_]. *)
Definition stuck_since (e : Env) (tail_lsn : lsn_t) (st : Status) (t : Fields)
  : TimePoint :=
  if negb (is_stuck e tail_lsn st t) then TimePoint_max
  else if advanced e t || (last_time_stuck_ t =? TimePoint_max) then now e
       else last_time_stuck_ t.


(** What the reported state is computed from, besides what [Env] shows. *)
Definition health_inputs (t : Fields)
  : TimePoint * TimePoint * Status * option TailInfo :=
  (last_time_stuck_ t, last_time_lagging_ t,
   last_sync_seq_request_result_ t, latest_tail_info_ t).

(** The effects that schedule work: posting the tail query and arming or
    cancelling the timer. *)
Definition is_scheduling (x : Effect) : bool :=
  match x with
  | postRequest _ _ | timer_activate _ | timer_cancel => true
  | _ => false
  end.

(** A step that schedules nothing and keeps [params_]. *)
Definition unscheduled : Rel := fun t o t' =>
  filter is_scheduling o = [] /\ params_ t' = params_ t.

(** ** Histories *)

(** The method an event runs on the tracer, or tracers, it reaches. *)
Definition method_of (e : Env) (ev : Event) : M :=
  match ev with
  | SettingsUpdated => onSettingsUpdated e
  | TimerTriggered _ post_ok => onTimerTriggered e post_ok
  | SyncSequencerRequestResponse _ st next_lsn attrs =>
      onSyncSequencerRequestResponse e st next_lsn attrs
  | RedeliveryTimerInactive | RedeliveryTimerActive
  | WindowUpdatePending | WindowUpdateSent => updateShouldTrack e
  end.

(** The two flags a tracer is built with. *)
Definition flags (t : Fields) : bool * bool :=
  (push_samples (params_ t), ignore_overload (params_ t)).

Definition has_shadow (t : ClientReadersFlowTracer) : bool :=
  match tracer_ignoring_overload_ t with Some _ => true | None => false end.

(** The counters of the variant that ignores overload. *)
Definition ignoring_overload_counter (c : Counter) : bool :=
  match c with
  | read_streams_stuck_or_lagging_ignoring_overload
  | read_streams_stuck_ignoring_overload
  | read_streams_lagging_ignoring_overload => true
  | _ => false
  end.

(** A statistics effect of a tracer whose overload flag is [io]: untagged
    and to a counter that ignores overload if the flag is set, tagged and
    to one of the other counters if it is not. *)
Definition of_variant (io : bool) (x : Effect) : Prop :=
  match x with
  | WORKER_STAT_ADD name _ =>
      io = true /\ ignoring_overload_counter name = true
  | TAGGED_STAT_ADD _ name _ =>
      io = false /\ ignoring_overload_counter name = false
  | _ => True
  end.

(** The lag record holds no more buckets than its capacity, which is at
    most [n]. *)
Definition within_capacity (n : Z) (t : Fields) : Prop :=
  Z.of_nat (List.length (items (time_lag_record_ t)))
  <= capacity (time_lag_record_ t) <= n.

(** The number of sample groups the settings of [e] ask for. *)
Definition num_sample_groups (e : Env) : Z :=
  client_readers_flow_tracer_lagging_metric_num_sample_groups (settings e).

(** A lag record with four buckets, two of them expired. *)
Definition example_record : circular_buffer :=
  mkBuffer 4
    [mkBucket 100 0 0; mkBucket 200 0 0; mkBucket 300 (-50) 1;
     mkBucket 400 0 3].

(** A bucket that has not expired. *)
Definition alive (s : TimeLagBucket) : bool := negb (ttl s =? 0).

(** A tracer that never latched a tail: no tail info, an empty lag record,
    the lagging timer unset and a reported state other than LAGGING. *)
Definition without_tail_info (t : Fields) : Prop :=
  latest_tail_info_ t = None
  /\ items (time_lag_record_ t) = []
  /\ last_time_lagging_ t = TimePoint_max
  /\ last_reported_state_ t <> LAGGING.

(** An effect that shows no lag: it does not report LAGGING, is no value of
    the time-lag histogram, and as a sample has neither lag estimate. *)
Definition shows_no_lag (x : Effect) : Prop :=
  quiet_about_lagging x
  /\ match x with
     | TAGGED_HISTOGRAM_ADD name _ _ => name = hist_time_stuck
     | publish sample _ =>
         smp_timestamp_lagged sample = None
         /\ smp_bytes_lagged sample = None
     | _ => True
     end.

(** An event that latches no tail info: anything but a completion that is
    both successful and carries tail attributes. *)
Definition latches_nothing (ev : Event) : Prop :=
  match ev with
  | SyncSequencerRequestResponse _ st _ attrs => st <> E_OK \/ attrs = None
  | _ => True
  end.

(** The three counters that count stuck readers only. *)
Definition stuck_counter (c : Counter) : bool :=
  match c with
  | read_streams_stuck_ignoring_overload
  | read_streams_stuck_failing_sync_seq_req
  | read_streams_stuck => true
  | _ => false
  end.

(** An effect that shows no stuck reader: no delta to a counter of stuck
    readers, and no sample in a stuck state or naming a node waited for. *)
Definition shows_not_stuck (x : Effect) : Prop :=
  match x with
  | WORKER_STAT_ADD name _ | TAGGED_STAT_ADD _ name _ =>
      stuck_counter name = false
  | publish sample _ =>
      smp_state sample <> toString STUCK
      /\ smp_state sample <> toString STUCK_WHILE_FAILING_SYNC_SEQ_REQ
      /\ smp_waiting_for_node sample = EmptyString
  | _ => True
  end.

(** The stuck timer, if set, was set at [t0] or later, and the reported
    state is not a stuck one. *)
Definition stuck_timer_since (t0 : TimePoint) (t : Fields) : Prop :=
  (last_time_stuck_ t = TimePoint_max \/ t0 <= last_time_stuck_ t)
  /\ ~ reports_stuck t.

(** The clock of [e] reads between [t0] and the stuck threshold after it. *)
Definition within_threshold_of (t0 : TimePoint) (e : Env) : Prop :=
  t0 <= now e < t0 + reader_stuck_threshold (settings e).

(** The four callbacks of the owning read stream. *)
Definition is_owner_callback (ev : Event) : bool :=
  match ev with
  | RedeliveryTimerInactive | RedeliveryTimerActive
  | WindowUpdatePending | WindowUpdateSent => true
  | _ => false
  end.

(** ** The life of a nodes-configuration publisher *)

Module PublisherHistory.
Import NodesConfigurationPublisher.

(** What the publisher shares with the rest of the process: the settings
    behind [settings_] and the configuration behind [config_]. *)
Record World : Type := mkWorld {
  settings_ : Settings;
  config_ : UpdateableConfig
}.

(** The three things the constructor subscribes to.  Modelled from the spec:
    [subscribeToUpdates] is not in the source tree; the spec says that each
    notification of a change of the settings, of the server config or of the
    manager's configuration re-evaluates which source is authoritative. *)
Inductive Notification : Type :=
| settings_updated (s : Settings)
| server_config_updated (nc : NodesConfigurationPtr)
| ncm_nodes_configuration_updated (nc : NodesConfigurationPtr).

(** The change a notification reports. *)
Definition changed (n : Notification) (w : World) : World :=
  match n with
  | settings_updated s => mkWorld s (config_ w)
  | server_config_updated nc =>
      mkWorld (settings_ w)
        (mkConfig (getNodesConfigurationFromNCMSource (config_ w)) nc
           (getNodesConfiguration (config_ w)))
  | ncm_nodes_configuration_updated nc =>
      mkWorld (settings_ w)
        (mkConfig nc (getNodesConfigurationFromServerConfigSource (config_ w))
           (getNodesConfiguration (config_ w)))
  end.

(** [publish()] on the shared configuration. *)
Definition publish_in (rv : Z) (w : World) : World * list Effect :=
  let (c, o) := publish (settings_ w) rv (config_ w) in
  (mkWorld (settings_ w) c, o).

(** The constructor: the subscriptions are made if [subscribe] is set, and
    the initial publishing is done either way.  The publisher is the flag
    that says whether it is subscribed. *)
Definition construct (subscribe : bool) (rv : Z) (w : World)
  : bool * (World * list Effect) :=
  (subscribe, publish_in rv w).

(** A change, followed by the callback of the subscription if there is
    one. *)
Definition notify (subscribed : bool) (n : Notification) (rv : Z) (w : World)
  : World * list Effect :=
  if subscribed then publish_in rv (changed n w) else (changed n w, []).

(** A history of changes, each with the answer [update] would give. *)
Fixpoint run (subscribed : bool) (ns : list (Notification * Z)) (w : World)
  : World * list Effect :=
  match ns with
  | [] => (w, [])
  | (n, rv) :: rest =>
      let (w1, o1) := notify subscribed n rv w in
      let (w2, o2) := run subscribed rest w1 in
      (w2, o1 ++ o2)
  end.

(** The world and the effects after construction and a history. *)
Definition life (subscribe : bool) (rv : Z) (ns : list (Notification * Z))
  (w : World) : World * list Effect :=
  let '(subscribed, (w0, o0)) := construct subscribe rv w in
  let (w1, o1) := run subscribed ns w0 in
  (w1, o0 ++ o1).

(** The settings and the two sources, which the publisher only reads. *)
Definition inputs (w : World)
  : Settings * NodesConfigurationPtr * NodesConfigurationPtr :=
  (settings_ w, getNodesConfigurationFromNCMSource (config_ w),
   getNodesConfigurationFromServerConfigSource (config_ w)).

(** The view the settings of [w] select. *)
Definition selected (w : World) : NodesConfigurationPtr :=
  nodes_configuration_to_publish (settings_ w) (config_ w).

Definition published (w : World) : NodesConfigurationPtr :=
  getNodesConfiguration (config_ w).

(** The changes alone, without any publisher. *)
Definition changes (ns : list (Notification * Z)) (w : World) : World :=
  fold_left (fun w n => changed (fst n) w) ns w.

(** The answer [update] gave to the last publishing. *)
Definition last_answer (rv : Z) (ns : list (Notification * Z)) : Z :=
  last (map snd ns) rv.

Definition is_update_called (x : Effect) : bool :=
  match x with update_called _ => true | _ => false end.

(** A world that publishes the server-config view 22, and a history that
    switches the settings to the manager's view 11 and then replaces that
    view by 12. *)
Definition example_world : World :=
  mkWorld (mkSettings false false) (mkConfig 11 22 22).

Definition example_notifications : list (Notification * Z) :=
  [ (settings_updated (mkSettings true true), 0);
    (ncm_nodes_configuration_updated 12, 0) ].

End PublisherHistory.

(** A tracer whose latched tail is at byte offset [2^63 - 1], and a stream
    whose accumulated byte offset is the counter [2^64 - 2], which reads as
    -2. *)
Definition example_far_tail : Fields :=
  set_latest_tail_info_ (Some (mkTailInfo (2 ^ 63 - 1) 16000 50))
    example_after_two_ticks.

Definition example_env_offsets (accumulated_offsets : Z) : Env :=
  {| settings := example_settings;
     owner_ :=
       {| next_lsn_to_deliver_ := 7;
          until_lsn_ := LSN_MAX;
          last_released_ := 50;
          last_in_record_ts_ := 1000;
          accumulated_offsets_ := accumulated_offsets;
          num_bytes_delivered_ := 0;
          num_records_delivered_ := 0;
          monitoring_tags_ := ["tag"%string];
          redelivery_timer_active := false;
          window_update_pending_ := false;
          waitingForNodeStr := "N1"%string |};
     now := 3000;
     steady_now := 3000;
     overloadDetector := Some false |}.

(** ** A pause in tracking *)

(** The events of a history that reach one tracer, run on its fields one
    after the other. *)
Fixpoint run_methods (evs : list (Env * Event)) : M :=
  match evs with
  | [] => skip
  | (e, ev) :: rest => (method_of e ev ;; run_methods rest)%method
  end.

(** Add [d] to the last number of a list. *)
Fixpoint bump_last (d : Z) (l : list Z) : list Z :=
  match l with
  | [] => []
  | [x] => [x + d]
  | x :: r => x :: bump_last d r
  end.

(** What a pause is about: whether the tracer is tracked, its overload
    flag, the lag record and the sample counter. *)
Definition pause_inputs (t : Fields) : bool * bool * circular_buffer * Z :=
  (should_track_ t, ignore_overload (params_ t), time_lag_record_ t,
   sample_counter_ t).

(** A tracer in a pause that started in state [t1]: it is not tracked, has
    the overload flag, the capacity and the sample counter of [t1], and its
    lag record holds the lags and corrections of [t1] but for some buckets
    dropped from the front. *)
Definition paused (t1 t : Fields) : Prop :=
  should_track_ t = false
  /\ ignore_overload (params_ t) = ignore_overload (params_ t1)
  /\ capacity (time_lag_record_ t) = capacity (time_lag_record_ t1)
  /\ sample_counter_ t = sample_counter_ t1
  /\ exists n,
       time_lags t = skipn n (time_lags t1)
       /\ corrections t = skipn n (corrections t1).

(** While a window update is pending the tracer of the growing-lag history
    sees a tail query time out. *)
Definition example_pause : list (Env * Event) :=
  [ (example_env_gate true 1000 4500,
     SyncSequencerRequestResponse Primary E_TIMEDOUT LSN_INVALID None) ].
(** * Properties *)

(** ** Small facts used throughout *)

Lemma State_eqb_eq (a b : State) : State_eqb a b = true <-> a = b.
Proof. destruct a, b; simpl; split; congruence. Qed.

Lemma State_eqb_refl (a : State) : State_eqb a a = true.
Proof. now destruct a. Qed.

Lemma Status_eqb_eq (a b : Status) : Status_eqb a b = true <-> a = b.
Proof. destruct a, b; simpl; split; congruence. Qed.

Lemma Counter_eqb_eq (a b : Counter) : Counter_eqb a b = true <-> a = b.
Proof. destruct a, b; simpl; split; congruence. Qed.

Lemma andThen_run (a b : M) (t : Fields) :
  andThen a b t =
  (fst (b (fst (a t))), snd (a t) ++ snd (b (fst (a t)))).
Proof.
  unfold andThen. destruct (a t) as [t1 o1]. simpl.
  now destruct (b t1).
Qed.

(** ** Stuck classification *)

Lemma maybeBumpStats_reports (e : Env) (force_healthy : bool) (t : Fields) :
  last_reported_state_ (fst (maybeBumpStats e force_healthy t))
  = state_to_report e force_healthy t.
Proof.
  unfold maybeBumpStats.
  destruct (State_eqb (state_to_report e force_healthy t)
              (last_reported_state_ t)) eqn:E; simpl.
  - symmetry. now apply State_eqb_eq.
  - reflexivity.
Qed.

(** C2.  After a tick's [maybeBumpStats()], the reported state is STUCK or
    STUCK_WHILE_FAILING_SYNC_SEQ_REQ exactly when [last_time_stuck_] is set
    and [now - last_time_stuck_ >= reader_stuck_threshold]; when that holds,
    it is STUCK_WHILE_FAILING_SYNC_SEQ_REQ iff the last tail query did not
    return [E::OK] and [next_lsn_to_deliver_ >= estimateTailLSN()], and STUCK
    otherwise; and [estimateTailLSN()] is the maximum of the owner's
    [last_released_] and the latched tail position, if there is one. *)
Theorem stuck_classification (e : Env) (t : Fields) :
  let reported := last_reported_state_ (fst (maybeBumpStats e false t)) in
  let dwelled :=
    last_time_stuck_ t <> TimePoint_max
    /\ now e - last_time_stuck_ t >= reader_stuck_threshold (settings e) in
  let failing_at_tail :=
    last_sync_seq_request_result_ t <> E_OK
    /\ next_lsn_to_deliver_ (owner_ e) >= estimateTailLSN e t in
  estimateTailLSN e t
  = match latest_tail_info_ t with
    | Some info => Z.max (last_released_ (owner_ e)) (lsn_approx info)
    | None => last_released_ (owner_ e)
    end
  /\ ((reported = STUCK \/ reported = STUCK_WHILE_FAILING_SYNC_SEQ_REQ)
      <-> dwelled)
  /\ (dwelled ->
      (reported = STUCK_WHILE_FAILING_SYNC_SEQ_REQ <-> failing_at_tail)
      /\ (reported = STUCK <-> ~ failing_at_tail)).
Proof.
  cbv zeta. rewrite maybeBumpStats_reports.
  split.
  { unfold estimateTailLSN. destruct (latest_tail_info_ t); [lia | reflexivity]. }
  assert (Hfail :
            negb (Status_eqb (last_sync_seq_request_result_ t) E_OK)
            && (estimateTailLSN e t <=? next_lsn_to_deliver_ (owner_ e)) = true
            <-> (last_sync_seq_request_result_ t <> E_OK
                 /\ next_lsn_to_deliver_ (owner_ e) >= estimateTailLSN e t)).
  { rewrite andb_true_iff, negb_true_iff, Z.leb_le.
    split; intros [H1 H2]; split; try lia.
    - intro H. apply Status_eqb_eq in H. congruence.
    - destruct (Status_eqb _ _) eqn:E; [|reflexivity].
      apply Status_eqb_eq in E. contradiction. }
  unfold state_to_report.
  set (lagging :=
         negb (last_time_lagging_ t =? TimePoint_max)
         && (until_lsn_ (owner_ e) =? LSN_MAX)).
  set (failing :=
         negb (Status_eqb (last_sync_seq_request_result_ t) E_OK)
         && (estimateTailLSN e t <=? next_lsn_to_deliver_ (owner_ e))) in *.
  destruct (last_time_stuck_ t =? TimePoint_max) eqn:Hset;
    cbn [negb].
  - apply Z.eqb_eq in Hset. split.
    + split.
      * destruct lagging; intros [H | H]; discriminate.
      * intros [H _]. contradiction.
    + intros [H _]. contradiction.
  - apply Z.eqb_neq in Hset.
    destruct (last_time_stuck_ t + reader_stuck_threshold (settings e)
              <=? now e) eqn:Hdwell.
    + apply Z.leb_le in Hdwell.
      destruct failing eqn:Hf.
      * assert (Hf' := proj1 Hfail eq_refl).
        intuition (try discriminate; try lia).
      * assert (Hf' : ~ (last_sync_seq_request_result_ t <> E_OK
                         /\ next_lsn_to_deliver_ (owner_ e)
                            >= estimateTailLSN e t)).
        { intro H. apply Hfail in H. discriminate. }
        intuition (try discriminate; try lia).
    + apply Z.leb_gt in Hdwell. split.
      * split.
        -- destruct lagging; intros [H | H]; discriminate.
        -- intros [_ H]. lia.
      * intros [_ H]. lia.
Qed.

(** A reader that does not move below the tail is still HEALTHY one
    millisecond before the stuck threshold and STUCK when it is reached. *)
Example stuck_by_position :
  let state_at now :=
    last_reported_state_
      (self (fst (run (example_stuck_by_position now)
                    (fst (construct (example_env LSN_MAX 5 0) true false
                            example_defaults))))) in
  state_at 59999 = HEALTHY /\ state_at 60000 = STUCK.
Proof. split; reflexivity. Qed.

(** ** Reasoning about methods

    A relation between the fields before a method, the effects it performs
    and the fields after it is [compositional] when it holds of doing nothing
    and is closed under running one method after another.  Every invariant
    below is such a relation, shown of the leaves (setters, effects,
    [maybeBumpStats]) and carried through the methods by [sat_andThen]. *)

Section Sat.
Variable R : Rel.
Hypothesis HR : compositional R.

Lemma sat_skip : sat R skip.
Proof. intro t. apply (comp_nil R HR). Qed.

Lemma sat_andThen (a b : M) : sat R a -> sat R b -> sat R (andThen a b).
Proof.
  intros Ha Hb t. rewrite andThen_run. simpl.
  eapply (comp_app R HR); [apply Ha | apply Hb].
Qed.

Lemma sat_modify (f : Fields -> Fields) :
  (forall t, R t [] (f t)) -> sat R (modify f).
Proof. intros H t. apply H. Qed.

Lemma sat_modify2 (f g : Fields -> Fields) :
  (forall t, R t [] (f t)) -> (forall t, R t [] (g t)) ->
  forall t, R t [] (g (f t)).
Proof.
  intros Hf Hg t. change (@nil Effect) with (@nil Effect ++ []).
  eapply (comp_app R HR); [apply Hf | apply Hg].
Qed.

End Sat.

Ltac sat_seq HR :=
  repeat first
    [ apply (sat_andThen _ HR)
    | apply (sat_skip _ HR) ].

(** ** Counter conservation *)

Lemma count_deltas_app (c : Counter) (v : Z) (a b : list Effect) :
  count_deltas c v (a ++ b) = (count_deltas c v a + count_deltas c v b)%nat.
Proof. unfold count_deltas. now rewrite filter_app, length_app. Qed.

Lemma net_delta_app (c : Counter) (a b : list Effect) :
  net_delta c (a ++ b) = net_delta c a + net_delta c b.
Proof.
  induction a as [|x a IH]; simpl; [reflexivity|].
  destruct (stat_delta x) as [[name v]|]; [|exact IH].
  destruct (Counter_eqb name c); lia.
Qed.

Lemma net_delta_units (c : Counter) (o : list Effect) :
  Forall unit_delta o ->
  net_delta c o
  = Z.of_nat (count_deltas c 1 o) - Z.of_nat (count_deltas c (-1) o).
Proof.
  induction 1 as [|x o Hx _ IH]; [reflexivity|].
  change (x :: o) with ([x] ++ o).
  rewrite net_delta_app, !count_deltas_app, IH.
  enough (net_delta c [x]
          = Z.of_nat (count_deltas c 1 [x])
            - Z.of_nat (count_deltas c (-1) [x])) by lia.
  unfold unit_delta in Hx. unfold net_delta, count_deltas. simpl.
  destruct (stat_delta x) as [[name v]|]; [|reflexivity].
  destruct (Counter_eqb name c); [|reflexivity].
  destruct Hx as [-> | ->]; reflexivity.
Qed.

Lemma updateCountersForState_plus (c : Counter) (s : State) (io : bool)
  (tags : list string) :
  count_deltas c 1 (updateCountersForState s io tags 1) = contribution c io s
  /\ count_deltas c (-1) (updateCountersForState s io tags 1) = 0%nat
  /\ Forall unit_delta (updateCountersForState s io tags 1).
Proof.
  destruct s, io, c; repeat split; try reflexivity;
    repeat (apply Forall_cons; [unfold unit_delta; simpl; auto|]);
    apply Forall_nil.
Qed.

Lemma updateCountersForState_minus (c : Counter) (s : State) (io : bool)
  (tags : list string) :
  count_deltas c (-1) (updateCountersForState s io tags (-1))
  = contribution c io s
  /\ count_deltas c 1 (updateCountersForState s io tags (-1)) = 0%nat
  /\ Forall unit_delta (updateCountersForState s io tags (-1)).
Proof.
  destruct s, io, c; repeat split; try reflexivity;
    repeat (apply Forall_cons; [unfold unit_delta; simpl; auto|]);
    apply Forall_nil.
Qed.

Lemma conserves_compositional (c : Counter) : compositional (conserves c).
Proof.
  split.
  - intro t. unfold conserves. simpl. auto.
  - intros t o1 t1 o2 t2 (Hio1 & Hu1 & Hc1) (Hio2 & Hu2 & Hc2).
    unfold conserves. rewrite !count_deltas_app.
    split; [congruence|]. split; [now apply Forall_app|]. lia.
Qed.

Lemma conserves_maybeBumpStats (c : Counter) (e : Env) (force : bool) :
  sat (conserves c) (maybeBumpStats e force).
Proof.
  intro t. unfold maybeBumpStats.
  destruct (State_eqb (state_to_report e force t) (last_reported_state_ t));
    simpl.
  - apply (comp_nil _ (conserves_compositional c)).
  - unfold conserves, contribution_of. simpl.
    destruct (updateCountersForState_plus c (state_to_report e force t)
                (ignore_overload (params_ t)) (monitoring_tags_ (owner_ e)))
      as (P1 & P2 & P3).
    destruct (updateCountersForState_minus c (last_reported_state_ t)
                (ignore_overload (params_ t)) (monitoring_tags_ (owner_ e)))
      as (M1 & M2 & M3).
    rewrite !count_deltas_app, P1, P2, M1, M2.
    split; [reflexivity|]. split; [now apply Forall_app|]. lia.
Qed.

(** ** Carrying a relation through the methods *)

Section Carry.
Variable R : Rel.
Hypothesis HR : compositional R.
Variable e : Env.

(** What has to be known of the leaves of [updateTimeStuck] and
    [updateTimeLagging]. *)
Hypothesis R_maybeBumpStats : forall force, sat R (maybeBumpStats e force).
Hypothesis R_last_next_lsn_to_deliver :
  forall v t, R t [] (set_last_next_lsn_to_deliver_ v t).
Hypothesis R_last_time_stuck : forall v t, R t [] (set_last_time_stuck_ v t).
Hypothesis R_last_time_lagging :
  forall v t, R t [] (set_last_time_lagging_ v t).
Hypothesis R_aged :
  forall t, R t [] (set_time_lag_record_ (aged (time_lag_record_ t)) t).
Hypothesis R_record_sample : forall cur, sat R (record_sample e cur).

Lemma carry_updateTimeStuck (tail_lsn : lsn_t) (st : Status) :
  sat R (updateTimeStuck e tail_lsn st).
Proof.
  unfold updateTimeStuck.
  apply (sat_andThen _ HR); [|apply (sat_andThen _ HR)].
  - intro t. cbv beta.
    destruct (negb (last_next_lsn_to_deliver_ t
                    =? next_lsn_to_deliver_ (owner_ e))).
    + revert t. apply (sat_andThen _ HR); [|apply (sat_andThen _ HR)].
      * apply sat_modify. apply R_last_next_lsn_to_deliver.
      * apply sat_modify. apply R_last_time_stuck.
      * apply R_maybeBumpStats.
    + apply (sat_skip _ HR).
  - intro t. cbv beta zeta.
    destruct (negb _).
    + apply R_last_time_stuck.
    + destruct (last_time_stuck_ t =? TimePoint_max).
      * apply R_last_time_stuck.
      * apply (sat_skip _ HR).
  - apply R_maybeBumpStats.
Qed.

Lemma carry_updateTimeLagging (st : Status) : sat R (updateTimeLagging e st).
Proof.
  intro t. unfold updateTimeLagging.
  destruct (cur_ts_lag e st t) as [cur|].
  2:{ apply (comp_nil _ HR). }
  revert t. apply (sat_andThen _ HR).
  - apply sat_modify. apply R_aged.
  - intro t. cbv beta.
    destruct (negb (should_track_ t)).
    + revert t. apply (sat_andThen _ HR).
      * apply sat_modify. apply R_last_time_lagging.
      * apply R_maybeBumpStats.
    + revert t. apply (sat_andThen _ HR); [|apply (sat_andThen _ HR)].
      * apply R_record_sample.
      * intro t. cbv beta.
        destruct (is_catching_up e cur t).
        -- apply R_last_time_lagging.
        -- destruct (last_time_lagging_ t =? TimePoint_max).
           ++ apply R_last_time_lagging.
           ++ apply (sat_skip _ HR).
      * apply R_maybeBumpStats.
Qed.

(** The leaves of the entry points. *)
Hypothesis R_last_sync_seq_request_result :
  forall v t, R t [] (set_last_sync_seq_request_result_ v t).
Hypothesis R_latest_tail_info :
  forall v t, R t [] (set_latest_tail_info_ v t).
Hypothesis R_traceReaderFlow : forall b r, sat R (traceReaderFlow e b r).
Hypothesis R_bumpHistograms : sat R (bumpHistograms e).
Hypothesis R_updateShouldTrack : sat R (updateShouldTrack e).
Hypothesis R_postRequest :
  forall timeout skip_check t, R t [postRequest timeout skip_check] t.
Hypothesis R_timer_activate :
  forall delay t, R t [timer_activate delay] (set_timer_active_ true t).

Lemma carry_onSyncSequencerRequestResponse (st : Status) (next_lsn : lsn_t)
  (attrs : option LogTailAttributes) :
  sat R (onSyncSequencerRequestResponse e st next_lsn attrs).
Proof.
  unfold onSyncSequencerRequestResponse.
  apply (sat_andThen _ HR); [apply sat_modify, R_last_sync_seq_request_result|].
  apply (sat_andThen _ HR).
  { destruct attrs as [a|]; [destruct (Status_eqb st E_OK)|].
    - apply (sat_andThen _ HR).
      + apply sat_modify, R_latest_tail_info.
      + apply carry_updateTimeStuck.
    - apply carry_updateTimeStuck.
    - apply carry_updateTimeStuck. }
  apply (sat_andThen _ HR); [apply carry_updateTimeLagging|].
  apply (sat_andThen _ HR); [apply R_traceReaderFlow|].
  apply R_bumpHistograms.
Qed.

Lemma carry_sendSyncSequencerRequest (post_ok : bool) :
  sat R (sendSyncSequencerRequest e post_ok).
Proof.
  unfold sendSyncSequencerRequest.
  apply (sat_andThen _ HR).
  - intro t. apply R_postRequest.
  - destruct (negb post_ok).
    + apply carry_onSyncSequencerRequestResponse.
    + apply (sat_skip _ HR).
Qed.

Lemma carry_onTimerTriggered (post_ok : bool) :
  sat R (onTimerTriggered e post_ok).
Proof.
  unfold onTimerTriggered.
  apply (sat_andThen _ HR); [apply carry_sendSyncSequencerRequest|].
  apply (sat_andThen _ HR); [apply R_updateShouldTrack|].
  apply (sat_andThen _ HR); [apply R_maybeBumpStats|].
  intro t. apply R_timer_activate.
Qed.

End Carry.

(** ** Steps that do not report *)

Ltac plain_leaf :=
  unfold plain; simpl;
  repeat split;
  repeat (apply Forall_cons; [split; reflexivity|]); apply Forall_nil.

Lemma plain_record_sample (e : Env) (cur : Z) :
  sat plain (record_sample e cur).
Proof.
  intro t. unfold record_sample. cbv zeta.
  destruct (_ =? 0); [destruct (negb _)|]; plain_leaf.
Qed.

Lemma plain_bumpHistograms (e : Env) :
  sat plain (bumpHistograms e).
Proof.
  intro t. unfold bumpHistograms.
  destruct (estimateTimeLag e t); plain_leaf.
Qed.

Lemma plain_updateShouldTrack (e : Env) :
  sat plain (updateShouldTrack e).
Proof.
  intro t. unfold updateShouldTrack. cbv zeta.
  repeat match goal with
         | |- context [if ?c then _ else _] => destruct c
         | |- context [match estimateTimeLag ?e ?t with _ => _ end] =>
             destruct (estimateTimeLag e t)
         end; plain_leaf.
Qed.

Lemma plain_onSettingsUpdated (e : Env) :
  sat plain (onSettingsUpdated e).
Proof.
  intro t. unfold onSettingsUpdated. cbv zeta.
  repeat match goal with
         | |- context [if ?c then _ else _] => destruct c
         end; plain_leaf.
Qed.

Lemma plain_conserves (c : Counter) (t t' : Fields) (o : list Effect) :
  plain t o t' -> conserves c t o t'.
Proof.
  intros (_ & Hio & Hlast & _ & Hq). unfold conserves, contribution_of.
  rewrite Hio, Hlast. split; [reflexivity|].
  assert (Hz : forall v, count_deltas c v o = 0%nat).
  { intro v. unfold count_deltas.
    induction Hq as [|x o [Hx _] _ IH]; [reflexivity|].
    simpl. now rewrite Hx. }
  split.
  - eapply Forall_impl; [|exact Hq].
    intros x [Hx _]. unfold unit_delta. now rewrite Hx.
  - now rewrite !Hz.
Qed.

Lemma conserves_traceReaderFlow (c : Counter) (e : Env) (b r : Z) :
  sat (conserves c) (traceReaderFlow e b r).
Proof.
  intro t. unfold traceReaderFlow.
  destruct (negb (push_samples (params_ t))).
  - apply (comp_nil _ (conserves_compositional c)).
  - unfold conserves. simpl. repeat split.
    apply Forall_cons; [exact I | apply Forall_nil].
Qed.

(** ** Counter conservation, method by method *)

Ltac conserves_leaf :=
  first
    [ apply conserves_maybeBumpStats
    | apply conserves_traceReaderFlow
    | unfold sat; intros; apply plain_conserves;
      first
        [ apply plain_record_sample
        | apply plain_bumpHistograms
        | apply plain_updateShouldTrack
        | apply plain_onSettingsUpdated
        | plain_leaf ] ].

Lemma conserves_onSyncSequencerRequestResponse (c : Counter) (e : Env)
  (st : Status) (next_lsn : lsn_t) (attrs : option LogTailAttributes) :
  sat (conserves c) (onSyncSequencerRequestResponse e st next_lsn attrs).
Proof.
  apply carry_onSyncSequencerRequestResponse;
    [apply conserves_compositional | conserves_leaf ..].
Qed.

Lemma conserves_onTimerTriggered (c : Counter) (e : Env) (post_ok : bool) :
  sat (conserves c) (onTimerTriggered e post_ok).
Proof.
  apply carry_onTimerTriggered;
    [apply conserves_compositional | conserves_leaf ..].
Qed.

Lemma conserves_updateShouldTrack (c : Counter) (e : Env) :
  sat (conserves c) (updateShouldTrack e).
Proof. intro t. conserves_leaf. Qed.

Lemma conserves_onSettingsUpdated (c : Counter) (e : Env) :
  sat (conserves c) (onSettingsUpdated e).
Proof. intro t. conserves_leaf. Qed.

(** From one tracer to the pair. *)

Lemma conserves_pair_nil (c : Counter) (t : ClientReadersFlowTracer) :
  conserves_pair c t [] t.
Proof. split; [constructor | reflexivity]. Qed.

Lemma conserves_pair_app (c : Counter) t o1 t1 o2 t2 :
  conserves_pair c t o1 t1 -> conserves_pair c t1 o2 t2 ->
  conserves_pair c t (o1 ++ o2) t2.
Proof.
  intros [U1 C1] [U2 C2]. split; [now apply Forall_app|].
  rewrite !count_deltas_app. lia.
Qed.

Lemma conserves_on_self (c : Counter) (m : M) (t : ClientReadersFlowTracer) :
  sat (conserves c) m ->
  conserves_pair c t (snd (on_self m t)) (fst (on_self m t)).
Proof.
  intro Hm. unfold on_self. specialize (Hm (self t)).
  destruct (m (self t)) as [s o]. simpl in *.
  destruct Hm as (_ & Hu & Hc). split; [exact Hu|].
  unfold contribution_of_pair. simpl. lia.
Qed.

Lemma conserves_on_shadow (c : Counter) (m : M) (t : ClientReadersFlowTracer) :
  sat (conserves c) m ->
  conserves_pair c t (snd (on_shadow m t)) (fst (on_shadow m t)).
Proof.
  intro Hm. unfold on_shadow.
  destruct (tracer_ignoring_overload_ t) as [shadow|] eqn:Hs.
  - specialize (Hm shadow). destruct (m shadow) as [s o]. simpl in *.
    destruct Hm as (_ & Hu & Hc). split; [exact Hu|].
    unfold contribution_of_pair. rewrite Hs. simpl. lia.
  - apply conserves_pair_nil.
Qed.

Lemma forwarded_run (m : M) (t : ClientReadersFlowTracer) :
  forwarded m t
  = (fst (on_shadow m (fst (on_self m t))),
     snd (on_self m t) ++ snd (on_shadow m (fst (on_self m t)))).
Proof.
  unfold forwarded. destruct (on_self m t) as [t1 o1]. simpl.
  now destruct (on_shadow m t1).
Qed.

Lemma conserves_forwarded (c : Counter) (m : M)
  (t : ClientReadersFlowTracer) :
  sat (conserves c) m ->
  conserves_pair c t (snd (forwarded m t)) (fst (forwarded m t)).
Proof.
  intro Hm. rewrite forwarded_run. simpl.
  eapply conserves_pair_app;
    [now apply conserves_on_self | now apply conserves_on_shadow].
Qed.

Lemma conserves_on_target (c : Counter) (who : Target) (m : M)
  (t : ClientReadersFlowTracer) :
  sat (conserves c) m ->
  conserves_pair c t (snd (on_target who m t)) (fst (on_target who m t)).
Proof.
  destruct who; [apply conserves_on_self | apply conserves_on_shadow].
Qed.

Lemma conserves_step (c : Counter) (e : Env) (ev : Event)
  (t : ClientReadersFlowTracer) :
  conserves_pair c t (snd (step e ev t)) (fst (step e ev t)).
Proof.
  destruct ev; simpl.
  - apply conserves_forwarded, conserves_onSettingsUpdated.
  - apply conserves_on_target, conserves_onTimerTriggered.
  - apply conserves_on_target, conserves_onSyncSequencerRequestResponse.
  - apply conserves_forwarded, conserves_updateShouldTrack.
  - apply conserves_forwarded, conserves_updateShouldTrack.
  - apply conserves_forwarded, conserves_updateShouldTrack.
  - apply conserves_forwarded, conserves_updateShouldTrack.
Qed.

Lemma run_cons (e : Env) (ev : Event) (rest : list (Env * Event))
  (t : ClientReadersFlowTracer) :
  run ((e, ev) :: rest) t
  = (fst (run rest (fst (step e ev t))),
     snd (step e ev t) ++ snd (run rest (fst (step e ev t)))).
Proof.
  simpl. destruct (step e ev t) as [t1 o1]. simpl.
  now destruct (run rest t1).
Qed.

Lemma conserves_run (c : Counter) (evs : list (Env * Event))
  (t : ClientReadersFlowTracer) :
  conserves_pair c t (snd (run evs t)) (fst (run evs t)).
Proof.
  revert t. induction evs as [|[e ev] rest IH]; intro t.
  - apply conserves_pair_nil.
  - rewrite run_cons. simpl.
    eapply conserves_pair_app; [apply conserves_step | apply IH].
Qed.

Lemma contribution_HEALTHY (c : Counter) (io : bool) :
  contribution c io HEALTHY = 0%nat.
Proof. destruct c, io; reflexivity. Qed.

Lemma construct_run (e : Env) (push io : bool) (d : MemberDefaults) :
  construct e push io d
  = (mkTracer (fst (onSettingsUpdated e (initial_fields push io d)))
       (if negb io
        then Some (fst (onSettingsUpdated e (initial_fields false true d)))
        else None),
     snd (onSettingsUpdated e (initial_fields push io d))
     ++ (if negb io
         then snd (onSettingsUpdated e (initial_fields false true d))
         else [])).
Proof.
  unfold construct.
  destruct (onSettingsUpdated e (initial_fields push io d)) as [s o].
  destruct io; simpl.
  - now rewrite app_nil_r.
  - now destruct (onSettingsUpdated e (initial_fields false true d)).
Qed.

Lemma conserves_construct (c : Counter) (e : Env) (push io : bool)
  (d : MemberDefaults) :
  Forall unit_delta (snd (construct e push io d))
  /\ (count_deltas c 1 (snd (construct e push io d))
      = count_deltas c (-1) (snd (construct e push io d))
        + contribution_of_pair c (fst (construct e push io d)))%nat.
Proof.
  rewrite construct_run. simpl.
  pose proof (conserves_onSettingsUpdated c e (initial_fields push io d))
    as (_ & U1 & C1).
  pose proof (conserves_onSettingsUpdated c e (initial_fields false true d))
    as (_ & U2 & C2).
  unfold contribution_of in C1 at 1. unfold contribution_of in C2 at 1.
  simpl in C1, C2. rewrite contribution_HEALTHY in C1, C2.
  unfold contribution_of_pair. simpl.
  destruct io; simpl.
  - rewrite app_nil_r. split; [exact U1 | lia].
  - rewrite !count_deltas_app. split; [now apply Forall_app | lia].
Qed.

Lemma conserves_destroy (c : Counter) (e : Env)
  (t : ClientReadersFlowTracer) :
  Forall unit_delta (destroy e t)
  /\ (count_deltas c 1 (destroy e t) + contribution_of_pair c t
      = count_deltas c (-1) (destroy e t))%nat.
Proof.
  unfold destroy, contribution_of_pair.
  pose proof (conserves_maybeBumpStats c e true (self t)) as (I1 & U1 & C1).
  unfold contribution_of in C1 at 2.
  rewrite maybeBumpStats_reports in C1. simpl in C1.
  rewrite contribution_HEALTHY in C1.
  destruct (tracer_ignoring_overload_ t) as [shadow|].
  - pose proof (conserves_maybeBumpStats c e true shadow) as (I2 & U2 & C2).
    unfold contribution_of in C2 at 2.
    rewrite maybeBumpStats_reports in C2. simpl in C2.
    rewrite contribution_HEALTHY in C2.
    rewrite !count_deltas_app. split; [now apply Forall_app | lia].
  - rewrite app_nil_r. split; [exact U1 | lia].
Qed.

(** C1.  Over the whole life of a tracer (construction, any history of
    events, destruction), and for every counter: each delta it emits is +1 or
    -1, it emits as many -1 deltas as +1 deltas, and so its net contribution
    is zero once it is destroyed.  The history covers the tracer together
    with the shadow it owns. *)
Theorem counter_conservation (e0 : Env) (push_samples ignore_overload : bool)
  (d : MemberDefaults) (evs : list (Env * Event)) (e_end : Env)
  (c : Counter) :
  let o := lifetime e0 push_samples ignore_overload d evs e_end in
  Forall unit_delta o
  /\ count_deltas c (-1) o = count_deltas c 1 o
  /\ net_delta c o = 0.
Proof.
  cbv zeta. unfold lifetime.
  pose proof (conserves_construct c e0 push_samples ignore_overload d)
    as [U0 C0].
  destruct (construct e0 push_samples ignore_overload d) as [t0 o0].
  pose proof (conserves_run c evs t0) as [U1 C1].
  destruct (run evs t0) as [t1 o1].
  pose proof (conserves_destroy c e_end t1) as [U2 C2].
  cbn [fst snd] in *.
  assert (U : Forall unit_delta (o0 ++ o1 ++ destroy e_end t1)).
  { apply Forall_app; split; [assumption|].
    apply Forall_app; split; assumption. }
  assert (E : count_deltas c (-1) (o0 ++ o1 ++ destroy e_end t1)
              = count_deltas c 1 (o0 ++ o1 ++ destroy e_end t1)).
  { rewrite !count_deltas_app. lia. }
  split; [exact U|]. split; [exact E|].
  rewrite (net_delta_units c _ U), E. lia.
Qed.

(** ** Invariants: from the methods to every history *)

Lemma inv_rel_compositional (I : Fields -> Prop) (P : Effect -> Prop) :
  compositional (inv_rel I P).
Proof.
  split.
  - intros t Ht. split; [exact Ht | constructor].
  - intros t o1 t1 o2 t2 H1 H2 Ht.
    destruct (H1 Ht) as [Ht1 Ho1]. destruct (H2 Ht1) as [Ht2 Ho2].
    split; [exact Ht2 | now apply Forall_app].
Qed.

Section PairInvariant.
Variables I1 I2 : Fields -> Prop.
Variables P1 P2 : Effect -> Prop.

Lemma inv_on_self (m : M) (t : ClientReadersFlowTracer) :
  sat (inv_rel I1 P1) m -> inv_pair I1 I2 t ->
  inv_pair I1 I2 (fst (on_self m t))
  /\ Forall (fun x => P1 x \/ P2 x) (snd (on_self m t)).
Proof.
  intros Hm [Hs Hsh]. unfold on_self. specialize (Hm (self t) Hs).
  destruct (m (self t)) as [s o]. simpl in *. destruct Hm as [Hs' Ho].
  split; [split; assumption|].
  eapply Forall_impl; [|exact Ho]. auto.
Qed.

Lemma inv_on_shadow (m : M) (t : ClientReadersFlowTracer) :
  sat (inv_rel I2 P2) m -> inv_pair I1 I2 t ->
  inv_pair I1 I2 (fst (on_shadow m t))
  /\ Forall (fun x => P1 x \/ P2 x) (snd (on_shadow m t)).
Proof.
  intros Hm [Hs Hsh]. unfold on_shadow.
  destruct (tracer_ignoring_overload_ t) as [shadow|] eqn:E.
  - specialize (Hm shadow Hsh).
    destruct (m shadow) as [s o]. simpl in *. destruct Hm as [Hs' Ho].
    split; [split; assumption|].
    eapply Forall_impl; [|exact Ho]. auto.
  - simpl. split; [|constructor]. split; [exact Hs|]. now rewrite E.
Qed.

Lemma inv_forwarded (m : M) (t : ClientReadersFlowTracer) :
  sat (inv_rel I1 P1) m -> sat (inv_rel I2 P2) m -> inv_pair I1 I2 t ->
  inv_pair I1 I2 (fst (forwarded m t))
  /\ Forall (fun x => P1 x \/ P2 x) (snd (forwarded m t)).
Proof.
  intros H1 H2 Ht. rewrite forwarded_run. simpl.
  destruct (inv_on_self m t H1 Ht) as [Ht1 Ho1].
  destruct (inv_on_shadow m _ H2 Ht1) as [Ht2 Ho2].
  split; [exact Ht2 | now apply Forall_app].
Qed.

Lemma inv_on_target (who : Target) (m : M) (t : ClientReadersFlowTracer) :
  sat (inv_rel I1 P1) m -> sat (inv_rel I2 P2) m -> inv_pair I1 I2 t ->
  inv_pair I1 I2 (fst (on_target who m t))
  /\ Forall (fun x => P1 x \/ P2 x) (snd (on_target who m t)).
Proof.
  intros H1 H2 Ht. destruct who; [now apply inv_on_self | now apply inv_on_shadow].
Qed.

Lemma inv_step (e : Env) (ev : Event) (t : ClientReadersFlowTracer) :
  entry_points (inv_rel I1 P1) e -> entry_points (inv_rel I2 P2) e ->
  inv_pair I1 I2 t ->
  inv_pair I1 I2 (fst (step e ev t))
  /\ Forall (fun x => P1 x \/ P2 x) (snd (step e ev t)).
Proof.
  intros (S1 & T1 & Q1 & U1) (S2 & T2 & Q2 & U2) Ht.
  destruct ev; simpl;
    first [ now apply inv_forwarded | now apply inv_on_target ].
Qed.

Lemma inv_run (evs : list (Env * Event)) (t : ClientReadersFlowTracer) :
  Forall (fun x => entry_points (inv_rel I1 P1) (fst x)
                   /\ entry_points (inv_rel I2 P2) (fst x)) evs ->
  inv_pair I1 I2 t ->
  inv_pair I1 I2 (fst (run evs t))
  /\ Forall (fun x => P1 x \/ P2 x) (snd (run evs t)).
Proof.
  intro Hevs. revert t.
  induction Hevs as [|[e ev] rest [He1 He2] _ IH]; intros t Ht.
  - simpl. split; [exact Ht | constructor].
  - rewrite run_cons. simpl.
    destruct (inv_step e ev t He1 He2 Ht) as [Ht1 Ho1].
    destruct (IH _ Ht1) as [Ht2 Ho2].
    split; [exact Ht2 | now apply Forall_app].
Qed.

End PairInvariant.

(** ** Fixed-tail exemption *)

Lemma plain_not_lagging (t t' : Fields) (o : list Effect) :
  plain t o t' -> inv_rel not_lagging quiet_about_lagging t o t'.
Proof.
  intros (_ & _ & Hlast & _ & Hq) Ht. unfold not_lagging in *.
  split; [congruence|].
  eapply Forall_impl; [|exact Hq].
  intros x [Hs Hp]. destruct x; simpl in *; try exact I; discriminate.
Qed.

Lemma updateCountersForState_quiet (s : State) (io : bool)
  (tags : list string) (inc : Z) :
  s <> LAGGING ->
  Forall quiet_about_lagging (updateCountersForState s io tags inc).
Proof.
  intro Hs. destruct s, io; try congruence; simpl;
    repeat (apply Forall_cons; [split; discriminate|]); apply Forall_nil.
Qed.

Lemma state_to_report_fixed_tail (e : Env) (force : bool) (t : Fields) :
  until_lsn_ (owner_ e) <> LSN_MAX -> state_to_report e force t <> LAGGING.
Proof.
  intro Hu. unfold state_to_report.
  apply Z.eqb_neq in Hu. rewrite Hu, andb_false_r.
  destruct force; [discriminate|].
  destruct (if negb _ then _ else false); [|discriminate].
  destruct (_ && _); discriminate.
Qed.

Lemma not_lagging_maybeBumpStats (e : Env) (force : bool) :
  until_lsn_ (owner_ e) <> LSN_MAX ->
  sat (inv_rel not_lagging quiet_about_lagging) (maybeBumpStats e force).
Proof.
  intros Hu t Ht. unfold not_lagging in *.
  rewrite maybeBumpStats_reports.
  split; [now apply state_to_report_fixed_tail|].
  unfold maybeBumpStats.
  destruct (negb _); simpl; [|constructor].
  apply Forall_app; split; apply updateCountersForState_quiet;
    [exact Ht | now apply state_to_report_fixed_tail].
Qed.

Lemma toString_injective (a b : State) : toString a = toString b -> a = b.
Proof. destruct a, b; simpl; intro H; try reflexivity; discriminate. Qed.

Lemma not_lagging_traceReaderFlow (e : Env) (b r : Z) :
  sat (inv_rel not_lagging quiet_about_lagging) (traceReaderFlow e b r).
Proof.
  intros t Ht. unfold traceReaderFlow, not_lagging in *.
  destruct (negb (push_samples (params_ t))); simpl.
  - split; [exact Ht | constructor].
  - split; [exact Ht|].
    apply Forall_cons; [|constructor]. simpl.
    intro H. apply (toString_injective _ LAGGING) in H. contradiction.
Qed.

Ltac not_lagging_leaf Hu :=
  first
    [ apply (not_lagging_maybeBumpStats _ _ Hu)
    | apply not_lagging_traceReaderFlow
    | unfold sat; intros; apply plain_not_lagging;
      first
        [ apply plain_record_sample
        | apply plain_bumpHistograms
        | apply plain_updateShouldTrack
        | apply plain_onSettingsUpdated
        | plain_leaf ] ].

Lemma not_lagging_entry_points (e : Env) :
  until_lsn_ (owner_ e) <> LSN_MAX ->
  entry_points (inv_rel not_lagging quiet_about_lagging) e.
Proof.
  intro Hu. split; [|split; [|split]].
  - intro t. not_lagging_leaf Hu.
  - intro post_ok. apply carry_onTimerTriggered;
      [apply inv_rel_compositional | intros; not_lagging_leaf Hu ..].
  - intros st next_lsn attrs. apply carry_onSyncSequencerRequestResponse;
      [apply inv_rel_compositional | intros; not_lagging_leaf Hu ..].
  - intro t. not_lagging_leaf Hu.
Qed.

Lemma not_lagging_construct (e : Env) (push io : bool) (d : MemberDefaults) :
  inv_pair not_lagging not_lagging (fst (construct e push io d))
  /\ Forall quiet_about_lagging (snd (construct e push io d)).
Proof.
  rewrite construct_run. simpl.
  assert (H : forall p i,
             not_lagging (fst (onSettingsUpdated e (initial_fields p i d)))
             /\ Forall quiet_about_lagging
                  (snd (onSettingsUpdated e (initial_fields p i d)))).
  { intros p i.
    apply (plain_not_lagging (initial_fields p i d)).
    - apply plain_onSettingsUpdated.
    - unfold not_lagging. simpl. discriminate. }
  destruct (H push io) as [H1 O1]. destruct (H false true) as [H2 O2].
  destruct io; simpl.
  - rewrite app_nil_r. repeat split; assumption.
  - split; [split; assumption | now apply Forall_app].
Qed.

Lemma not_lagging_destroy (e : Env) (t : ClientReadersFlowTracer) :
  inv_pair not_lagging not_lagging t ->
  Forall quiet_about_lagging (destroy e t).
Proof.
  intros [Hs Hsh]. unfold destroy.
  assert (H : forall f, not_lagging f ->
              Forall quiet_about_lagging (snd (maybeBumpStats e true f))).
  { intros f Hf. unfold maybeBumpStats.
    destruct (negb _); simpl; [|constructor].
    apply Forall_app; split; apply updateCountersForState_quiet;
      [exact Hf | discriminate]. }
  apply Forall_app; split; [now apply H|].
  destruct (tracer_ignoring_overload_ t); [now apply H | constructor].
Qed.

(** C4.  When the stream's [until_lsn_] is not [LSN_MAX] at any event of a
    history, then after the history neither the tracer nor its shadow has
    LAGGING as its reported state, and nothing the tracer did from its
    construction to its destruction reports LAGGING: no published sample
    carries that state and neither lagging counter receives a delta. *)
Theorem fixed_tail_never_lagging (e0 : Env) (push_samples ignore_overload : bool)
  (d : MemberDefaults) (evs : list (Env * Event)) (e_end : Env) :
  Forall (fun x => until_lsn_ (owner_ (fst x)) <> LSN_MAX) evs ->
  let t :=
    fst (run evs (fst (construct e0 push_samples ignore_overload d))) in
  last_reported_state_ (self t) <> LAGGING
  /\ (forall shadow,
        tracer_ignoring_overload_ t = Some shadow ->
        last_reported_state_ shadow <> LAGGING)
  /\ Forall quiet_about_lagging
       (lifetime e0 push_samples ignore_overload d evs e_end).
Proof.
  intros Hevs. cbv zeta. unfold lifetime.
  destruct (not_lagging_construct e0 push_samples ignore_overload d)
    as [H0 O0].
  destruct (construct e0 push_samples ignore_overload d) as [t0 o0].
  cbn [fst snd] in *.
  destruct (inv_run not_lagging not_lagging quiet_about_lagging
              quiet_about_lagging evs t0) as [H1 O1].
  { eapply Forall_impl; [|exact Hevs].
    intros [e ev] Hu. split; now apply not_lagging_entry_points. }
  { exact H0. }
  destruct (run evs t0) as [t1 o1]. cbn [fst snd] in *.
  pose proof (not_lagging_destroy e_end t1 H1) as O2.
  destruct H1 as [Hs Hsh].
  split; [exact Hs|]. split.
  - intros shadow E. now rewrite E in Hsh.
  - apply Forall_app; split; [exact O0|].
    apply Forall_app; split; [|exact O2].
    eapply Forall_impl; [|exact O1]. intros x [H | H]; exact H.
Qed.

(** The growing-lag history on a stream that ends at position 100: the lag
    record fills and the lag outgrows the slope threshold, yet LAGGING is
    never reported.  (On a stream with [until_lsn_ = LSN_MAX] the same
    history ends in LAGGING, see [growing_lag_moving_tail].) *)
Lemma fixed_tail_never_lagging_witness :
  Forall (fun x => until_lsn_ (owner_ (fst x)) <> LSN_MAX)
    (example_growing_lag 100)
  /\ (let t :=
        fst (run (example_growing_lag 100)
               (fst (construct (example_env 100 5 0) true false
                       example_defaults))) in
      last_reported_state_ (self t) <> LAGGING
      /\ (forall shadow,
            tracer_ignoring_overload_ t = Some shadow ->
            last_reported_state_ shadow <> LAGGING)
      /\ Forall quiet_about_lagging
           (lifetime (example_env 100 5 0) true false example_defaults
              (example_growing_lag 100) (example_env 100 7 4000))).
Proof.
  assert (H : Forall (fun x => until_lsn_ (owner_ (fst x)) <> LSN_MAX)
                (example_growing_lag 100)).
  { repeat (apply Forall_cons; [discriminate|]). apply Forall_nil. }
  split; [exact H|].
  exact (fixed_tail_never_lagging (example_env 100 5 0) true false
           example_defaults (example_growing_lag 100)
           (example_env 100 7 4000) H).
Defined.

Example growing_lag_moving_tail :
  let t :=
    fst (run (example_growing_lag LSN_MAX)
           (fst (construct (example_env LSN_MAX 5 0) true false
                   example_defaults))) in
  last_reported_state_ (self t) = LAGGING
  /\ last_time_lagging_ (self t) = 2000.
Proof. vm_compute. split; reflexivity. Qed.

Example growing_lag_fixed_tail :
  let t :=
    fst (run (example_growing_lag 100)
           (fst (construct (example_env 100 5 0) true false
                   example_defaults))) in
  last_reported_state_ (self t) = HEALTHY
  /\ last_time_lagging_ (self t) = 2000.
Proof. vm_compute. split; reflexivity. Qed.

(** ** The tags of the tagged counters

    The tagged deltas are partitioned by the owner's monitoring tags, read
    anew at every call.  If the stream's tags never change, every tagged
    delta of a lifetime carries them, so the conservation of each counter is
    also the conservation of each of its per-tag instances. *)

Lemma plain_tagged (tags : list string) (t t' : Fields) (o : list Effect) :
  plain t o t' -> inv_rel always (tagged_with tags) t o t'.
Proof.
  intros (_ & _ & _ & _ & Hq) _. split; [exact I|].
  eapply Forall_impl; [|exact Hq].
  intros x [Hs _]. destruct x; simpl in *; try exact I. discriminate.
Qed.

Lemma tagged_maybeBumpStats (e : Env) (force : bool) :
  sat (inv_rel always (tagged_with (monitoring_tags_ (owner_ e))))
    (maybeBumpStats e force).
Proof.
  intros t _. split; [exact I|].
  unfold maybeBumpStats. destruct (negb _); simpl; [|constructor].
  generalize (state_to_report e force t), (last_reported_state_ t),
    (ignore_overload (params_ t)).
  intros new old io.
  destruct new, old, io; simpl;
    repeat (apply Forall_cons; [simpl; auto|]); apply Forall_nil.
Qed.

Lemma tagged_traceReaderFlow (tags : list string) (e : Env) (b r : Z) :
  sat (inv_rel always (tagged_with tags)) (traceReaderFlow e b r).
Proof.
  intros t _. split; [exact I|]. unfold traceReaderFlow.
  destruct (negb _); simpl; repeat constructor.
Qed.

Ltac tagged_leaf :=
  first
    [ apply tagged_maybeBumpStats
    | apply tagged_traceReaderFlow
    | unfold sat; intros; apply plain_tagged;
      first
        [ apply plain_record_sample
        | apply plain_bumpHistograms
        | apply plain_updateShouldTrack
        | apply plain_onSettingsUpdated
        | plain_leaf ] ].

Lemma tagged_entry_points (e : Env) :
  entry_points (inv_rel always (tagged_with (monitoring_tags_ (owner_ e)))) e.
Proof.
  split; [|split; [|split]].
  - intro t. tagged_leaf.
  - intro post_ok. apply carry_onTimerTriggered;
      [apply inv_rel_compositional | intros; tagged_leaf ..].
  - intros st next_lsn attrs. apply carry_onSyncSequencerRequestResponse;
      [apply inv_rel_compositional | intros; tagged_leaf ..].
  - intro t. tagged_leaf.
Qed.

(** X22.  If the monitoring tags of the stream are the same at every event
    and at destruction, every tagged delta of the whole lifetime of a tracer
    and its shadow carries exactly those tags. *)
Theorem tagged_deltas_carry_the_stream_tags (tags : list string) (e0 : Env)
  (push_samples ignore_overload : bool) (d : MemberDefaults)
  (evs : list (Env * Event)) (e_end : Env) :
  Forall (fun x => monitoring_tags_ (owner_ (fst x)) = tags) evs ->
  monitoring_tags_ (owner_ e_end) = tags ->
  Forall (tagged_with tags)
    (lifetime e0 push_samples ignore_overload d evs e_end).
Proof.
  intros Hevs Hend. unfold lifetime.
  assert (H0 : Forall (tagged_with tags)
                 (snd (construct e0 push_samples ignore_overload d))).
  { rewrite construct_run. simpl.
    assert (H : forall p i,
               Forall (tagged_with tags)
                 (snd (onSettingsUpdated e0 (initial_fields p i d)))).
    { intros p i.
      apply (plain_tagged tags _ _ _
               (plain_onSettingsUpdated e0 (initial_fields p i d)) I). }
    apply Forall_app; split; [apply H|].
    destruct ignore_overload; simpl; [constructor | apply H]. }
  destruct (construct e0 push_samples ignore_overload d) as [t0 o0].
  cbn [fst snd] in *.
  assert (H1 : Forall (tagged_with tags) (snd (run evs t0))).
  { destruct (inv_run always always (tagged_with tags) (tagged_with tags)
                evs t0) as [_ Ho].
    - eapply Forall_impl; [|exact Hevs].
      intros [e ev] <-. split; apply tagged_entry_points.
    - split; [exact I|]. now destruct (tracer_ignoring_overload_ t0).
    - eapply Forall_impl; [|exact Ho]. intros x [H | H]; exact H. }
  destruct (run evs t0) as [t1 o1]. cbn [fst snd] in *.
  apply Forall_app; split; [exact H0|].
  apply Forall_app; split; [exact H1|].
  unfold destroy. subst tags.
  apply Forall_app; split.
  - apply (tagged_maybeBumpStats e_end true (self t1) I).
  - destruct (tracer_ignoring_overload_ t1) as [shadow|]; [|constructor].
    apply (tagged_maybeBumpStats e_end true shadow I).
Qed.

(** ** Counter families *)

Example failing_tail_query_shadow_state :
  option_map last_reported_state_
    (tracer_ignoring_overload_
       (fst (run example_failing_tail_query
               (fst (construct (example_env_at_tail 0) true false
                       example_defaults)))))
  = Some STUCK_WHILE_FAILING_SYNC_SEQ_REQ.
Proof. reflexivity. Qed.

(** C5, as stated, fails.  A shadow tracer ([ignore_overload = true]) whose
    tail query has been failing for a minute moves from HEALTHY to
    STUCK_WHILE_FAILING_SYNC_SEQ_REQ; the only delta it emits is +1 to
    [read_streams_stuck_ignoring_overload].  No counter that counts that
    state alone (one a tracer ignoring overload leaves untouched when it
    enters STUCK) receives a +1. *)
Lemma ignoring_overload_has_no_failing_tail_query_counter :
  let o :=
    snd (run example_failing_tail_query
           (fst (construct (example_env_at_tail 0) true false
                   example_defaults))) in
  filter (fun x => match stat_delta x with Some _ => true | None => false end)
    o
  = [WORKER_STAT_ADD read_streams_stuck_ignoring_overload 1]
  /\ ~ (exists c,
          count_deltas c 1 o = 1%nat /\ contribution c true STUCK = 0%nat).
Proof.
  split; [reflexivity|].
  intros [c [H1 H2]]. destruct c; vm_compute in H1, H2; discriminate.
Qed.

(** C5, amended.  When [maybeBumpStats] changes the reported state, then for
    every family that has a counter in the variant selected by
    [ignore_overload], that counter receives one -1 if the family counts the
    old state and one +1 if it counts the new state, and no delta otherwise;
    the variant that ignores overload has counters for three families only
    (stuck-or-lagging, stuck, lagging).  Every delta is a unit, goes to a
    counter of the selected variant (untagged when overload is ignored,
    tagged with the stream's monitoring tags otherwise), and no other
    counter is touched.  Without a change of state nothing is emitted. *)
Theorem counter_families (e : Env) (force_healthy : bool) (t : Fields) :
  let old := last_reported_state_ t in
  let new := state_to_report e force_healthy t in
  let io := ignore_overload (params_ t) in
  let o := snd (maybeBumpStats e force_healthy t) in
  let changed := negb (State_eqb new old) in
  (forall f,
      match counter_of f io with
      | Some c =>
          count_deltas c (-1) o
          = (if changed && counts f old then 1 else 0)%nat
          /\ count_deltas c 1 o
             = (if changed && counts f new then 1 else 0)%nat
      | None => f = family_stuck_failing_tail_query /\ io = true
      end)
  /\ (forall c,
        (forall f, counter_of f io <> Some c) ->
        forall v, count_deltas c v o = 0%nat)
  /\ Forall unit_delta o
  /\ Forall (in_variant io (monitoring_tags_ (owner_ e))) o
  /\ (changed = false -> o = []).
Proof.
  cbv zeta. unfold maybeBumpStats.
  generalize (state_to_report e force_healthy t) as new.
  generalize (last_reported_state_ t) as old.
  generalize (ignore_overload (params_ t)) as io.
  generalize (monitoring_tags_ (owner_ e)) as tags.
  intros tags io old new.
  split; [|split; [|split; [|split]]].
  - intro f. destruct f, io, old, new; simpl; auto.
  - intros c Hc v.
    assert (Hf : forall f, counter_of f io <> Some c) by exact Hc.
    destruct io, c;
      try (exfalso; first
             [ apply (Hf family_stuck_or_lagging); reflexivity
             | apply (Hf family_stuck); reflexivity
             | apply (Hf family_lagging); reflexivity
             | apply (Hf family_stuck_failing_tail_query); reflexivity ]);
      destruct old, new; reflexivity.
  - destruct io, old, new; simpl;
      repeat (apply Forall_cons; [unfold unit_delta; simpl; auto|]);
      apply Forall_nil.
  - destruct io, old, new; simpl;
      repeat (apply Forall_cons; [simpl; auto|]); apply Forall_nil.
  - destruct (State_eqb new old); simpl; [reflexivity | discriminate].
Qed.

(** ** Sample gating *)

Lemma count_published_app (a b : list Effect) :
  count_published (a ++ b) = (count_published a + count_published b)%nat.
Proof. unfold count_published. now rewrite filter_app, length_app. Qed.

Lemma plain_unpublished (t t' : Fields) (o : list Effect) :
  plain t o t' -> unpublished t o t'.
Proof.
  intros (Hp & _ & _ & Ht & Hq). split; [exact Hp|]. split; [exact Ht|].
  unfold count_published.
  induction Hq as [|x o [_ Hx] _ IH]; [reflexivity|].
  simpl. now rewrite Hx.
Qed.

Lemma unpublished_compositional : compositional unpublished.
Proof.
  split.
  - intro t. repeat split.
  - intros t o1 t1 o2 t2 (P1 & T1 & C1) (P2 & T2 & C2).
    unfold unpublished. rewrite count_published_app.
    repeat split; [congruence | congruence | lia].
Qed.

Lemma unpublished_maybeBumpStats (e : Env) (force : bool) :
  sat unpublished (maybeBumpStats e force).
Proof.
  intro t. unfold maybeBumpStats, unpublished.
  destruct (negb _); simpl; [|repeat split].
  repeat split.
  generalize (state_to_report e force t), (last_reported_state_ t),
    (ignore_overload (params_ t)).
  intros new old io. destruct new, old, io; reflexivity.
Qed.

Ltac unpublished_leaf :=
  first
    [ apply unpublished_maybeBumpStats
    | unfold sat; intros; apply plain_unpublished;
      first
        [ apply plain_record_sample
        | apply plain_bumpHistograms
        | apply plain_updateShouldTrack
        | apply plain_onSettingsUpdated
        | plain_leaf ] ].

Lemma unpublished_updateTimeStuck (e : Env) (tail_lsn : lsn_t) (st : Status) :
  sat unpublished (updateTimeStuck e tail_lsn st).
Proof.
  apply carry_updateTimeStuck;
    [apply unpublished_compositional | intros; unpublished_leaf ..].
Qed.

Lemma unpublished_updateTimeLagging (e : Env) (st : Status) :
  sat unpublished (updateTimeLagging e st).
Proof.
  apply carry_updateTimeLagging;
    [apply unpublished_compositional | intros; unpublished_leaf ..].
Qed.

Lemma traceReaderFlow_publishes (e : Env) (b r : Z) :
  sat publishes_once (traceReaderFlow e b r).
Proof.
  intro t. unfold traceReaderFlow, publishes_once.
  destruct (push_samples (params_ t)) eqn:E; simpl; split; auto.
Qed.

Lemma unpublished_then_once (a b : M) :
  sat unpublished a -> sat publishes_once b -> sat publishes_once (andThen a b).
Proof.
  intros Ha Hb t. rewrite andThen_run. cbn [fst snd].
  destruct (Ha t) as (P1 & _ & C1). destruct (Hb (fst (a t))) as (P2 & C2).
  unfold publishes_once. rewrite count_published_app, C1, C2, P2, P1.
  split; reflexivity.
Qed.

Lemma once_then_unpublished (a b : M) :
  sat publishes_once a -> sat unpublished b -> sat publishes_once (andThen a b).
Proof.
  intros Ha Hb t. rewrite andThen_run. cbn [fst snd].
  destruct (Ha t) as (P1 & C1). destruct (Hb (fst (a t))) as (P2 & _ & C2).
  unfold publishes_once. rewrite count_published_app, C1, C2, P2, P1.
  split; [reflexivity | lia].
Qed.

Lemma onSyncSequencerRequestResponse_publishes (e : Env) (st : Status)
  (next_lsn : lsn_t) (attrs : option LogTailAttributes) :
  sat publishes_once (onSyncSequencerRequestResponse e st next_lsn attrs).
Proof.
  unfold onSyncSequencerRequestResponse.
  apply unpublished_then_once; [unpublished_leaf|].
  apply unpublished_then_once.
  { destruct attrs as [a|]; [destruct (Status_eqb st E_OK)|];
      try apply unpublished_updateTimeStuck.
    apply (sat_andThen _ unpublished_compositional).
    - unpublished_leaf.
    - apply unpublished_updateTimeStuck. }
  apply unpublished_then_once; [apply unpublished_updateTimeLagging|].
  apply once_then_unpublished; [apply traceReaderFlow_publishes|].
  unpublished_leaf.
Qed.

Lemma onTimerTriggered_publishes (e : Env) (post_ok : bool) (t : Fields) :
  count_published (snd (onTimerTriggered e post_ok t))
  = (if push_samples (params_ t) && negb post_ok then 1 else 0)%nat.
Proof.
  unfold onTimerTriggered, sendSyncSequencerRequest.
  rewrite !andThen_run. cbn [fst snd app].
  set (m := if negb post_ok
            then onSyncSequencerRequestResponse e E_NOBUFS LSN_INVALID None
            else skip).
  assert (H1 : count_published (snd (m t))
               = (if push_samples (params_ t) && negb post_ok
                  then 1 else 0)%nat).
  { subst m. destruct post_ok; simpl negb; cbv iota.
    - now rewrite andb_false_r.
    - rewrite andb_true_r.
      apply (onSyncSequencerRequestResponse_publishes e E_NOBUFS
               LSN_INVALID None t). }
  destruct (plain_unpublished _ _ _ (plain_updateShouldTrack e (fst (m t))))
    as (_ & _ & C2).
  destruct (unpublished_maybeBumpStats e false
              (fst (updateShouldTrack e (fst (m t))))) as (_ & _ & C3).
  change (postRequest ?a ?b :: ?l) with ([postRequest a b] ++ l).
  rewrite !count_published_app, H1, C2, C3.
  unfold count_published. simpl. lia.
Qed.

(** C6, as stated, fails: a tracer that pushes samples publishes one when
    its tail query completes with [E::TIMEDOUT]. *)
Lemma failed_tail_query_publishes_sample :
  count_published
    (snd (run [(example_env_at_tail 0,
                SyncSequencerRequestResponse Primary E_TIMEDOUT LSN_INVALID
                  None)]
            (fst (construct (example_env_at_tail 0) true false
                    example_defaults))))
  = 1%nat.
Proof. reflexivity. Qed.

(** C6, amended.  Every completion of a tail query, whatever its status and
    whether or not it carries tail attributes, publishes exactly one sample
    when [push_samples] is true and none when it is false.  A timer tick
    publishes only through the completion it runs itself when the request
    cannot be posted; settings updates, the owner's callbacks and
    [maybeBumpStats] (so also the destructor) never publish. *)
Theorem sample_gating (e : Env) (st : Status) (next_lsn : lsn_t)
  (attrs : option LogTailAttributes) (post_ok force_healthy : bool)
  (t : Fields) :
  count_published
    (snd (onSyncSequencerRequestResponse e st next_lsn attrs t))
  = (if push_samples (params_ t) then 1 else 0)%nat
  /\ count_published (snd (onTimerTriggered e post_ok t))
     = (if push_samples (params_ t) && negb post_ok then 1 else 0)%nat
  /\ count_published (snd (onSettingsUpdated e t)) = 0%nat
  /\ count_published (snd (updateShouldTrack e t)) = 0%nat
  /\ count_published (snd (maybeBumpStats e force_healthy t)) = 0%nat.
Proof.
  split; [apply (onSyncSequencerRequestResponse_publishes e st next_lsn attrs t)|].
  split; [apply onTimerTriggered_publishes|].
  split; [|split].
  - apply (plain_unpublished _ _ _ (plain_onSettingsUpdated e t)).
  - apply (plain_unpublished _ _ _ (plain_updateShouldTrack e t)).
  - apply (unpublished_maybeBumpStats e force_healthy t).
Qed.

(** ** The nodes-configuration publisher *)

(** C9.  [publish()] picks the NCM view exactly when both settings are on
    and the server-config view otherwise.  If the published view already is
    the chosen one (same pointer), nothing is done: [update] is not called
    and the configuration is unchanged.  If it differs, [update] is called
    once, with the chosen view, which becomes the published view when the
    call succeeds.  [update] is never called with anything but the chosen
    view, and a publish that follows a successful one is a no-op. *)
Theorem publish_selection_and_idempotence
  (s : NodesConfigurationPublisher.Settings) (rv rv' : Z)
  (c : NodesConfigurationPublisher.UpdateableConfig) :
  let from_ncm :=
    NodesConfigurationPublisher.enable_nodes_configuration_manager s
    && NodesConfigurationPublisher.use_nodes_configuration_manager_nodes_configuration s in
  let chosen :=
    if from_ncm
    then NodesConfigurationPublisher.getNodesConfigurationFromNCMSource c
    else NodesConfigurationPublisher.getNodesConfigurationFromServerConfigSource c in
  let current := NodesConfigurationPublisher.getNodesConfiguration c in
  let r := NodesConfigurationPublisher.publish s rv c in
  (from_ncm = true
   <-> NodesConfigurationPublisher.enable_nodes_configuration_manager s = true
       /\ NodesConfigurationPublisher.use_nodes_configuration_manager_nodes_configuration s = true)
  /\ NodesConfigurationPublisher.nodes_configuration_to_publish s c = chosen
  /\ (current = chosen -> r = (c, []))
  /\ (current <> chosen ->
      (exists logged,
          snd r = [NodesConfigurationPublisher.update_called chosen; logged])
      /\ NodesConfigurationPublisher.getNodesConfiguration (fst r)
         = (if rv =? 0 then chosen else current))
  /\ (forall nc,
        In (NodesConfigurationPublisher.update_called nc) (snd r) ->
        nc = chosen /\ current <> chosen)
  /\ (rv = 0 ->
      NodesConfigurationPublisher.publish s rv' (fst r) = (fst r, [])).
Proof.
  cbv zeta.
  unfold NodesConfigurationPublisher.publish,
    NodesConfigurationPublisher.nodes_configuration_to_publish.
  cbv zeta.
  set (from_ncm :=
         NodesConfigurationPublisher.enable_nodes_configuration_manager s
         && NodesConfigurationPublisher.use_nodes_configuration_manager_nodes_configuration s).
  set (chosen :=
         if from_ncm
         then NodesConfigurationPublisher.getNodesConfigurationFromNCMSource c
         else NodesConfigurationPublisher.getNodesConfigurationFromServerConfigSource c).
  split; [apply andb_true_iff|]. split; [reflexivity|].
  destruct (Z.eqb (NodesConfigurationPublisher.getNodesConfiguration c) chosen)
    eqn:E; simpl.
  - apply Z.eqb_eq in E. repeat split; try contradiction.
    intros _. fold chosen. now rewrite (proj2 (Z.eqb_eq _ _) E).
  - apply Z.eqb_neq in E. split; [intro; contradiction|].
    split; [intros _; split|split].
    + destruct (rv =? 0); simpl; eauto.
    + unfold NodesConfigurationPublisher.update.
      destruct (rv =? 0); reflexivity.
    + intros nc [H | H]; [injection H as <-; now split|].
      destruct (rv =? 0); simpl in H; destruct H as [H | []]; discriminate.
    + intros ->. unfold NodesConfigurationPublisher.update. simpl.
      subst chosen. destruct from_ncm; simpl; now rewrite Z.eqb_refl.
Qed.

Example publish_switches_source :
  NodesConfigurationPublisher.publish
    (NodesConfigurationPublisher.mkSettings true true) 0
    (NodesConfigurationPublisher.mkConfig 11 22 22)
  = (NodesConfigurationPublisher.mkConfig 11 22 11,
     [NodesConfigurationPublisher.update_called 11;
      NodesConfigurationPublisher.ld_info 11 true]).
Proof. reflexivity. Qed.

Example publish_keeps_view_when_update_fails :
  NodesConfigurationPublisher.publish
    (NodesConfigurationPublisher.mkSettings true false) 1
    (NodesConfigurationPublisher.mkConfig 11 22 11)
  = (NodesConfigurationPublisher.mkConfig 11 22 11,
     [NodesConfigurationPublisher.update_called 22;
      NodesConfigurationPublisher.ld_error 22]).
Proof. reflexivity. Qed.

(** ** Tracers that do not push samples *)

Lemma unpublished_never_traced (ts : Z * Z * Z * double * double)
  (t t' : Fields) (o : list Effect) :
  unpublished t o t' -> inv_rel (never_traced ts) not_published t o t'.
Proof.
  intros (Hp & Ht & Hc) [Hpush Hts]. split.
  - split; congruence.
  - unfold count_published in Hc. unfold not_published.
    induction o as [|x o IH]; [constructor|].
    simpl in Hc. destruct (is_publish x) eqn:E; [discriminate|].
    constructor; [exact E | now apply IH].
Qed.

Lemma never_traced_traceReaderFlow (ts : Z * Z * Z * double * double)
  (e : Env) (b r : Z) :
  sat (inv_rel (never_traced ts) not_published) (traceReaderFlow e b r).
Proof.
  intros t [Hpush Hts]. unfold traceReaderFlow. rewrite Hpush. simpl.
  split; [split; assumption | constructor].
Qed.

Ltac never_traced_leaf :=
  first
    [ apply never_traced_traceReaderFlow
    | unfold sat; intros; apply unpublished_never_traced;
      first
        [ apply unpublished_maybeBumpStats
        | apply plain_unpublished;
          first
            [ apply plain_record_sample
            | apply plain_bumpHistograms
            | apply plain_updateShouldTrack
            | apply plain_onSettingsUpdated
            | plain_leaf ] ] ].

Lemma never_traced_entry_points (ts : Z * Z * Z * double * double) (e : Env) :
  entry_points (inv_rel (never_traced ts) not_published) e.
Proof.
  split; [|split; [|split]].
  - intro t. never_traced_leaf.
  - intro post_ok. apply carry_onTimerTriggered;
      [apply inv_rel_compositional | intros; never_traced_leaf ..].
  - intros st next_lsn attrs. apply carry_onSyncSequencerRequestResponse;
      [apply inv_rel_compositional | intros; never_traced_leaf ..].
  - intro t. never_traced_leaf.
Qed.

(** The same relation, asked of a tracer only if [b] is false. *)
Lemma entry_points_if_false (b : bool) (I : Fields -> Prop)
  (P : Effect -> Prop) (e : Env) :
  entry_points (inv_rel I P) e ->
  entry_points
    (inv_rel (fun t => b = false -> I t) (fun x => b = false -> P x)) e.
Proof.
  assert (H : forall m, sat (inv_rel I P) m ->
              sat (inv_rel (fun t => b = false -> I t)
                     (fun x => b = false -> P x)) m).
  { intros m Hm t Ht. destruct b.
    - split; [discriminate|]. apply Forall_forall. discriminate.
    - destruct (Hm t (Ht eq_refl)) as [H1 H2]. split; [auto|].
      eapply Forall_impl; [|exact H2]. auto. }
  intros (H1 & H2 & H3 & H4).
  split; [|split; [|split]]; intros; apply H; auto.
Qed.

Lemma Forall_not_published (o : list Effect) :
  Forall not_published o -> count_published o = 0%nat.
Proof.
  unfold count_published, not_published.
  induction 1 as [|x o Hx _ IH]; [reflexivity|]. simpl. now rewrite Hx.
Qed.

(** C10.  [traceReaderFlow] on a tracer with [push_samples = false] returns
    at once: no effect, no field changed.  The shadow a tracer builds has
    [push_samples = false], and after any history both of its moving averages
    are still zero and its stored byte count, record count and trace time are
    the ones it was built with; none of its timer ticks or tail-query
    completions publishes a sample.  The same holds of any tracer built with
    [push_samples = false], which with its shadow publishes nothing at all. *)
Theorem shadow_tracer_never_traces (e0 : Env)
  (push_samples0 ignore_overload0 : bool) (d : MemberDefaults)
  (evs : list (Env * Event)) :
  let built := construct e0 push_samples0 ignore_overload0 d in
  let r := run evs (fst built) in
  let untouched (f : Fields) :=
    push_samples (params_ f) = false
    /\ speed_records_moving_avg_ f = DZero
    /\ speed_bytes_moving_avg_ f = DZero
    /\ last_num_bytes_read_ f = default_last_num_bytes_read d
    /\ last_num_records_read_ f = default_last_num_records_read d
    /\ last_trace_time_ f = default_last_trace_time d in
  (forall e b n f,
      push_samples (params_ f) = false -> traceReaderFlow e b n f = (f, []))
  /\ (forall shadow,
        tracer_ignoring_overload_ (fst r) = Some shadow ->
        untouched shadow
        /\ forall e post_ok st next_lsn attrs,
            count_published
              (snd (step e (TimerTriggered Shadow post_ok) (fst r))) = 0%nat
            /\ count_published
                 (snd (step e
                         (SyncSequencerRequestResponse Shadow st next_lsn
                            attrs) (fst r))) = 0%nat)
  /\ (push_samples0 = false ->
      untouched (self (fst r))
      /\ count_published (snd built ++ snd r) = 0%nat).
Proof.
  cbv zeta.
  set (ts := trace_state (initial_fields false true d)).
  assert (Hunt : forall f, never_traced ts f ->
            push_samples (params_ f) = false
            /\ speed_records_moving_avg_ f = DZero
            /\ speed_bytes_moving_avg_ f = DZero
            /\ last_num_bytes_read_ f = default_last_num_bytes_read d
            /\ last_num_records_read_ f = default_last_num_records_read d
            /\ last_trace_time_ f = default_last_trace_time d).
  { intros f [Hp Ht]. unfold trace_state, ts in Ht. simpl in Ht.
    injection Ht as -> -> -> -> ->. repeat split; assumption. }
  assert (Hinit : forall p i,
            (p = false ->
             never_traced ts (fst (onSettingsUpdated e0 (initial_fields p i d))))
            /\ (p = false ->
                Forall not_published
                  (snd (onSettingsUpdated e0 (initial_fields p i d))))).
  { intros p i.
    pose proof (unpublished_never_traced ts _ _ _
                  (plain_unpublished _ _ _
                     (plain_onSettingsUpdated e0 (initial_fields p i d))))
      as H.
    split; intros ->; apply H; split; reflexivity. }
  assert (Hevs :
            Forall (fun x =>
                      entry_points
                        (inv_rel
                           (fun t => push_samples0 = false -> never_traced ts t)
                           (fun x => push_samples0 = false -> not_published x))
                        (fst x)
                      /\ entry_points (inv_rel (never_traced ts) not_published)
                           (fst x)) evs).
  { apply Forall_forall. intros [e ev] _. split.
    - apply entry_points_if_false, never_traced_entry_points.
    - apply never_traced_entry_points. }
  assert (Hbuilt :
            inv_pair (fun t => push_samples0 = false -> never_traced ts t)
              (never_traced ts)
              (fst (construct e0 push_samples0 ignore_overload0 d))).
  { rewrite construct_run. split; simpl.
    - apply Hinit.
    - destruct ignore_overload0; simpl; [exact I|]. now apply Hinit. }
  destruct (inv_run _ _ _ _ evs _ Hevs Hbuilt) as [[Hself Hshadow] Ho].
  split; [|split].
  - intros e b n f Hf. unfold traceReaderFlow. now rewrite Hf.
  - intros shadow E. rewrite E in Hshadow. split; [now apply Hunt|].
    intros e post_ok st next_lsn attrs. simpl. unfold on_shadow.
    rewrite E. destruct Hshadow as [Hp _].
    pose proof (onSyncSequencerRequestResponse_publishes e st next_lsn attrs
                  shadow) as (_ & G1).
    pose proof (onTimerTriggered_publishes e post_ok shadow) as G2.
    rewrite Hp in G1, G2. simpl in G2.
    destruct (onTimerTriggered e post_ok shadow).
    destruct (onSyncSequencerRequestResponse e st next_lsn attrs shadow).
    simpl in *. split; assumption.
  - intro Hpush. split; [now apply Hunt, Hself|].
    rewrite count_published_app.
    rewrite (Forall_not_published (snd (run evs _))).
    2:{ eapply Forall_impl; [|exact Ho]. intros x [H | H]; auto. }
    rewrite construct_run. simpl.
    rewrite count_published_app.
    rewrite (Forall_not_published
               (snd (onSettingsUpdated e0
                       (initial_fields push_samples0 ignore_overload0 d)))).
    2:{ now apply Hinit. }
    destruct ignore_overload0; simpl; [reflexivity|].
    rewrite Nat.add_0_r.
    apply Forall_not_published. now apply Hinit.
Qed.

(** ** The order of the TTLs *)

Lemma non_decreasing_tl (l : list Z) :
  non_decreasing l -> non_decreasing (tl l).
Proof. destruct l as [|a [|b r]]; simpl; tauto. Qed.

Lemma non_decreasing_cons (a : Z) (l : list Z) :
  non_decreasing (a :: l) -> non_decreasing l.
Proof. apply (non_decreasing_tl (a :: l)). Qed.

Lemma non_decreasing_head (a : Z) (l : list Z) :
  non_decreasing (a :: l) -> Forall (fun x => a <= x) l.
Proof.
  revert a. induction l as [|b r IH]; intros a H; [constructor|].
  destruct H as [Hab Hr]. constructor; [exact Hab|].
  eapply Forall_impl; [|apply (IH b Hr)]. simpl. intros; lia.
Qed.

Lemma non_decreasing_firstn (n : nat) (l : list Z) :
  non_decreasing l -> non_decreasing (firstn n l).
Proof.
  revert l. induction n as [|n IH]; intros l H; [exact I|].
  destruct l as [|a [|b r]]; simpl; [exact I | now destruct n |].
  destruct H as [Hab Hr]. specialize (IH (b :: r) Hr).
  destruct n; [exact I|]. simpl in *. split; assumption.
Qed.

Lemma non_decreasing_snoc (l : list Z) (x : Z) :
  non_decreasing l -> Forall (fun a => a <= x) l ->
  non_decreasing (l ++ [x]).
Proof.
  induction l as [|a r IH]; intros H Hx; [exact I|].
  inversion Hx as [|? ? Ha Hr]; subst.
  destruct r as [|b r']; simpl; [split; [exact Ha | exact I]|].
  destruct H as [Hab H']. split; [exact Hab|]. now apply IH.
Qed.

Lemma non_decreasing_pred (l : list Z) :
  non_decreasing l -> non_decreasing (map (fun a => a - 1) l).
Proof.
  induction l as [|a [|b r] IH]; simpl; try tauto.
  intros [Hab H]. split; [lia | now apply IH].
Qed.

Lemma map_ttl_decrement (l : list TimeLagBucket) :
  Forall (fun x => 1 <= x <= 2 ^ 16) (map ttl l) ->
  map ttl (map decrement_ttl l) = map (fun a => a - 1) (map ttl l).
Proof.
  induction l as [|s r IH]; intro H; [reflexivity|].
  inversion H as [|? ? Hs Hr]; subst. simpl. rewrite (IH Hr). f_equal.
  unfold wrap16. apply Z.mod_small. lia.
Qed.

Lemma map_ttl_update_last (d : Z) (l : list TimeLagBucket) :
  map ttl (update_last (add_time_lag_correction d) l) = map ttl l.
Proof.
  induction l as [|s r IH]; [reflexivity|].
  destruct r as [|s' r']; [reflexivity|].
  change (update_last (add_time_lag_correction d) (s :: s' :: r'))
    with (s :: update_last (add_time_lag_correction d) (s' :: r')).
  rewrite map_cons, IH. reflexivity.
Qed.

(** After the old samples are popped, what is left has no expired bucket. *)
Lemma pop_old_samples_ordered (initial : Z) (l : list TimeLagBucket) :
  non_decreasing (map ttl l) ->
  Forall (fun x => 0 <= x <= initial) (map ttl l) ->
  non_decreasing (map ttl (pop_old_samples l))
  /\ Forall (fun x => 1 <= x <= initial) (map ttl (pop_old_samples l)).
Proof.
  induction l as [|s r IH]; intros Hnd Hb; [split; [exact I | constructor]|].
  simpl. destruct (ttl s =? 0) eqn:E.
  - inversion Hb; subst. apply IH; [now apply non_decreasing_cons in Hnd | assumption].
  - apply Z.eqb_neq in E. split; [exact Hnd|].
    pose proof (non_decreasing_head _ _ Hnd) as Hh.
    simpl in Hb. inversion Hb as [|? ? Hs Hr]; subst.
    constructor; [lia|].
    apply Forall_forall. intros x Hx.
    pose proof (proj1 (Forall_forall _ _) Hh x Hx).
    pose proof (proj1 (Forall_forall _ _) Hr x Hx). simpl in *. lia.
Qed.

Lemma map_ttl_tl (l : list TimeLagBucket) : map ttl (tl l) = tl (map ttl l).
Proof. now destruct l. Qed.

Lemma Forall_prefix (P : Z -> Prop) (n : nat) (l : list Z) :
  Forall P l -> Forall P (firstn n l).
Proof.
  intro H. rewrite <- (firstn_skipn n l) in H.
  now apply Forall_app in H.
Qed.

Lemma get_initial_ttl_range (g n : Z) : 0 <= get_initial_ttl g n < 2 ^ 16.
Proof. unfold get_initial_ttl, wrap16. apply Z.mod_pos_bound. lia. Qed.

Lemma Forall_anything (o : list Effect) : Forall anything o.
Proof. apply Forall_forall. intros; exact I. Qed.

Lemma ttl_ordered_same_record (initial : Z) (t t' : Fields) (o : list Effect) :
  time_lag_record_ t' = time_lag_record_ t ->
  inv_rel (ttl_ordered initial) anything t o t'.
Proof.
  intros E H. split; [|apply Forall_anything].
  unfold ttl_ordered, ttls in *. now rewrite E.
Qed.

Lemma ttl_ordered_aged (initial : Z) (t : Fields) :
  initial < 2 ^ 16 ->
  inv_rel (ttl_ordered initial) anything t []
    (set_time_lag_record_ (aged (time_lag_record_ t)) t).
Proof.
  intros Hi [Hnd Hb]. split; [|constructor].
  unfold ttl_ordered, ttls in *. simpl.
  destruct (pop_old_samples_ordered initial _ Hnd Hb) as [Hnd' Hb'].
  rewrite map_ttl_decrement.
  2:{ eapply Forall_impl; [|exact Hb']. simpl. intros; lia. }
  split; [now apply non_decreasing_pred|].
  apply Forall_forall. intros x Hx. apply in_map_iff in Hx.
  destruct Hx as [a [<- Ha]].
  pose proof (proj1 (Forall_forall _ _) Hb' a Ha). simpl in *. lia.
Qed.

Lemma ttl_ordered_push_back (initial : Z) (x : TimeLagBucket)
  (b : circular_buffer) :
  ttl x = initial -> 0 <= initial ->
  non_decreasing (map ttl (items b)) ->
  Forall (fun a => 0 <= a <= initial) (map ttl (items b)) ->
  non_decreasing (map ttl (items (cb_push_back x b)))
  /\ Forall (fun a => 0 <= a <= initial) (map ttl (items (cb_push_back x b))).
Proof.
  intros Hx Hi Hnd Hb. unfold cb_push_back.
  destruct (capacity b =? 0); [split; assumption|].
  assert (Hsnoc : forall l,
             non_decreasing (map ttl l) ->
             Forall (fun a => 0 <= a <= initial) (map ttl l) ->
             non_decreasing (map ttl (l ++ [x]))
             /\ Forall (fun a => 0 <= a <= initial) (map ttl (l ++ [x]))).
  { intros l H1 H2. rewrite map_app. simpl. rewrite Hx. split.
    - apply non_decreasing_snoc; [exact H1|].
      eapply Forall_impl; [|exact H2]. simpl. intros; lia.
    - apply Forall_app. split; [exact H2|]. constructor; [lia | constructor]. }
  destruct (cb_full b); simpl; apply Hsnoc; try assumption.
  - rewrite map_ttl_tl. now apply non_decreasing_tl.
  - rewrite map_ttl_tl. destruct (map ttl (items b)); [constructor|].
    now inversion Hb.
Qed.

Lemma ttl_ordered_record_sample (e : Env) (cur : Z) :
  sat (inv_rel (ttl_ordered (initial_ttl_of e)) anything)
    (record_sample e cur).
Proof.
  intros t [Hnd Hb]. split; [|apply Forall_anything].
  unfold record_sample. cbv zeta.
  destruct (_ =? 0); [|split; assumption].
  pose proof (get_initial_ttl_range
                (Z.max (client_readers_flow_tracer_lagging_metric_sample_group_size
                          (settings e)) 1)
                (client_readers_flow_tracer_lagging_metric_num_sample_groups
                   (settings e))) as Hr.
  unfold ttl_ordered, ttls in *.
  destruct (negb _); simpl;
    apply ttl_ordered_push_back; try reflexivity;
    try (unfold initial_ttl_of; lia);
    simpl; rewrite ?map_ttl_update_last; assumption.
Qed.

Lemma ttl_ordered_updateShouldTrack (initial : Z) (e : Env) :
  sat (inv_rel (ttl_ordered initial) anything) (updateShouldTrack e).
Proof.
  intros t [Hnd Hb]. split; [|apply Forall_anything].
  unfold updateShouldTrack. cbv zeta.
  unfold ttl_ordered, ttls in *.
  repeat match goal with
         | |- context [if ?c then _ else _] => destruct c
         | |- context [match estimateTimeLag ?e ?t with _ => _ end] =>
             destruct (estimateTimeLag e t)
         end; simpl; rewrite ?map_ttl_update_last; split; assumption.
Qed.

Lemma ttl_ordered_onSettingsUpdated (initial : Z) (e : Env) :
  sat (inv_rel (ttl_ordered initial) anything) (onSettingsUpdated e).
Proof.
  intros t [Hnd Hb]. split; [|apply Forall_anything].
  unfold onSettingsUpdated. cbv zeta.
  unfold ttl_ordered, ttls in *.
  assert (Hcut : forall len,
             non_decreasing
               (map ttl (firstn (Z.to_nat len) (items (time_lag_record_ t))))
             /\ Forall (fun x => 0 <= x <= initial)
                  (map ttl
                     (firstn (Z.to_nat len) (items (time_lag_record_ t))))).
  { intro len. rewrite <- firstn_map. split.
    - now apply non_decreasing_firstn.
    - now apply Forall_prefix. }
  repeat match goal with
         | |- context [if ?c then _ else _] => destruct c
         end; simpl; first [apply Hcut | split; assumption].
Qed.

Lemma ttl_ordered_maybeBumpStats (initial : Z) (e : Env) (force : bool) :
  sat (inv_rel (ttl_ordered initial) anything) (maybeBumpStats e force).
Proof.
  intro t. apply ttl_ordered_same_record.
  unfold maybeBumpStats. now destruct (negb _).
Qed.

Lemma ttl_ordered_traceReaderFlow (initial : Z) (e : Env) (b r : Z) :
  sat (inv_rel (ttl_ordered initial) anything) (traceReaderFlow e b r).
Proof.
  intro t. apply ttl_ordered_same_record.
  unfold traceReaderFlow. now destruct (negb _).
Qed.

Ltac ttl_ordered_leaf :=
  first
    [ apply ttl_ordered_maybeBumpStats
    | apply ttl_ordered_traceReaderFlow
    | apply ttl_ordered_record_sample
    | apply ttl_ordered_updateShouldTrack
    | apply ttl_ordered_onSettingsUpdated
    | apply ttl_ordered_aged; apply get_initial_ttl_range
    | unfold sat; intros; apply ttl_ordered_same_record; reflexivity ].

Lemma ttl_ordered_entry_points (e : Env) :
  entry_points (inv_rel (ttl_ordered (initial_ttl_of e)) anything) e.
Proof.
  split; [|split; [|split]].
  - ttl_ordered_leaf.
  - intro post_ok. apply carry_onTimerTriggered;
      [apply inv_rel_compositional | intros; ttl_ordered_leaf ..].
  - intros st next_lsn attrs. apply carry_onSyncSequencerRequestResponse;
      [apply inv_rel_compositional | intros; ttl_ordered_leaf ..].
  - ttl_ordered_leaf.
Qed.

(** C8, as stated, fails.  After the three ticks of the growing-lag history
    (settings unchanged throughout) the lag record holds two buckets whose
    TTLs are 1 for the older and 2 for the newer: they increase from the
    oldest to the newest. *)
Lemma ttl_increases_from_oldest_to_newest :
  let t :=
    self (fst (run (example_growing_lag LSN_MAX)
                 (fst (construct (example_env LSN_MAX 5 0) true false
                         example_defaults)))) in
  ttls t = [1; 2] /\ ~ non_increasing (ttls t).
Proof.
  split; [reflexivity|].
  vm_compute. intros [H _]. apply H. reflexivity.
Qed.

Lemma ttl_ordered_mono (a b : Z) (t : Fields) :
  a <= b -> ttl_ordered a t -> ttl_ordered b t.
Proof.
  intros Hab [Hnd Hb]. split; [exact Hnd|].
  eapply Forall_impl; [|exact Hb]. cbv beta. intros; lia.
Qed.

(** A tick whose request was posted leaves the lag record alone. *)
Lemma ttl_ordered_tick_posted (initial : Z) (e : Env) :
  sat (inv_rel (ttl_ordered initial) anything) (onTimerTriggered e true).
Proof.
  pose proof (inv_rel_compositional (ttl_ordered initial) anything) as HR.
  unfold onTimerTriggered, sendSyncSequencerRequest. cbn [negb].
  apply (sat_andThen _ HR).
  { apply (sat_andThen _ HR); [|apply (sat_skip _ HR)].
    intro t. now apply ttl_ordered_same_record. }
  apply (sat_andThen _ HR); [apply ttl_ordered_updateShouldTrack|].
  apply (sat_andThen _ HR); [apply ttl_ordered_maybeBumpStats|].
  intro t. now apply ttl_ordered_same_record.
Qed.

(** One event: the bound on the TTLs rises to the initial TTL of an event
    that can open a bucket, and is kept by every other event. *)
Lemma ttl_ordered_step (b : Z) (e : Env) (ev : Event)
  (t : ClientReadersFlowTracer) :
  let b' := if may_open_bucket ev then initial_ttl_of e else b in
  b <= b' ->
  inv_pair (ttl_ordered b) (ttl_ordered b) t ->
  inv_pair (ttl_ordered b') (ttl_ordered b') (fst (step e ev t)).
Proof.
  cbv zeta. intros Hb Ht.
  assert (Ht' : forall c, b <= c ->
                  inv_pair (ttl_ordered c) (ttl_ordered c) t).
  { intros c Hc. destruct Ht as [H1 H2]. split.
    - now apply (ttl_ordered_mono b).
    - destruct (tracer_ignoring_overload_ t); [|exact I].
      now apply (ttl_ordered_mono b). }
  destruct (may_open_bucket ev) eqn:E.
  - apply (inv_step _ _ anything anything e ev t);
      [apply ttl_ordered_entry_points .. | now apply Ht'].
  - destruct ev as [|who post_ok| | | | |]; try discriminate E; cbn [step].
    + apply (inv_forwarded _ _ anything anything);
        [apply ttl_ordered_onSettingsUpdated .. | exact Ht].
    + destruct post_ok; [|discriminate E].
      apply (inv_on_target _ _ anything anything);
        [apply ttl_ordered_tick_posted .. | exact Ht].
    + apply (inv_forwarded _ _ anything anything);
        [apply ttl_ordered_updateShouldTrack .. | exact Ht].
    + apply (inv_forwarded _ _ anything anything);
        [apply ttl_ordered_updateShouldTrack .. | exact Ht].
    + apply (inv_forwarded _ _ anything anything);
        [apply ttl_ordered_updateShouldTrack .. | exact Ht].
    + apply (inv_forwarded _ _ anything anything);
        [apply ttl_ordered_updateShouldTrack .. | exact Ht].
Qed.

Lemma ttl_ordered_run (evs : list (Env * Event)) (b : Z)
  (t : ClientReadersFlowTracer) :
  non_decreasing (b :: initial_ttls evs) ->
  inv_pair (ttl_ordered b) (ttl_ordered b) t ->
  exists b',
    inv_pair (ttl_ordered b') (ttl_ordered b') (fst (run evs t)).
Proof.
  revert b t. induction evs as [|[e ev] rest IH]; intros b t Hnd Ht.
  - exists b. exact Ht.
  - rewrite run_cons. cbn [fst].
    pose proof (ttl_ordered_step b e ev t) as Hstep. cbv zeta in Hstep.
    unfold initial_ttls in Hnd. cbn [filter snd fst] in Hnd.
    destruct (may_open_bucket ev).
    + cbn [map fst] in Hnd.
      fold (initial_ttls rest) in Hnd.
      assert (Hb : b <= initial_ttl_of e).
      { destruct (initial_ttls rest); cbn in Hnd; tauto. }
      apply (IH (initial_ttl_of e)); [|now apply Hstep].
      now apply non_decreasing_cons in Hnd.
    + fold (initial_ttls rest) in Hnd.
      apply (IH b); [exact Hnd | apply Hstep; [lia | exact Ht]].
Qed.

(** C8, amended.  As long as the initial TTL the settings give a new bucket
    never drops from one event that can open a bucket (a completion of the
    tail query, or a tick whose request could not be posted) to a later one,
    the TTLs in the lag record of a tracer and of its shadow never decrease
    from the oldest bucket to the newest, through any history of ticks,
    completions, evictions, owner callbacks and changes of the settings,
    capacity changes included. *)
Theorem ttl_order_while_initial_ttl_never_drops (e0 : Env)
  (push_samples ignore_overload : bool) (d : MemberDefaults)
  (evs : list (Env * Event)) :
  non_decreasing (initial_ttls evs) ->
  let t :=
    fst (run evs (fst (construct e0 push_samples ignore_overload d))) in
  non_decreasing (ttls (self t))
  /\ (forall shadow,
        tracer_ignoring_overload_ t = Some shadow ->
        non_decreasing (ttls shadow)).
Proof.
  intros Hevs. cbv zeta.
  assert (Hbuilt :
            inv_pair (ttl_ordered 0) (ttl_ordered 0)
              (fst (construct e0 push_samples ignore_overload d))).
  { assert (H : forall p i,
               ttl_ordered 0
                 (fst (onSettingsUpdated e0 (initial_fields p i d)))).
    { intros p i.
      apply (ttl_ordered_onSettingsUpdated 0 e0 (initial_fields p i d)).
      split; [exact I | constructor]. }
    rewrite construct_run. split; simpl; [apply H|].
    destruct ignore_overload; simpl; [exact I | apply H]. }
  assert (Hnd : non_decreasing (0 :: initial_ttls evs)).
  { unfold initial_ttls in *.
    destruct (filter (fun x => may_open_bucket (snd x)) evs) as [|[e ev] r];
      [exact I|].
    cbn [map fst] in *. split; [|exact Hevs].
    apply get_initial_ttl_range. }
  destruct (ttl_ordered_run evs 0 _ Hnd Hbuilt) as [b' [Hself Hshadow]].
  split; [apply Hself|].
  intros shadow E. rewrite E in Hshadow. apply Hshadow.
Qed.

(** The settings raise the number of groups from two to eight between two
    samples: the initial TTL rises from 2 to 10, and the bucket opened after
    the change outranks the one opened before it. *)
Lemma ttl_order_while_initial_ttl_never_drops_witness :
  initial_ttls example_growing_settings = [2; 10]
  /\ ttls (self (fst (run example_growing_settings
                        (fst (construct (example_env_with 2 1 0) true false
                                example_defaults)))))
     = [1; 10]
  /\ non_decreasing
       (ttls (self (fst (run example_growing_settings
                           (fst (construct (example_env_with 2 1 0) true
                                   false example_defaults)))))).
Proof.
  split; [reflexivity|]. split; [reflexivity|].
  refine (proj1 (ttl_order_while_initial_ttl_never_drops
                   (example_env_with 2 1 0) true false example_defaults
                   example_growing_settings _)).
  vm_compute. split; [discriminate | exact I].
Defined.

(** When the settings lower the initial TTL, a bucket opened before the
    change outlives, and outranks, one opened after it. *)
Example ttl_order_lost_when_initial_ttl_shrinks :
  ttls (self (fst (run example_shrinking_settings
                     (fst (construct (example_env_with 8 1 0) true false
                             example_defaults)))))
  = [9; 2].
Proof. reflexivity. Qed.

(** ** One tracked sample of the lag metric *)

Lemma maybeBumpStats_keeps (e : Env) (force : bool) (t : Fields) :
  let t' := fst (maybeBumpStats e force t) in
  time_lag_record_ t' = time_lag_record_ t
  /\ sample_counter_ t' = sample_counter_ t
  /\ last_time_lagging_ t' = last_time_lagging_ t
  /\ params_ t' = params_ t.
Proof.
  cbv zeta. unfold maybeBumpStats. destruct (negb _); repeat split.
Qed.

(** What [updateTimeLagging] leaves behind when the tracer is tracking and
    has a sample [cur]: the record and the counter are those [record_sample]
    produces from the aged record, and the lagging timer follows
    [is_catching_up]. *)
Lemma updateTimeLagging_tracked (e : Env) (st : Status) (t : Fields)
  (cur : Z) :
  cur_ts_lag e st t = Some cur ->
  should_track_ t = true ->
  let t2 :=
    fst (record_sample e cur
           (set_time_lag_record_ (aged (time_lag_record_ t)) t)) in
  let t' := fst (updateTimeLagging e st t) in
  time_lag_record_ t' = time_lag_record_ t2
  /\ sample_counter_ t' = sample_counter_ t2
  /\ params_ t' = params_ t
  /\ last_time_lagging_ t'
     = (if is_catching_up e cur t2 then TimePoint_max
        else if last_time_lagging_ t =? TimePoint_max then now e
             else last_time_lagging_ t).
Proof.
  intros Hcur Htrack. cbv zeta.
  unfold updateTimeLagging. rewrite Hcur.
  rewrite andThen_run. cbn [fst snd modify].
  set (t1 := set_time_lag_record_ (aged (time_lag_record_ t)) t).
  assert (Ht1 : should_track_ t1 = true) by exact Htrack.
  rewrite Ht1. cbn [negb].
  rewrite andThen_run. cbn [fst snd].
  set (t2 := fst (record_sample e cur t1)).
  rewrite andThen_run. cbn [fst snd].
  assert (Hltl : last_time_lagging_ t2 = last_time_lagging_ t).
  { subst t2. unfold record_sample. cbv zeta.
    destruct (_ =? 0); [destruct (negb _)|]; reflexivity. }
  assert (Hpar : params_ t2 = params_ t).
  { subst t2. unfold record_sample. cbv zeta.
    destruct (_ =? 0); [destruct (negb _)|]; reflexivity. }
  match goal with
  | |- context [maybeBumpStats e false ?x] =>
      destruct (maybeBumpStats_keeps e false x) as (K1 & K2 & K3 & K4);
      rewrite K1, K2, K3, K4
  end.
  destruct (is_catching_up e cur t2).
  - repeat split; assumption.
  - rewrite Hltl. destruct (last_time_lagging_ t =? TimePoint_max);
      repeat split; assumption.
Qed.

(** ** The initial TTL *)

Lemma record_sample_tracked (e : Env) (cur : Z) (t : Fields) :
  should_track_ t = true ->
  let group_size :=
    Z.max (client_readers_flow_tracer_lagging_metric_sample_group_size
             (settings e)) 1 in
  let num_groups :=
    client_readers_flow_tracer_lagging_metric_num_sample_groups (settings e)
  in
  let t' := fst (record_sample e cur t) in
  params_ t' = params_ t
  /\ sample_counter_ t' = wrap64 (sample_counter_ t + 1)
  /\ time_lag_record_ t'
     = (if sample_counter_ t mod group_size =? 0
        then cb_push_back
               (mkBucket cur 0 (get_initial_ttl group_size num_groups))
               (time_lag_record_ t)
        else time_lag_record_ t).
Proof.
  intro Htrack. cbv zeta. unfold record_sample. cbv zeta.
  assert (H : should_track_ (set_sample_counter_
                               (wrap64 (sample_counter_ t + 1)) t) = true)
    by exact Htrack.
  rewrite H. cbn [negb].
  destruct (_ =? 0); repeat split; reflexivity.
Qed.

(** C7, as stated, fails.  With [group_size = 1] and [num_groups = 2] the
    first bucket of the lag record is created with a TTL of 2, while
    [1.25 * 1 * 2 = 2.5] has ceiling 3. *)
Lemma initial_ttl_is_not_the_ceiling :
  let t :=
    self (fst (run (firstn 2 (example_growing_lag LSN_MAX))
                 (fst (construct (example_env LSN_MAX 5 0) true false
                         example_defaults)))) in
  items (time_lag_record_ t) = [mkBucket 5000 0 2]
  /\ spec_initial_ttl (Z.max 1 1) 2 = 3
  /\ ttl (cb_back (time_lag_record_ t)) <> spec_initial_ttl (Z.max 1 1) 2.
Proof. vm_compute. repeat split; discriminate. Qed.

(** C7, amended.  When a tracked sample opens a bucket (the sample counter
    is a multiple of the clamped group size), the bucket appended to the lag
    record carries the current lag, no correction and a TTL equal to
    [1.25 * group_size * num_groups] rounded down, provided that value fits
    the 16-bit field; when the sample opens no bucket, nothing is appended. *)
Theorem initial_ttl_is_truncated (e : Env) (st : Status) (t : Fields)
  (cur : Z) :
  let group_size :=
    Z.max (client_readers_flow_tracer_lagging_metric_sample_group_size
             (settings e)) 1 in
  let num_groups :=
    client_readers_flow_tracer_lagging_metric_num_sample_groups (settings e)
  in
  let initial := 5 * group_size * num_groups / 4 in
  let before := aged (time_lag_record_ t) in
  let after := time_lag_record_ (fst (updateTimeLagging e st t)) in
  cur_ts_lag e st t = Some cur ->
  should_track_ t = true ->
  0 < capacity (time_lag_record_ t) ->
  0 <= num_groups ->
  initial < 2 ^ 16 ->
  (4 * initial <= 5 * group_size * num_groups < 4 * initial + 4)
  /\ (sample_counter_ t mod group_size = 0 ->
      items after
      = (if cb_full before then tl (items before) else items before)
        ++ [mkBucket cur 0 initial])
  /\ (sample_counter_ t mod group_size <> 0 -> items after = items before).
Proof.
  cbv zeta. intros Hcur Htrack Hcap Hn Hfit.
  set (G := Z.max (client_readers_flow_tracer_lagging_metric_sample_group_size
                     (settings e)) 1) in *.
  set (N := client_readers_flow_tracer_lagging_metric_num_sample_groups
              (settings e)) in *.
  assert (HG : 1 <= G) by (subst G; lia).
  split.
  { pose proof (Z.div_mod (5 * G * N) 4 ltac:(lia)).
    pose proof (Z.mod_pos_bound (5 * G * N) 4 ltac:(lia)). lia. }
  destruct (updateTimeLagging_tracked e st t cur Hcur Htrack)
    as (Hrec & _).
  rewrite Hrec.
  destruct (record_sample_tracked e cur
              (set_time_lag_record_ (aged (time_lag_record_ t)) t) Htrack)
    as (_ & _ & Hrec').
  rewrite Hrec'. cbn [time_lag_record_ sample_counter_ set_time_lag_record_].
  fold G N.
  assert (Httl : get_initial_ttl G N = 5 * G * N / 4).
  { unfold get_initial_ttl, wrap16. apply Z.mod_small. split; [|lia].
    apply Z.div_pos; nia. }
  rewrite Httl. split.
  - intros ->. rewrite Z.eqb_refl. unfold cb_push_back.
    assert (Hc : (capacity (aged (time_lag_record_ t)) =? 0) = false).
    { apply Z.eqb_neq. simpl. lia. }
    rewrite Hc. now destruct (cb_full (aged (time_lag_record_ t))).
  - intro Hne. apply Z.eqb_neq in Hne. now rewrite Hne.
Qed.

Lemma initial_ttl_is_truncated_witness :
  cur_ts_lag example_third_completion E_OK example_after_two_ticks
  = Some 10000
  /\ items (time_lag_record_
              (fst (updateTimeLagging example_third_completion E_OK
                      example_after_two_ticks)))
     = [mkBucket 10000 0 1; mkBucket 10000 0 2].
Proof.
  split; [reflexivity|].
  refine (proj1 (proj2
            (initial_ttl_is_truncated example_third_completion E_OK
               example_after_two_ticks 10000 eq_refl eq_refl _ _ _)) _);
    first [reflexivity | discriminate].
Defined.

(** ** The catch-up rule *)

Lemma sum_corrections_fold (l : list TimeLagBucket) :
  sum_corrections l = fold_right Z.add 0 (map time_lag_correction l).
Proof.
  unfold sum_corrections.
  assert (H : forall a,
             fold_left (fun correction x => correction + time_lag_correction x)
               l a
             = a + fold_right Z.add 0 (map time_lag_correction l)).
  { induction l as [|s r IH]; intro a; simpl; [lia|]. rewrite IH. lia. }
  rewrite H. lia.
Qed.

Lemma time_window_exact (period group_size num_groups sample_counter : Z) :
  0 <= period -> 1 <= group_size -> 1 <= num_groups ->
  group_size * num_groups < 2 ^ 64 ->
  period * (group_size * num_groups) < 2 ^ 64 ->
  time_window period group_size num_groups sample_counter
  = period * (group_size * (num_groups - 1) + sample_counter mod group_size).
Proof.
  intros Hp Hg Hn Hgn Hpgn. unfold time_window, wrap64.
  pose proof (Z.mod_pos_bound sample_counter group_size ltac:(lia)) as Hi.
  assert (H1 : (num_groups - 1) mod 2 ^ 64 = num_groups - 1).
  { apply Z.mod_small. nia. }
  rewrite H1.
  assert (H2 : (group_size * (num_groups - 1)) mod 2 ^ 64
               = group_size * (num_groups - 1)).
  { apply Z.mod_small. nia. }
  rewrite H2.
  assert (H3 : (group_size * (num_groups - 1)
                + sample_counter mod group_size) mod 2 ^ 64
               = group_size * (num_groups - 1)
                 + sample_counter mod group_size).
  { apply Z.mod_small. nia. }
  rewrite H3.
  destruct (Z.eq_dec period 0) as [-> | Hp0]; [reflexivity|].
  assert (H4 : period mod 2 ^ 64 = period).
  { apply Z.mod_small. nia. }
  rewrite H4. apply Z.mod_small. nia.
Qed.

(** C3, as stated, fails.  In the mid-group history the fourth sample is
    the second of its group: when its tail query completes three samples
    were taken before it, the tracer is tracking and the record is full.  The lag is 6.2 s against 5 s in the
    oldest bucket, with no correction.  With [i = sample_counter mod G]
    [= 3 mod 2 = 1] the window is 3 s and, the slope threshold being exactly
    1/2, the claimed rule calls the reader catching up (1200 <= 1500).  The
    code reads the counter after advancing it, so [i = 4 mod 2 = 0], the
    window is 2 s and 1200 > 1000: the lagging timer, unset before, is set,
    and the tracer reports LAGGING. *)
Lemma catch_up_window_reads_the_advanced_counter :
  let e := example_second_of_group 4000 in
  let before := example_before_fourth_sample in
  let after := example_after_fourth_sample in
  should_track_ before = true
  /\ sample_counter_ before = 3
  /\ last_time_lagging_ before = TimePoint_max
  /\ estimateTimeLag e after = Some 6200
  /\ time_lags after = [5000; 5500]
  /\ (exists q,
        exact_value
          (client_readers_flow_tracer_lagging_slope_threshold (settings e))
        = Some q
        /\ (q == 1 # 2)%Q)
  /\ spec_catching_up (1 # 2) 1000 2 2 (sample_counter_ before) 6200
       (time_lag_record_ after)
  /\ last_time_lagging_ after = 4000
  /\ last_reported_state_ after = LAGGING.
Proof.
  cbv zeta. repeat (split; [reflexivity|]).
  split; [eexists; split; [reflexivity | reflexivity]|].
  split; [|split; reflexivity].
  right. right. vm_compute. discriminate.
Qed.

(** The slope test is computed in double precision.  With a threshold of
    [seven_tenths], a window of 10 ms and a lag that grew by 7 ms, the
    product rounds to the double 7, the test passes and the tracer stays
    HEALTHY, although the number the threshold stands for, times 10, is
    less than 7. *)
Example slope_test_rounds :
  let t :=
    self (fst (run example_rounding
                 (fst (construct (example_on_the_slope 0) true false
                         example_defaults)))) in
  time_lags t = [13; 20]
  /\ last_time_lagging_ t = TimePoint_max
  /\ last_reported_state_ t = HEALTHY
  /\ PrimFloat.mul seven_tenths (to_double 10) = to_double 7
  /\ exists q,
       exact_value seven_tenths = Some q
       /\ ~ spec_catching_up q 10 1 2 1 20 (time_lag_record_ t).
Proof.
  cbv zeta. repeat (split; [reflexivity|]).
  eexists. split; [reflexivity|].
  intros [H | [H | H]]; vm_compute in H; apply H; reflexivity.
Qed.

(** C3, amended.  On a tick on which the tracer is tracking and has a lag
    sample [lag], with a lag record whose capacity is the configured number
    of groups [N >= 1] and no overflow in the window arithmetic: write [T]
    for the tracer period, [G] for the clamped group size, [i] for
    [(sample_counter + 1) mod G], where [sample_counter] is the number of
    samples taken before this one (the counter is advanced, with 64-bit
    wrap-around, before the window is computed), [window] for
    [T * (G * (N - 1) + i)], [lag0] for the oldest bucket's lag and
    [correction] for the sum of the corrections of all buckets of the
    record.  The consumer is catching up iff [lag <= T], or the record is
    not full, or test (c) passes in double precision: the double product of
    [slope_threshold] and [window] converted to double is not less than
    [lag - lag0 - correction] converted to double.  If so
    [last_time_lagging_] is cleared, and if not it keeps its value when set
    and becomes the current time when it was unset. *)
Theorem catch_up_rule (e : Env) (st : Status) (t : Fields) (lag : Z) :
  let T := tracer_period (params_ t) in
  let G :=
    Z.max (client_readers_flow_tracer_lagging_metric_sample_group_size
             (settings e)) 1 in
  let N :=
    client_readers_flow_tracer_lagging_metric_num_sample_groups (settings e)
  in
  let slope_threshold :=
    client_readers_flow_tracer_lagging_slope_threshold (settings e) in
  let t' := fst (updateTimeLagging e st t) in
  let record := time_lag_record_ t' in
  let i := wrap64 (sample_counter_ t + 1) mod G in
  let window := T * (G * (N - 1) + i) in
  let lag0 := time_lag (cb_front record) in
  let correction :=
    fold_right Z.add 0 (map time_lag_correction (items record)) in
  let catching_up :=
    lag <= T
    \/ cb_size record <> capacity record
    \/ PrimFloat.ltb (PrimFloat.mul slope_threshold (to_double window))
         (to_double (lag - lag0 - correction)) = false in
  cur_ts_lag e st t = Some lag ->
  should_track_ t = true ->
  capacity (time_lag_record_ t) = N ->
  1 <= N -> 0 <= T -> G * N < 2 ^ 64 -> T * (G * N) < 2 ^ 64 ->
  sample_counter_ t' = wrap64 (sample_counter_ t + 1)
  /\ (catching_up -> last_time_lagging_ t' = TimePoint_max)
  /\ (~ catching_up ->
      last_time_lagging_ t'
      = (if last_time_lagging_ t =? TimePoint_max then now e
         else last_time_lagging_ t)).
Proof.
  cbv zeta. intros Hcur Htrack Hcap HN HT HGN HTGN.
  destruct (updateTimeLagging_tracked e st t lag Hcur Htrack)
    as (Hrec & Hcnt & Hpar & Hltl).
  destruct (record_sample_tracked e lag
              (set_time_lag_record_ (aged (time_lag_record_ t)) t) Htrack)
    as (Hpar2 & Hcnt' & _).
  cbn [params_ sample_counter_ set_time_lag_record_] in Hpar2, Hcnt'.
  rewrite Hrec, Hcnt, Hltl.
  set (t2 := fst (record_sample e lag
                    (set_time_lag_record_ (aged (time_lag_record_ t)) t)))
    in *.
  clear Hrec Hcnt Hltl Hpar.
  split; [exact Hcnt'|].
  assert (Hiff :
            is_catching_up e lag t2 = true
            <-> (lag <= tracer_period (params_ t)
                 \/ cb_size (time_lag_record_ t2)
                    <> capacity (time_lag_record_ t2)
                 \/ PrimFloat.ltb
                      (PrimFloat.mul
                         (client_readers_flow_tracer_lagging_slope_threshold
                            (settings e))
                         (to_double
                            (tracer_period (params_ t)
                             * (Z.max
                                  (client_readers_flow_tracer_lagging_metric_sample_group_size
                                     (settings e)) 1
                                * (client_readers_flow_tracer_lagging_metric_num_sample_groups
                                     (settings e) - 1)
                                + wrap64 (sample_counter_ t + 1)
                                  mod Z.max
                                        (client_readers_flow_tracer_lagging_metric_sample_group_size
                                           (settings e)) 1))))
                      (to_double
                         (lag - time_lag (cb_front (time_lag_record_ t2))
                          - fold_right Z.add 0
                              (map time_lag_correction
                                 (items (time_lag_record_ t2)))))
                    = false)).
  { unfold is_catching_up, slope_within. cbv zeta.
    rewrite Hpar2, Hcnt', sum_corrections_fold.
    rewrite time_window_exact by lia.
    rewrite !orb_true_iff, Z.leb_le, !negb_true_iff.
    unfold cb_full. rewrite Z.eqb_neq. tauto. }
  split.
  - intro H. apply Hiff in H. now rewrite H.
  - intro H. destruct (is_catching_up e lag t2) eqn:E; [|reflexivity].
    exfalso. apply H, Hiff. reflexivity.
Qed.

(** The third sample of the growing-lag history: the lag is 15 s against a
    period of 1 s, the record is full, and the lag has grown by 5 s over a
    window of 1 s with no correction, more than the slope threshold of 1/10
    allows; the lagging timer, set at the second sample, is kept. *)
Lemma catch_up_rule_witness :
  cur_ts_lag example_third_completion E_OK example_third_sample = Some 15000
  /\ items (time_lag_record_
              (fst (updateTimeLagging example_third_completion E_OK
                      example_third_sample)))
     = [mkBucket 10000 0 1; mkBucket 15000 0 2]
  /\ sample_counter_
       (fst (updateTimeLagging example_third_completion E_OK
               example_third_sample)) = 3
  /\ last_time_lagging_
       (fst (updateTimeLagging example_third_completion E_OK
               example_third_sample)) = 2000.
Proof.
  split; [reflexivity|]. split; [reflexivity|].
  destruct (catch_up_rule example_third_completion E_OK example_third_sample
              15000 eq_refl eq_refl eq_refl)
    as (Hcounter & _ & Hlagging); try (vm_compute; congruence).
  split; [exact Hcounter|].
  apply Hlagging.
  intros [H | [H | H]]; vm_compute in H;
    first [discriminate H | apply H; reflexivity].
Defined.

(** * Properties of the remaining code *)

(** ** The lag estimates *)





(** With the tail at byte offset [2^63 - 1] and the accumulated offset
    [2^64 - 2], which reads as -2, the difference [2^63 + 1] does not fit
    and the byte lag comes out negative; with an accumulated offset of 100
    it is the difference. *)
Example byte_lag_wraps_around :
  estimateByteLag (example_env_offsets (2 ^ 64 - 2)) example_far_tail
  = Some (- (2 ^ 63 - 1))
  /\ estimateByteLag (example_env_offsets 100) example_far_tail
     = Some (2 ^ 63 - 101).
Proof. split; reflexivity. Qed.

(** ** The tracking gate *)

Lemma set_should_track_same (t : Fields) :
  set_should_track_ (should_track_ t) t = t.
Proof. now destruct t. Qed.

Lemma update_last_lags (d : Z) (l : list TimeLagBucket) :
  map time_lag (update_last (add_time_lag_correction d) l) = map time_lag l.
Proof.
  induction l as [|s r IH]; [reflexivity|].
  destruct r as [|s' r']; [reflexivity|].
  change (update_last (add_time_lag_correction d) (s :: s' :: r'))
    with (s :: update_last (add_time_lag_correction d) (s' :: r')).
  rewrite map_cons, IH. reflexivity.
Qed.

Lemma update_last_total (d : Z) (l : list TimeLagBucket) :
  l <> [] ->
  fold_right Z.add 0
    (map time_lag_correction (update_last (add_time_lag_correction d) l))
  = fold_right Z.add 0 (map time_lag_correction l) + d.
Proof.
  induction l as [|s r IH]; [congruence|]. intros _.
  destruct r as [|s' r']; [simpl; lia|].
  change (update_last (add_time_lag_correction d) (s :: s' :: r'))
    with (s :: update_last (add_time_lag_correction d) (s' :: r')).
  simpl map. simpl fold_right. simpl in IH. rewrite IH by discriminate. lia.
Qed.

Lemma update_last_nonempty (d : Z) (l : list TimeLagBucket) :
  l <> [] -> update_last (add_time_lag_correction d) l <> [].
Proof. destruct l as [|s [|s' r]]; simpl; congruence. Qed.

(** What [updateShouldTrack] does, by the gate before and after. *)
Lemma updateShouldTrack_run (e : Env) (t : Fields) :
  let gate := tracking_gate e (ignore_overload (params_ t)) in
  let adjusted d :=
    set_time_lag_record_
      (cb_update_back (add_time_lag_correction d) (time_lag_record_ t))
      (set_should_track_ gate t) in
  updateShouldTrack e t
  = (match estimateTimeLag e t with
     | Some lag =>
         if cb_empty (time_lag_record_ t) then set_should_track_ gate t
         else if should_track_ t && negb gate then adjusted (0 - lag)
         else if negb (should_track_ t) && gate then adjusted lag
         else set_should_track_ gate t
     | None => set_should_track_ gate t
     end, []).
Proof.
  cbv zeta. unfold updateShouldTrack, tracking_gate. cbv zeta.
  set (gate := negb match overloadDetector e with
                    | Some o => if negb (ignore_overload (params_ t))
                                then o else false
                    | None => false
                    end
               && negb (redelivery_timer_active (owner_ e))
               && negb (window_update_pending_ (owner_ e))).
  assert (Hg : negb match overloadDetector e with
                    | Some o => negb (ignore_overload (params_ t)) && o
                    | None => false
                    end
               && negb (redelivery_timer_active (owner_ e))
               && negb (window_update_pending_ (owner_ e)) = gate).
  { subst gate. destruct (overloadDetector e) as [o|]; [|reflexivity].
    now destruct (negb (ignore_overload (params_ t))). }
  rewrite Hg.
  change (should_track_ (set_should_track_ gate t)) with gate.
  change (estimateTimeLag e (set_should_track_ gate t))
    with (estimateTimeLag e t).
  change (time_lag_record_ (set_should_track_ gate t))
    with (time_lag_record_ t).
  destruct (should_track_ t), gate; simpl;
    destruct (estimateTimeLag e t); try reflexivity;
    destruct (cb_empty (time_lag_record_ t)); reflexivity.
Qed.

(** X2.  [updateShouldTrack] sets [should_track_] to: not overloaded (an
    overload detector is consulted only by a tracer that does not ignore
    overload), redelivery timer inactive, and no window update pending.  It
    emits nothing, keeps every bucket's lag and TTL, and changes nothing at
    all when the gate keeps its value, so calling it again right away is a
    no-op.  For a tracer that ignores overload the result does not depend on
    the overload detector. *)
Theorem tracking_gate_spec (e : Env) (t : Fields) :
  let t' := fst (updateShouldTrack e t) in
  should_track_ t' = tracking_gate e (ignore_overload (params_ t))
  /\ snd (updateShouldTrack e t) = []
  /\ time_lags t' = time_lags t
  /\ ttls t' = ttls t
  /\ capacity (time_lag_record_ t') = capacity (time_lag_record_ t)
  /\ (should_track_ t' = should_track_ t -> t' = t)
  /\ updateShouldTrack e t' = (t', [])
  /\ (ignore_overload (params_ t) = true ->
      forall d,
        updateShouldTrack (with_overloadDetector d e) t
        = updateShouldTrack e t).
Proof.
  cbv zeta.
  assert (Hgate : should_track_ (fst (updateShouldTrack e t))
                  = tracking_gate e (ignore_overload (params_ t))).
  { rewrite updateShouldTrack_run. cbv zeta. cbn [fst].
    destruct (estimateTimeLag e t); [|reflexivity].
    destruct (cb_empty _); [reflexivity|].
    destruct (_ && _); [reflexivity|]. now destruct (_ && _). }
  assert (Hio : ignore_overload (params_ (fst (updateShouldTrack e t)))
                = ignore_overload (params_ t)).
  { rewrite updateShouldTrack_run. cbv zeta. cbn [fst].
    destruct (estimateTimeLag e t); [|reflexivity].
    destruct (cb_empty _); [reflexivity|].
    destruct (_ && _); [reflexivity|]. now destruct (_ && _). }
  assert (Hsame : forall f,
             tracking_gate e (ignore_overload (params_ f)) = should_track_ f ->
             fst (updateShouldTrack e f) = f).
  { intros f Hf. rewrite updateShouldTrack_run. cbv zeta. cbn [fst].
    rewrite Hf, set_should_track_same.
    destruct (estimateTimeLag e f); [|reflexivity].
    destruct (cb_empty _); [reflexivity|].
    now destruct (should_track_ f). }
  split; [exact Hgate|].
  split; [now rewrite updateShouldTrack_run|].
  split; [|split; [|split; [|split; [|split]]]].
  - rewrite updateShouldTrack_run. cbv zeta. cbn [fst]. unfold time_lags.
    destruct (estimateTimeLag e t); [|reflexivity].
    destruct (cb_empty _); [reflexivity|].
    destruct (_ && _); [simpl; apply update_last_lags|].
    destruct (_ && _); [simpl; apply update_last_lags | reflexivity].
  - rewrite updateShouldTrack_run. cbv zeta. cbn [fst]. unfold ttls.
    destruct (estimateTimeLag e t); [|reflexivity].
    destruct (cb_empty _); [reflexivity|].
    destruct (_ && _); [simpl; apply map_ttl_update_last|].
    destruct (_ && _); [simpl; apply map_ttl_update_last | reflexivity].
  - rewrite updateShouldTrack_run. cbv zeta. cbn [fst].
    destruct (estimateTimeLag e t); [|reflexivity].
    destruct (cb_empty _); [reflexivity|].
    destruct (_ && _); [reflexivity|]. now destruct (_ && _).
  - intro H. apply Hsame. congruence.
  - rewrite (surjective_pairing (updateShouldTrack e _)).
    f_equal; [|now rewrite updateShouldTrack_run].
    apply Hsame. congruence.
  - intros Hig d. rewrite !updateShouldTrack_run. cbv zeta.
    unfold tracking_gate, with_overloadDetector, estimateTimeLag. simpl.
    rewrite Hig. simpl.
    destruct d, (overloadDetector e); reflexivity.
Qed.

(** ** The stuck timer *)

Lemma set_last_reported_state_same (t : Fields) :
  set_last_reported_state_ (last_reported_state_ t) t = t.
Proof. now destruct t. Qed.

Lemma set_last_next_lsn_to_deliver_same (t : Fields) :
  set_last_next_lsn_to_deliver_ (last_next_lsn_to_deliver_ t) t = t.
Proof. now destruct t. Qed.

Lemma set_last_time_stuck_same (t : Fields) :
  set_last_time_stuck_ (last_time_stuck_ t) t = t.
Proof. now destruct t. Qed.

(** [maybeBumpStats] leaves the tracer with the state it computed. *)
Lemma maybeBumpStats_fst (e : Env) (force : bool) (t : Fields) :
  fst (maybeBumpStats e force t)
  = set_last_reported_state_ (state_to_report e force t) t.
Proof.
  unfold maybeBumpStats.
  destruct (State_eqb (state_to_report e force t) (last_reported_state_ t))
    eqn:E; simpl; [|reflexivity].
  apply State_eqb_eq in E. rewrite E. symmetry.
  apply set_last_reported_state_same.
Qed.

Lemma maybeBumpStats_steady (e : Env) (force : bool) (t : Fields) :
  last_reported_state_ t = state_to_report e force t ->
  maybeBumpStats e force t = (t, []).
Proof.
  intro H. unfold maybeBumpStats. rewrite <- H, State_eqb_refl. reflexivity.
Qed.

Lemma updateTimeStuck_fst (e : Env) (tail_lsn : lsn_t) (st : Status)
  (t : Fields) :
  let t2 :=
    set_last_time_stuck_ (stuck_since e tail_lsn st t)
      (set_last_next_lsn_to_deliver_ (next_lsn_to_deliver_ (owner_ e)) t) in
  fst (updateTimeStuck e tail_lsn st t)
  = set_last_reported_state_ (state_to_report e false t2) t2.
Proof.
  cbv zeta. unfold updateTimeStuck, stuck_since, advanced, is_stuck.
  rewrite !andThen_run. cbn [fst snd].
  destruct (last_next_lsn_to_deliver_ t =? next_lsn_to_deliver_ (owner_ e))
    eqn:Eadv; cbn [negb].
  - apply Z.eqb_eq in Eadv. rewrite <- Eadv.
    rewrite set_last_next_lsn_to_deliver_same. unfold skip. cbn [fst].
    rewrite maybeBumpStats_fst. unfold modify.
    destruct (should_track_ t && _) eqn:Es; cbn [negb fst orb].
    + destruct (last_time_stuck_ t =? TimePoint_max) eqn:El; cbn [fst].
      * reflexivity.
      * now rewrite set_last_time_stuck_same.
    + reflexivity.
  - rewrite ?andThen_run. cbn [fst snd modify].
    rewrite !maybeBumpStats_fst.
    cbn [should_track_ last_time_stuck_ set_last_reported_state_
           set_last_time_stuck_ set_last_next_lsn_to_deliver_].
    rewrite Z.eqb_refl.
    destruct (should_track_ t && _) eqn:Es; cbn [negb fst orb modify];
      reflexivity.
Qed.

Lemma updateTimeStuck_fields (e : Env) (tail_lsn : lsn_t) (st : Status)
  (t : Fields) :
  let t' := fst (updateTimeStuck e tail_lsn st t) in
  last_next_lsn_to_deliver_ t' = next_lsn_to_deliver_ (owner_ e)
  /\ last_time_stuck_ t' = stuck_since e tail_lsn st t
  /\ should_track_ t' = should_track_ t
  /\ last_sync_seq_request_result_ t' = last_sync_seq_request_result_ t
  /\ latest_tail_info_ t' = latest_tail_info_ t
  /\ last_time_lagging_ t' = last_time_lagging_ t
  /\ time_lag_record_ t' = time_lag_record_ t
  /\ up_to_date e t'.
Proof.
  cbv zeta. rewrite updateTimeStuck_fst. cbv zeta.
  repeat split.
Qed.

(** X4.  [updateTimeStuck] remembers the position it saw and keeps the
    stuck timer as a dwell timer: it is cleared when the reader is not
    instantaneously stuck (not tracked, or the tail query succeeded and the
    reader is past the tail or its target), it is started at the current time
    when the reader is stuck and either delivered something since the last
    call or had no timer running, and otherwise it keeps running from where
    it was.  Afterwards the reported state is the one computed from the new
    fields, and a second call with the same arguments changes nothing and
    emits nothing. *)
Theorem stuck_dwell_timer (e : Env) (tail_lsn : lsn_t) (st : Status)
  (t : Fields) :
  let t' := fst (updateTimeStuck e tail_lsn st t) in
  last_next_lsn_to_deliver_ t' = next_lsn_to_deliver_ (owner_ e)
  /\ (is_stuck e tail_lsn st t = false ->
      last_time_stuck_ t' = TimePoint_max)
  /\ (is_stuck e tail_lsn st t = true ->
      (advanced e t = true \/ last_time_stuck_ t = TimePoint_max ->
       last_time_stuck_ t' = now e)
      /\ (advanced e t = false -> last_time_stuck_ t <> TimePoint_max ->
          last_time_stuck_ t' = last_time_stuck_ t))
  /\ up_to_date e t'
  /\ updateTimeStuck e tail_lsn st t' = (t', []).
Proof.
  cbv zeta.
  destruct (updateTimeStuck_fields e tail_lsn st t)
    as (Hnext & Hlts & Htrack & _ & _ & _ & _ & Hup).
  set (t' := fst (updateTimeStuck e tail_lsn st t)) in *.
  split; [exact Hnext|]. split; [|split; [|split; [exact Hup|]]].
  - intro Hs. rewrite Hlts. unfold stuck_since. now rewrite Hs.
  - intro Hs. rewrite Hlts. unfold stuck_since. rewrite Hs. cbn [negb].
    split.
    + intros [Ha | Hu]; [now rewrite Ha|].
      apply Z.eqb_eq in Hu. rewrite Hu. now rewrite orb_true_r.
    + intros Ha Hu. apply Z.eqb_neq in Hu. now rewrite Ha, Hu.
  - assert (Hstuck' : is_stuck e tail_lsn st t' = is_stuck e tail_lsn st t).
    { unfold is_stuck. now rewrite Htrack. }
    unfold updateTimeStuck. rewrite !andThen_run. cbn [fst snd].
    rewrite Hnext, Z.eqb_refl. cbn [negb skip fst snd app].
    fold (is_stuck e tail_lsn st t'). rewrite Hstuck'.
    assert (Hmid :
              (if negb (is_stuck e tail_lsn st t)
               then modify (set_last_time_stuck_ TimePoint_max) t'
               else if last_time_stuck_ t' =? TimePoint_max
                    then modify (set_last_time_stuck_ (now e)) t'
                    else skip t') = (t', [])).
    { unfold modify, skip. rewrite Hlts. unfold stuck_since.
      destruct (is_stuck e tail_lsn st t) eqn:Hs; cbn [negb].
      - destruct (advanced e t || (last_time_stuck_ t =? TimePoint_max))
          eqn:Hc.
        + destruct (now e =? TimePoint_max) eqn:Hn; [|reflexivity].
          f_equal. rewrite <- (set_last_time_stuck_same t') at 2.
          f_equal. rewrite Hlts. unfold stuck_since. now rewrite Hs, Hc.
        + apply orb_false_iff in Hc. destruct Hc as [_ Hc].
          now rewrite Hc.
      - f_equal. rewrite <- (set_last_time_stuck_same t') at 2.
        f_equal. rewrite Hlts. unfold stuck_since. now rewrite Hs. }
    rewrite Hmid. cbn [fst snd].
    now rewrite (maybeBumpStats_steady e false t' Hup).
Qed.

(** ** A completion of the tail query *)

Lemma keeps_compositional {A : Type} (f : Fields -> A) :
  compositional (keeps f).
Proof.
  split; [reflexivity|].
  intros t o1 t1 o2 t2 H1 H2. unfold keeps in *. congruence.
Qed.

(** A leaf that leaves the fields read by [f] alone. *)
Ltac keeps_leaf :=
  unfold sat, keeps; intros;
  unfold maybeBumpStats, record_sample, traceReaderFlow, bumpHistograms,
    updateShouldTrack, onSettingsUpdated;
  cbv zeta;
  repeat match goal with
         | |- context [if ?c then _ else _] => destruct c
         | |- context [match estimateTimeLag ?e ?t with _ => _ end] =>
             destruct (estimateTimeLag e t)
         end;
  reflexivity.

Lemma updateTimeLagging_keeps_stuck_inputs (e : Env) (st : Status) :
  sat (keeps stuck_inputs) (updateTimeLagging e st).
Proof.
  apply carry_updateTimeLagging;
    [apply keeps_compositional | keeps_leaf ..].
Qed.

Lemma state_to_report_ext (e : Env) (force : bool) (t1 t2 : Fields) :
  health_inputs t1 = health_inputs t2 ->
  state_to_report e force t1 = state_to_report e force t2.
Proof.
  unfold health_inputs. intros [= H1 H2 H3 H4].
  unfold state_to_report, estimateTailLSN. now rewrite H1, H2, H3, H4.
Qed.

Lemma maybeBumpStats_up_to_date (e : Env) (t : Fields) :
  up_to_date e (fst (maybeBumpStats e false t)).
Proof. rewrite maybeBumpStats_fst. reflexivity. Qed.

Lemma andThen_fst (a b : M) (t : Fields) :
  fst (andThen a b t) = fst (b (fst (a t))).
Proof. now rewrite andThen_run. Qed.

Lemma updateTimeLagging_up_to_date (e : Env) (st : Status) (t : Fields) :
  up_to_date e t -> up_to_date e (fst (updateTimeLagging e st t)).
Proof.
  intro Hup. unfold updateTimeLagging.
  destruct (cur_ts_lag e st t) as [cur|]; [|exact Hup].
  rewrite andThen_fst. cbn [modify fst].
  destruct (negb (should_track_ _)).
  - rewrite andThen_fst. apply maybeBumpStats_up_to_date.
  - rewrite !andThen_fst. apply maybeBumpStats_up_to_date.
Qed.

Lemma traceReaderFlow_keeps_health (e : Env) (b r : Z) :
  sat (keeps (fun t => (health_inputs t, last_reported_state_ t,
                        stuck_inputs t)))
    (traceReaderFlow e b r).
Proof. keeps_leaf. Qed.

Lemma up_to_date_ext (e : Env) (t1 t2 : Fields) :
  health_inputs t2 = health_inputs t1 ->
  last_reported_state_ t2 = last_reported_state_ t1 ->
  up_to_date e t1 -> up_to_date e t2.
Proof.
  intros Hh Hl Hup. unfold up_to_date in *.
  rewrite Hl, Hup. now apply state_to_report_ext.
Qed.

(** The fields a completion leaves behind, in terms of [updateTimeStuck]
    run on the tracer with the status stored and the tail info latched. *)
Lemma onSyncSequencerRequestResponse_fields (e : Env) (st : Status)
  (next_lsn : lsn_t) (attrs : option LogTailAttributes) (t : Fields) :
  let latched :=
    match attrs with
    | Some a =>
        if Status_eqb st E_OK
        then Some (mkTailInfo (attr_offsets a) (last_timestamp a)
                     (tail_lsn_approx next_lsn a))
        else latest_tail_info_ t
    | None => latest_tail_info_ t
    end in
  let tail_lsn :=
    match attrs with
    | Some a =>
        if Status_eqb st E_OK then tail_lsn_approx next_lsn a
        else LSN_INVALID
    | None => LSN_INVALID
    end in
  let t' := fst (onSyncSequencerRequestResponse e st next_lsn attrs t) in
  last_sync_seq_request_result_ t' = st
  /\ latest_tail_info_ t' = latched
  /\ last_next_lsn_to_deliver_ t' = next_lsn_to_deliver_ (owner_ e)
  /\ last_time_stuck_ t' = stuck_since e tail_lsn st t
  /\ should_track_ t' = should_track_ t
  /\ up_to_date e t'.
Proof.
  cbv zeta. unfold onSyncSequencerRequestResponse.
  rewrite !andThen_fst. cbn [modify fst].
  set (t1 := set_last_sync_seq_request_result_ st t).
  match goal with
  | |- context [updateTimeLagging e st ?x] => set (t2 := x)
  end.
  assert (H2 :
            last_sync_seq_request_result_ t2 = st
            /\ latest_tail_info_ t2
               = match attrs with
                 | Some a =>
                     if Status_eqb st E_OK
                     then Some (mkTailInfo (attr_offsets a) (last_timestamp a)
                                  (tail_lsn_approx next_lsn a))
                     else latest_tail_info_ t
                 | None => latest_tail_info_ t
                 end
            /\ last_next_lsn_to_deliver_ t2 = next_lsn_to_deliver_ (owner_ e)
            /\ last_time_stuck_ t2
               = stuck_since e
                   match attrs with
                   | Some a =>
                       if Status_eqb st E_OK
                       then tail_lsn_approx next_lsn a
                       else LSN_INVALID
                   | None => LSN_INVALID
                   end st t
            /\ should_track_ t2 = should_track_ t
            /\ up_to_date e t2).
  { subst t2. destruct attrs as [a|]; [destruct (Status_eqb st E_OK) eqn:Eok|].
    - apply Status_eqb_eq in Eok. subst st.
      rewrite andThen_fst. cbn [modify fst].
      fold (tail_lsn_approx next_lsn a).
      match goal with
      | |- context [updateTimeStuck e ?tl ?s ?x] =>
          destruct (updateTimeStuck_fields e tl s x)
            as (F1 & F2 & F3 & F4 & F5 & _ & _ & F8)
      end.
      rewrite F1, F2, F3, F4, F5. repeat split; try reflexivity. exact F8.
    - destruct (updateTimeStuck_fields e LSN_INVALID st t1)
        as (F1 & F2 & F3 & F4 & F5 & _ & _ & F8).
      rewrite F1, F2, F3, F4, F5. repeat split; try reflexivity. exact F8.
    - destruct (updateTimeStuck_fields e LSN_INVALID st t1)
        as (F1 & F2 & F3 & F4 & F5 & _ & _ & F8).
      rewrite F1, F2, F3, F4, F5. repeat split; try reflexivity. exact F8. }
  clearbody t2. destruct H2 as (G1 & G2 & G3 & G4 & G5 & G6).
  pose proof (updateTimeLagging_keeps_stuck_inputs e st t2) as K3.
  pose proof (updateTimeLagging_up_to_date e st t2 G6) as U3.
  set (t3 := fst (updateTimeLagging e st t2)) in *.
  pose proof (traceReaderFlow_keeps_health e
                (num_bytes_delivered_ (owner_ e))
                (num_records_delivered_ (owner_ e)) t3) as K4.
  set (t4 := fst (traceReaderFlow e _ _ t3)) in *.
  unfold keeps in K3, K4.
  assert (Hh : health_inputs t4 = health_inputs t3) by congruence.
  assert (Hl : last_reported_state_ t4 = last_reported_state_ t3)
    by congruence.
  assert (Hs : stuck_inputs t4 = stuck_inputs t2) by congruence.
  assert (U4 : up_to_date e t4).
  { apply (up_to_date_ext e t3); [exact Hh | exact Hl | exact U3]. }
  unfold stuck_inputs in Hs. injection Hs as S1 S2 S3 S4 S5.
  unfold bumpHistograms. cbn [fst].
  repeat split; first [congruence | exact U4].
Qed.


(** X5.  A completion stores its status and the position the reader is at.
    A success that carries tail attributes latches them, with the tail
    position taken from [last_released_real_lsn] or, when that is invalid,
    from [next_lsn - 1]; any other completion keeps the tail info latched
    before, so a failed query never erases it.  When the completion returns
    the reported state is the one computed from the fields it leaves. *)
Theorem completion_latches_tail_info (e : Env) (st : Status)
  (next_lsn : lsn_t) (attrs : option LogTailAttributes) (t : Fields) :
  let t' := fst (onSyncSequencerRequestResponse e st next_lsn attrs t) in
  last_sync_seq_request_result_ t' = st
  /\ last_next_lsn_to_deliver_ t' = next_lsn_to_deliver_ (owner_ e)
  /\ (forall a,
        st = E_OK -> attrs = Some a ->
        latest_tail_info_ t'
        = Some (mkTailInfo (attr_offsets a) (last_timestamp a)
                  (if last_released_real_lsn a =? LSN_INVALID
                   then (next_lsn - 1) mod 2 ^ 64
                   else last_released_real_lsn a)))
  /\ (st <> E_OK \/ attrs = None ->
      latest_tail_info_ t' = latest_tail_info_ t)
  /\ last_reported_state_ t' = state_to_report e false t'.
Proof.
  cbv zeta.
  destruct (onSyncSequencerRequestResponse_fields e st next_lsn attrs t)
    as (H1 & H2 & H3 & _ & _ & H6).
  split; [exact H1|]. split; [exact H3|]. split; [|split; [|exact H6]].
  - intros a -> ->. rewrite H2. cbn [Status_eqb].
    unfold tail_lsn_approx, wrap64.
    now destruct (last_released_real_lsn a =? LSN_INVALID).
  - intros [Hst | ->]; rewrite H2; [|reflexivity].
    destruct attrs; [|reflexivity].
    destruct (Status_eqb st E_OK) eqn:E; [|reflexivity].
    apply Status_eqb_eq in E. contradiction.
Qed.


(** ** The lagging timer *)

Lemma updateTimeLagging_sampled_up_to_date (e : Env) (st : Status)
  (t : Fields) (lag : Z) :
  cur_ts_lag e st t = Some lag ->
  up_to_date e (fst (updateTimeLagging e st t)).
Proof.
  intro Hcur. unfold updateTimeLagging. rewrite Hcur.
  rewrite andThen_fst. cbn [modify fst].
  destruct (negb (should_track_ _)).
  - rewrite andThen_fst. apply maybeBumpStats_up_to_date.
  - rewrite !andThen_fst. apply maybeBumpStats_up_to_date.
Qed.

Lemma no_lagging_report_without_timer (e : Env) (t : Fields) :
  up_to_date e t -> last_time_lagging_ t = TimePoint_max ->
  last_reported_state_ t <> LAGGING.
Proof.
  unfold up_to_date, state_to_report. intros -> ->.
  rewrite Z.eqb_refl. cbn [negb andb].
  destruct (if negb _ then _ else false); [|discriminate].
  destruct (_ && _); discriminate.
Qed.

Lemma updateTimeLagging_untracked (e : Env) (st : Status) (t : Fields)
  (lag : Z) :
  cur_ts_lag e st t = Some lag -> should_track_ t = false ->
  let t' := fst (updateTimeLagging e st t) in
  last_time_lagging_ t' = TimePoint_max
  /\ time_lag_record_ t' = aged (time_lag_record_ t)
  /\ sample_counter_ t' = sample_counter_ t.
Proof.
  intros Hcur Htrack. cbv zeta. unfold updateTimeLagging. rewrite Hcur.
  rewrite andThen_fst. cbn [modify fst].
  change (should_track_ (set_time_lag_record_ (aged (time_lag_record_ t)) t))
    with (should_track_ t).
  rewrite Htrack. cbn [negb]. rewrite andThen_fst. cbn [modify fst].
  rewrite maybeBumpStats_fst. repeat split.
Qed.

(** X7.  When [updateTimeLagging] has no lag sample (no usable tail info,
    and no earlier sample to repeat after a failed query) it returns at once:
    nothing is popped, counted down or emitted.  With a sample, an untracked
    tracer still ages the record but opens no bucket and does not advance
    the sample counter; and whenever the tracer is untracked or the lag is
    at most one tracer period, the lagging timer is cleared and LAGGING is
    not the reported state afterwards. *)
Theorem lagging_timer_cleared (e : Env) (st : Status) (t : Fields) :
  let t' := fst (updateTimeLagging e st t) in
  (cur_ts_lag e st t = None -> updateTimeLagging e st t = (t, []))
  /\ (forall lag,
        cur_ts_lag e st t = Some lag ->
        (should_track_ t = false ->
         time_lag_record_ t' = aged (time_lag_record_ t)
         /\ sample_counter_ t' = sample_counter_ t)
        /\ (should_track_ t = false \/ lag <= tracer_period (params_ t) ->
            last_time_lagging_ t' = TimePoint_max
            /\ last_reported_state_ t' <> LAGGING)).
Proof.
  cbv zeta. split.
  { intro Hcur. unfold updateTimeLagging. now rewrite Hcur. }
  intros lag Hcur.
  pose proof (updateTimeLagging_sampled_up_to_date e st t lag Hcur) as Hup.
  split.
  { intro Htrack.
    now destruct (updateTimeLagging_untracked e st t lag Hcur Htrack)
      as (_ & H2 & H3). }
  intro Hcase.
  assert (Hltl : last_time_lagging_ (fst (updateTimeLagging e st t))
                 = TimePoint_max).
  { destruct (should_track_ t) eqn:Htrack.
    - destruct Hcase as [Hf | Hle]; [discriminate|].
      destruct (updateTimeLagging_tracked e st t lag Hcur Htrack)
        as (_ & _ & _ & Hl).
      destruct (record_sample_tracked e lag
                  (set_time_lag_record_ (aged (time_lag_record_ t)) t) Htrack)
        as (Hpar & _).
      rewrite Hl. unfold is_catching_up. cbv zeta. rewrite Hpar.
      cbn [params_ set_time_lag_record_].
      apply Z.leb_le in Hle. now rewrite Hle.
    - now destruct (updateTimeLagging_untracked e st t lag Hcur Htrack). }
  split; [exact Hltl|].
  now apply (no_lagging_report_without_timer e).
Qed.

(** ** A tick of the timer *)

Lemma unscheduled_compositional : compositional unscheduled.
Proof.
  split; [now split|].
  intros t o1 t1 o2 t2 [F1 P1] [F2 P2]. split; [|congruence].
  now rewrite filter_app, F1, F2.
Qed.

Ltac unscheduled_leaf :=
  unfold sat, unscheduled; intros;
  unfold maybeBumpStats, record_sample, traceReaderFlow, bumpHistograms,
    updateShouldTrack, updateCountersForState;
  cbv zeta;
  repeat match goal with
         | |- context [if ?c then _ else _] => destruct c
         | |- context [match estimateTimeLag ?e ?t with _ => _ end] =>
             destruct (estimateTimeLag e t)
         end;
  split; reflexivity.

Lemma unscheduled_onSyncSequencerRequestResponse (e : Env) (st : Status)
  (next_lsn : lsn_t) (attrs : option LogTailAttributes) :
  sat unscheduled (onSyncSequencerRequestResponse e st next_lsn attrs).
Proof.
  apply carry_onSyncSequencerRequestResponse;
    [apply unscheduled_compositional | unscheduled_leaf ..].
Qed.

Lemma unscheduled_updateShouldTrack (e : Env) :
  sat unscheduled (updateShouldTrack e).
Proof. unscheduled_leaf. Qed.

Lemma unscheduled_maybeBumpStats (e : Env) (force : bool) :
  sat unscheduled (maybeBumpStats e force).
Proof. unscheduled_leaf. Qed.

(** X8.  Every tick posts exactly one tail query, with the tracer period as
    its timeout, and then arms the timer again for one period; nothing else
    in the tick posts a request or touches the timer, whether or not the
    request could be posted.  If it could not, the tick has run the
    completion itself with [E::NOBUFS].  After the tick [should_track_] is
    the tracking gate and the reported state is the one computed from the
    fields. *)
Theorem one_request_per_tick (e : Env) (post_ok : bool) (t : Fields) :
  let r := onTimerTriggered e post_ok t in
  filter is_scheduling (snd r)
  = [postRequest (tracer_period (params_ t))
       (client_readers_flow_tracer_GSS_skip_remote_preemption_checks
          (settings e));
     timer_activate (tracer_period (params_ t))]
  /\ timer_active_ (fst r) = true
  /\ params_ (fst r) = params_ t
  /\ (post_ok = false -> last_sync_seq_request_result_ (fst r) = E_NOBUFS)
  /\ (post_ok = true ->
      last_sync_seq_request_result_ (fst r) = last_sync_seq_request_result_ t)
  /\ should_track_ (fst r)
     = tracking_gate e (ignore_overload (params_ t))
  /\ last_reported_state_ (fst r) = state_to_report e false (fst r).
Proof.
  cbv zeta. unfold onTimerTriggered, sendSyncSequencerRequest.
  rewrite !andThen_run. cbn [fst snd app].
  set (m := if negb post_ok
            then onSyncSequencerRequestResponse e E_NOBUFS LSN_INVALID None
            else skip).
  assert (Hm : unscheduled t (snd (m t)) (fst (m t))).
  { subst m. destruct post_ok; cbn [negb].
    - apply (sat_skip _ unscheduled_compositional).
    - apply unscheduled_onSyncSequencerRequestResponse. }
  assert (Hres : last_sync_seq_request_result_ (fst (m t))
                 = if post_ok then last_sync_seq_request_result_ t
                   else E_NOBUFS).
  { subst m. destruct post_ok; cbn [negb]; [reflexivity|].
    now destruct (onSyncSequencerRequestResponse_fields e E_NOBUFS
                    LSN_INVALID None t) as (H1 & _). }
  set (t1 := fst (m t)) in *.
  destruct Hm as [F1 P1].
  destruct (unscheduled_updateShouldTrack e t1) as [F2 P2].
  pose proof (updateShouldTrack_run e t1) as Hrun. cbv zeta in Hrun.
  assert (Hgate : should_track_ (fst (updateShouldTrack e t1))
                  = tracking_gate e (ignore_overload (params_ t1))).
  { rewrite Hrun. cbn [fst].
    destruct (estimateTimeLag e t1); [|reflexivity].
    destruct (cb_empty _); [reflexivity|].
    destruct (_ && _); [reflexivity|]. now destruct (_ && _). }
  assert (Hres2 : last_sync_seq_request_result_ (fst (updateShouldTrack e t1))
                  = last_sync_seq_request_result_ t1).
  { rewrite Hrun. cbn [fst].
    destruct (estimateTimeLag e t1); [|reflexivity].
    destruct (cb_empty _); [reflexivity|].
    destruct (_ && _); [reflexivity|]. now destruct (_ && _). }
  set (t2 := fst (updateShouldTrack e t1)) in *.
  destruct (unscheduled_maybeBumpStats e false t2) as [F3 P3].
  rewrite maybeBumpStats_fst in P3 |- *.
  cbn [filter is_scheduling].
  rewrite !filter_app, F1, F2, F3. cbn [app filter is_scheduling].
  cbn [timer_active_ params_ last_sync_seq_request_result_ should_track_
         last_reported_state_ set_timer_active_ set_last_reported_state_]
    in P3 |- *.
  assert (Hpar : params_ t2 = params_ t) by congruence.
  rewrite Hgate, Hres2, Hres, Hpar, P1.
  repeat split; try reflexivity.
  - now intros ->.
  - now intros ->.
Qed.

(** ** Settings updates *)

Lemma set_params_same (t : Fields) : set_params_ (params_ t) t = t.
Proof. now destruct t. Qed.

Lemma set_timer_active_same (t : Fields) :
  set_timer_active_ (timer_active_ t) t = t.
Proof. now destruct t. Qed.

(** X9.  [onSettingsUpdated] latches the tracer period and keeps the two
    flags of the tracer.  The timer ends up active exactly when the period is
    not zero: it is activated (with no delay) only if it was idle, and
    cancelled only if it was running.  The lag record gets the configured
    capacity; when that shrinks the record, the oldest buckets are the ones
    kept.  A second update under the same settings changes nothing and
    emits nothing. *)
Theorem settings_update (e : Env) (t : Fields) :
  let period := client_readers_flow_tracer_period (settings e) in
  let len :=
    client_readers_flow_tracer_lagging_metric_num_sample_groups (settings e)
  in
  let t' := fst (onSettingsUpdated e t) in
  params_ t'
  = mkParams period (push_samples (params_ t)) (ignore_overload (params_ t))
  /\ timer_active_ t' = negb (period =? 0)
  /\ snd (onSettingsUpdated e t)
     = (if negb (period =? 0) && negb (timer_active_ t)
        then [timer_activate 0]
        else if (period =? 0) && timer_active_ t then [timer_cancel]
             else [])
  /\ capacity (time_lag_record_ t') = len
  /\ items (time_lag_record_ t')
     = (if len =? capacity (time_lag_record_ t)
        then items (time_lag_record_ t)
        else firstn (Z.to_nat len) (items (time_lag_record_ t)))
  /\ onSettingsUpdated e t' = (t', []).
Proof.
  cbv zeta.
  assert (H : forall f,
             let period := client_readers_flow_tracer_period (settings e) in
             let len :=
               client_readers_flow_tracer_lagging_metric_num_sample_groups
                 (settings e) in
             let f' := fst (onSettingsUpdated e f) in
             params_ f'
             = mkParams period (push_samples (params_ f))
                 (ignore_overload (params_ f))
             /\ timer_active_ f' = negb (period =? 0)
             /\ snd (onSettingsUpdated e f)
                = (if negb (period =? 0) && negb (timer_active_ f)
                   then [timer_activate 0]
                   else if (period =? 0) && timer_active_ f
                        then [timer_cancel] else [])
             /\ capacity (time_lag_record_ f') = len
             /\ items (time_lag_record_ f')
                = (if len =? capacity (time_lag_record_ f)
                   then items (time_lag_record_ f)
                   else firstn (Z.to_nat len) (items (time_lag_record_ f)))).
  { intro f. cbv zeta. unfold onSettingsUpdated. cbv zeta.
    cbn [timer_active_ set_params_ time_lag_record_].
    destruct (client_readers_flow_tracer_period (settings e) =? 0);
      destruct (timer_active_ f) eqn:Ea; cbn [negb andb];
      cbn [time_lag_record_ set_timer_active_ set_params_];
      destruct (_ =? capacity (time_lag_record_ f)) eqn:Ec;
      cbn [negb fst snd params_ timer_active_ time_lag_record_
             set_time_lag_record_ set_timer_active_ set_params_
             cb_set_capacity capacity items];
      repeat split; try assumption; try (symmetry; now apply Z.eqb_eq). }
  destruct (H t) as (H1 & H2 & H3 & H4 & H5).
  repeat (split; [assumption|]).
  set (t' := fst (onSettingsUpdated e t)) in *.
  destruct (H t') as (_ & _ & G3 & _ & _).
  rewrite (surjective_pairing (onSettingsUpdated e t')). f_equal.
  - unfold onSettingsUpdated. cbv zeta.
    assert (Hp : mkParams (client_readers_flow_tracer_period (settings e))
                   (push_samples (params_ t')) (ignore_overload (params_ t'))
                 = params_ t') by (now rewrite H1).
    rewrite Hp, set_params_same, H2.
    destruct (client_readers_flow_tracer_period (settings e) =? 0);
      cbn [negb]; rewrite H4, Z.eqb_refl; reflexivity.
  - rewrite G3, H2.
    now destruct (client_readers_flow_tracer_period (settings e) =? 0).
Qed.

(** The lag record after a settings update. *)
Lemma settings_update_fields (e : Env) (t : Fields) :
  let len :=
    client_readers_flow_tracer_lagging_metric_num_sample_groups (settings e)
  in
  let t' := fst (onSettingsUpdated e t) in
  capacity (time_lag_record_ t') = len
  /\ items (time_lag_record_ t')
     = (if len =? capacity (time_lag_record_ t)
        then items (time_lag_record_ t)
        else firstn (Z.to_nat len) (items (time_lag_record_ t))).
Proof.
  cbv zeta. unfold onSettingsUpdated. cbv zeta.
  cbn [timer_active_ set_params_ time_lag_record_].
  destruct (client_readers_flow_tracer_period (settings e) =? 0);
    destruct (timer_active_ t); cbn [negb andb];
    cbn [time_lag_record_ set_timer_active_ set_params_];
    destruct (_ =? capacity (time_lag_record_ t)) eqn:Ec;
    cbn [negb fst snd params_ timer_active_ time_lag_record_
           set_time_lag_record_ set_timer_active_ set_params_
           cb_set_capacity capacity items];
    repeat split; try assumption; try (symmetry; now apply Z.eqb_eq).
Qed.

(** A settings update does nothing but arm or cancel the timer. *)
Lemma settings_update_effects (e : Env) (t : Fields) :
  Forall (fun x => x = timer_activate 0 \/ x = timer_cancel)
    (snd (onSettingsUpdated e t)).
Proof.
  unfold onSettingsUpdated. cbv zeta.
  repeat match goal with
         | |- context [if ?c then _ else _] => destruct c
         end;
    cbn [snd];
    repeat (apply Forall_cons; [auto|]); apply Forall_nil.
Qed.

(** ** Histograms, samples and their weight *)

(** X10.  [bumpHistograms] changes no field and touches nothing but the two
    histograms.  It always records one value for the time stuck, which is
    never negative and is zero while the stuck timer is unset (the clock is
    below [TimePoint::max()]); it records a time lag, in microseconds and
    never negative, exactly when [estimateTimeLag] has an estimate.  Both
    carry the stream's monitoring tags. *)
Theorem histograms_report (e : Env) (t : Fields) :
  let o := snd (bumpHistograms e t) in
  let tags := monitoring_tags_ (owner_ e) in
  fst (bumpHistograms e t) = t
  /\ (exists time_stuck,
        0 <= time_stuck
        /\ (last_time_stuck_ t = TimePoint_max -> now e <= TimePoint_max ->
            time_stuck = 0)
        /\ (last_time_stuck_ t <= now e ->
            time_stuck = (now e - last_time_stuck_ t) * 1000)
        /\ o = TAGGED_HISTOGRAM_ADD hist_time_stuck tags time_stuck
               :: match estimateTimeLag e t with
                  | Some lag => [TAGGED_HISTOGRAM_ADD hist_time_lag tags
                                   (lag * 1000)]
                  | None => []
                  end)
  /\ Forall (fun x => match x with
                      | TAGGED_HISTOGRAM_ADD _ tg v => tg = tags /\ 0 <= v
                      | _ => False
                      end) o.
Proof.
  cbv zeta. unfold bumpHistograms. cbn [fst snd].
  assert (Hlag : forall lag, estimateTimeLag e t = Some lag -> 0 <= lag).
  { unfold estimateTimeLag. intros lag.
    destruct (latest_tail_info_ t) as [info|]; [|discriminate].
    destruct (_ <? _); [intros [= <-]; lia|].
    destruct (0 <? _); [intros [= <-]; lia | discriminate]. }
  split; [reflexivity|]. split.
  - exists (Z.max (usec_since e (last_time_stuck_ t)) 0).
    unfold usec_since. repeat split; lia.
  - apply Forall_cons; [split; [reflexivity | lia]|].
    destruct (estimateTimeLag e t) as [lag|]; [|constructor].
    apply Forall_cons; [|constructor].
    split; [reflexivity|]. specialize (Hlag lag eq_refl). lia.
Qed.

(** X11.  The sampling weight is the unhealthy weight of the settings exactly
    when the reported state is not HEALTHY or the lag estimate exceeds the
    threshold the settings give one of the stream's monitoring tags, and 1
    otherwise.  So a stuck reader always gets the unhealthy weight, and a
    healthy reader with no lag estimate, no tags or no thresholds gets
    weight 1. *)
Theorem sampling_weight_cases (e : Env) (t : Fields) :
  let thresholds :=
    client_readers_flow_max_acceptable_time_lag_per_tag (settings e) in
  let lag_above_threshold :=
    exists lag tag threshold,
      estimateTimeLag e t = Some lag
      /\ In tag (monitoring_tags_ (owner_ e))
      /\ threshold_map_at tag thresholds = Some threshold
      /\ threshold < lag in
  (readerIsUnhealthy e t = true
   <-> last_reported_state_ t <> HEALTHY \/ lag_above_threshold)
  /\ calculateSamplingWeight e t
     = (if readerIsUnhealthy e t
        then client_readers_flow_tracer_unhealthy_publish_weight (settings e)
        else 1%Q)
  /\ (readerIsStuck t = true -> readerIsUnhealthy e t = true)
  /\ (last_reported_state_ t = HEALTHY ->
      estimateTimeLag e t = None \/ monitoring_tags_ (owner_ e) = []
      \/ thresholds = [] ->
      calculateSamplingWeight e t = 1%Q).
Proof.
  cbv zeta.
  assert (Hiff :
            readerIsUnhealthy e t = true
            <-> last_reported_state_ t <> HEALTHY
                \/ (exists lag tag threshold,
                      estimateTimeLag e t = Some lag
                      /\ In tag (monitoring_tags_ (owner_ e))
                      /\ threshold_map_at tag
                           (client_readers_flow_max_acceptable_time_lag_per_tag
                              (settings e)) = Some threshold
                      /\ threshold < lag)).
  { unfold readerIsUnhealthy. cbv zeta.
    rewrite orb_true_iff, negb_true_iff.
    assert (Hs : State_eqb (last_reported_state_ t) HEALTHY = false
                 <-> last_reported_state_ t <> HEALTHY).
    { destruct (last_reported_state_ t); simpl; split; congruence. }
    rewrite Hs.
    apply or_iff_compat_l.
    destruct (estimateTimeLag e t) as [lag|].
    - rewrite existsb_exists. split.
      + intros (tag & Hin & Hth).
        destruct (threshold_map_at tag _) as [threshold|] eqn:Et;
          [|discriminate].
        exists lag, tag, threshold. apply Z.ltb_lt in Hth. auto.
      + intros (lag' & tag & threshold & [= <-] & Hin & Et & Hlt).
        exists tag. split; [exact Hin|]. rewrite Et. now apply Z.ltb_lt.
    - split; [discriminate|]. intros (? & ? & ? & H & _). discriminate. }
  split; [exact Hiff|]. split; [reflexivity|]. split.
  - intro Hstuck. apply Hiff. left. unfold readerIsStuck in Hstuck.
    apply orb_true_iff in Hstuck.
    destruct Hstuck as [H | H]; apply State_eqb_eq in H; rewrite H;
      discriminate.
  - intros Hh Hnone. unfold calculateSamplingWeight.
    destruct (readerIsUnhealthy e t) eqn:Eu; [|reflexivity].
    destruct (proj1 Hiff eq_refl) as [Hne | (lag & tag & threshold & El & Hin & Et & _)];
      [contradiction|].
    destruct Hnone as [H | [H | H]].
    + congruence.
    + rewrite H in Hin. destruct Hin.
    + rewrite H in Et. discriminate.
Qed.

(** X12.  [traceReaderFlow] does nothing on a tracer that does not push
    samples.  Otherwise it publishes exactly one sample and remembers the
    two counters and the steady clock it was called with; nothing the health
    state is computed from changes.  The sample shows the state last
    reported, names the node waited for only when that state is a stuck one,
    carries the new moving averages and non-negative times, and is weighted
    by [calculateSamplingWeight].  A trace that follows at once, with the
    same counters and clock, feeds both averages the sample 0 over the time
    0. *)
Theorem trace_sample_contents (e : Env) (b r : Z) (t : Fields) :
  let t' := fst (traceReaderFlow e b r t) in
  let o := snd (traceReaderFlow e b r t) in
  (push_samples (params_ t) = false -> t' = t /\ o = [])
  /\ (push_samples (params_ t) = true ->
      (exists sample,
         o = [publish sample (calculateSamplingWeight e t)]
         /\ smp_state sample = toString (last_reported_state_ t)
         /\ smp_waiting_for_node sample
            = (if readerIsStuck t then waitingForNodeStr (owner_ e)
               else EmptyString)
         /\ smp_timestamp_lagged sample = estimateTimeLag e t
         /\ smp_bytes_lagged sample = estimateByteLag e t
         /\ 0 <= smp_time_stuck sample /\ 0 <= smp_time_lagging sample
         /\ smp_reading_speed_records sample = speed_records_moving_avg_ t'
         /\ smp_reading_speed_bytes sample = speed_bytes_moving_avg_ t')
      /\ last_num_bytes_read_ t' = b
      /\ last_num_records_read_ t' = r
      /\ last_trace_time_ t' = steady_now e
      /\ speed_records_moving_avg_ t'
         = updateExponentialMovingAverage (speed_records_moving_avg_ t)
             (wrap64 (r - last_num_records_read_ t))
             (steady_now e - last_trace_time_ t)
      /\ speed_bytes_moving_avg_ t'
         = updateExponentialMovingAverage (speed_bytes_moving_avg_ t)
             (wrap64 (b - last_num_bytes_read_ t))
             (steady_now e - last_trace_time_ t)
      /\ health_inputs t' = health_inputs t
      /\ last_reported_state_ t' = last_reported_state_ t
      /\ time_lag_record_ t' = time_lag_record_ t
      /\ params_ t' = params_ t
      /\ (let t'' := fst (traceReaderFlow e b r t') in
          speed_records_moving_avg_ t''
          = updateExponentialMovingAverage (speed_records_moving_avg_ t')
              0 0
          /\ speed_bytes_moving_avg_ t''
             = updateExponentialMovingAverage (speed_bytes_moving_avg_ t')
                 0 0)).
Proof.
  cbv zeta. unfold traceReaderFlow. split.
  - intros ->. cbn [negb fst snd]. split; reflexivity.
  - intros Hp. rewrite Hp. cbn [negb fst snd]. split.
    + eexists. split; [reflexivity|].
      unfold sample_builder.
      cbn [smp_state smp_waiting_for_node smp_timestamp_lagged
             smp_bytes_lagged smp_time_stuck smp_time_lagging
             smp_reading_speed_records smp_reading_speed_bytes].
      repeat split; try lia.
    + cbn. rewrite Hp. cbn. rewrite !Z.sub_diag.
      repeat split; reflexivity.
Qed.

(** X13.  [toString] tells the four states apart, while
    [lastReportedStatePretty] shows both stuck states as "stuck": it answers
    "stuck" exactly when [readerIsStuck] holds, and two tracers get the same
    pretty state exactly when they report the same state or are both
    stuck. *)
Theorem pretty_state_merges_stuck_states (t1 t2 : Fields) :
  (toString (last_reported_state_ t1) = toString (last_reported_state_ t2)
   <-> last_reported_state_ t1 = last_reported_state_ t2)
  /\ (lastReportedStatePretty t1 = "stuck"%string
      <-> readerIsStuck t1 = true)
  /\ (lastReportedStatePretty t1 = lastReportedStatePretty t2
      <-> last_reported_state_ t1 = last_reported_state_ t2
          \/ (readerIsStuck t1 = true /\ readerIsStuck t2 = true)).
Proof.
  unfold lastReportedStatePretty, readerIsStuck.
  destruct (last_reported_state_ t1), (last_reported_state_ t2); cbn;
    repeat split; intros; try discriminate; try reflexivity; auto;
    match goal with
    | H : _ \/ _ |- _ => destruct H as [H | [H1 H2]]; discriminate
    end.
Qed.

(** ** Invariants, event by event *)

Section EventInvariant.
Variables I1 I2 : Fields -> Prop.
Variables P1 P2 : Effect -> Prop.

Lemma inv_step_method (e : Env) (ev : Event) (t : ClientReadersFlowTracer) :
  sat (inv_rel I1 P1) (method_of e ev) ->
  sat (inv_rel I2 P2) (method_of e ev) ->
  inv_pair I1 I2 t ->
  inv_pair I1 I2 (fst (step e ev t))
  /\ Forall (fun x => P1 x \/ P2 x) (snd (step e ev t)).
Proof.
  intros H1 H2 Ht.
  destruct ev; cbn [step method_of] in *;
    first [ now apply inv_forwarded | now apply inv_on_target ].
Qed.

Lemma inv_run_methods (evs : list (Env * Event))
  (t : ClientReadersFlowTracer) :
  Forall (fun x => sat (inv_rel I1 P1) (method_of (fst x) (snd x))
                   /\ sat (inv_rel I2 P2) (method_of (fst x) (snd x))) evs ->
  inv_pair I1 I2 t ->
  inv_pair I1 I2 (fst (run evs t))
  /\ Forall (fun x => P1 x \/ P2 x) (snd (run evs t)).
Proof.
  intro Hevs. revert t.
  induction Hevs as [|[e ev] rest [He1 He2] _ IH]; intros t Ht.
  - simpl. split; [exact Ht | constructor].
  - rewrite run_cons. simpl.
    destruct (inv_step_method e ev t He1 He2 Ht) as [Ht1 Ho1].
    destruct (IH _ Ht1) as [Ht2 Ho2].
    split; [exact Ht2 | now apply Forall_app].
Qed.

(** The same invariant for a tracer and its shadow, from construction to
    destruction. *)
Lemma inv_lifetime (e0 : Env) (push io : bool) (d : MemberDefaults)
  (evs : list (Env * Event)) (e_end : Env) :
  I1 (initial_fields push io d) -> I2 (initial_fields false true d) ->
  sat (inv_rel I1 P1) (onSettingsUpdated e0) ->
  sat (inv_rel I2 P2) (onSettingsUpdated e0) ->
  Forall (fun x => sat (inv_rel I1 P1) (method_of (fst x) (snd x))
                   /\ sat (inv_rel I2 P2) (method_of (fst x) (snd x))) evs ->
  sat (inv_rel I1 P1) (maybeBumpStats e_end true) ->
  sat (inv_rel I2 P2) (maybeBumpStats e_end true) ->
  inv_pair I1 I2 (fst (run evs (fst (construct e0 push io d))))
  /\ Forall (fun x => P1 x \/ P2 x) (lifetime e0 push io d evs e_end).
Proof.
  intros Hi1 Hi2 Hs1 Hs2 Hevs Hd1 Hd2.
  destruct (Hs1 _ Hi1) as [Hb1 Ho1]. destruct (Hs2 _ Hi2) as [Hb2 Ho2].
  assert (Hbuilt : inv_pair I1 I2 (fst (construct e0 push io d))
                   /\ Forall (fun x => P1 x \/ P2 x)
                        (snd (construct e0 push io d))).
  { rewrite construct_run. cbn [fst snd]. split.
    - split; cbn [self tracer_ignoring_overload_]; [exact Hb1|].
      destruct io; cbn [negb]; [exact I | exact Hb2].
    - apply Forall_app. split.
      + eapply Forall_impl; [|exact Ho1]. auto.
      + destruct io; cbn [negb]; [constructor|].
        eapply Forall_impl; [|exact Ho2]. auto. }
  destruct Hbuilt as [Hbuilt Ho0].
  destruct (inv_run_methods evs _ Hevs Hbuilt) as [Hrun Horun].
  split; [exact Hrun|].
  unfold lifetime.
  destruct (construct e0 push io d) as [t0 o0]. cbn [fst snd] in *.
  destruct (run evs t0) as [t1 o1]. cbn [fst snd] in *.
  apply Forall_app; split; [exact Ho0|].
  apply Forall_app; split; [exact Horun|].
  unfold destroy. destruct Hrun as [Hself Hshadow].
  apply Forall_app; split.
  - destruct (Hd1 _ Hself) as [_ Ho]. eapply Forall_impl; [|exact Ho]. auto.
  - destruct (tracer_ignoring_overload_ t1) as [shadow|]; [|constructor].
    destruct (Hd2 _ Hshadow) as [_ Ho]. eapply Forall_impl; [|exact Ho]. auto.
Qed.

End EventInvariant.

Lemma entry_points_method (R : Rel) (e : Env) (ev : Event) :
  entry_points R e -> sat R (method_of e ev).
Proof.
  intros (S & T & Q & U). destruct ev; cbn [method_of]; auto.
Qed.

(** ** Which tracer has a shadow *)

Lemma has_shadow_on_self (m : M) (t : ClientReadersFlowTracer) :
  has_shadow (fst (on_self m t)) = has_shadow t.
Proof. unfold on_self. now destruct (m (self t)). Qed.

Lemma has_shadow_on_shadow (m : M) (t : ClientReadersFlowTracer) :
  has_shadow (fst (on_shadow m t)) = has_shadow t.
Proof.
  unfold on_shadow, has_shadow.
  destruct (tracer_ignoring_overload_ t) as [s|] eqn:E; cbn.
  - now destruct (m s).
  - now rewrite E.
Qed.

Lemma has_shadow_step (e : Env) (ev : Event) (t : ClientReadersFlowTracer) :
  has_shadow (fst (step e ev t)) = has_shadow t.
Proof.
  assert (Hf : forall m, has_shadow (fst (forwarded m t)) = has_shadow t).
  { intro m. rewrite forwarded_run. cbn [fst].
    now rewrite has_shadow_on_shadow, has_shadow_on_self. }
  destruct ev; cbn [step]; try apply Hf;
    destruct who; cbn [on_target];
    first [apply has_shadow_on_self | apply has_shadow_on_shadow].
Qed.

Lemma has_shadow_run (evs : list (Env * Event)) (t : ClientReadersFlowTracer) :
  has_shadow (fst (run evs t)) = has_shadow t.
Proof.
  revert t. induction evs as [|[e ev] rest IH]; intro t; [reflexivity|].
  rewrite run_cons. cbn [fst]. now rewrite IH, has_shadow_step.
Qed.

Lemma has_shadow_construct (e : Env) (push io : bool) (d : MemberDefaults) :
  has_shadow (fst (construct e push io d)) = negb io.
Proof. rewrite construct_run. now destruct io. Qed.

(** ** The two variants of the counters *)

Lemma plain_of_variant (p io : bool) (t t' : Fields) (o : list Effect) :
  plain t o t' ->
  inv_rel (fun t => flags t = (p, io)) (of_variant io) t o t'.
Proof.
  intros (Hp & Hi & _ & _ & Hq) Ht. unfold flags in *.
  split; [congruence|].
  eapply Forall_impl; [|exact Hq].
  intros x [Hs _]. destruct x; simpl in *; try exact I; discriminate.
Qed.

Lemma of_variant_maybeBumpStats (p io : bool) (e : Env) (force : bool) :
  sat (inv_rel (fun t => flags t = (p, io)) (of_variant io))
    (maybeBumpStats e force).
Proof.
  intros t Ht. unfold flags in *.
  assert (Hio : ignore_overload (params_ t) = io) by congruence.
  unfold maybeBumpStats. cbv zeta.
  destruct (negb _); cbn [fst snd]; [|split; [exact Ht | constructor]].
  split; [exact Ht|]. rewrite Hio.
  generalize (state_to_report e force t), (last_reported_state_ t).
  intros new old.
  destruct new, old, io; simpl;
    repeat (apply Forall_cons; [simpl; auto|]); apply Forall_nil.
Qed.

Lemma of_variant_traceReaderFlow (p io : bool) (e : Env) (b r : Z) :
  sat (inv_rel (fun t => flags t = (p, io)) (of_variant io))
    (traceReaderFlow e b r).
Proof.
  intros t Ht. unfold traceReaderFlow.
  destruct (negb _); cbn [fst snd]; [split; [exact Ht | constructor]|].
  split; [exact Ht|]. repeat constructor.
Qed.

Ltac of_variant_leaf :=
  first
    [ apply of_variant_maybeBumpStats
    | apply of_variant_traceReaderFlow
    | unfold sat; intros; apply plain_of_variant;
      first
        [ apply plain_record_sample
        | apply plain_bumpHistograms
        | apply plain_updateShouldTrack
        | apply plain_onSettingsUpdated
        | plain_leaf ] ].

Lemma of_variant_entry_points (p io : bool) (e : Env) :
  entry_points (inv_rel (fun t => flags t = (p, io)) (of_variant io)) e.
Proof.
  split; [|split; [|split]].
  - intro t. of_variant_leaf.
  - intro post_ok. apply carry_onTimerTriggered;
      [apply inv_rel_compositional | intros; of_variant_leaf ..].
  - intros st next_lsn attrs. apply carry_onSyncSequencerRequestResponse;
      [apply inv_rel_compositional | intros; of_variant_leaf ..].
  - intro t. of_variant_leaf.
Qed.

(** X14.  Through every history, a tracer keeps the two flags it was built
    with; it has a shadow exactly when it does not ignore overload itself,
    and the shadow never pushes samples and always ignores overload.  In
    the effects of a whole lifetime, every untagged delta goes to one of the
    three counters that ignore overload and every tagged delta to one of the
    other four; a tracer built to ignore overload emits no tagged delta at
    all. *)
Theorem two_tracers_two_variants (e0 : Env)
  (push_samples ignore_overload : bool) (d : MemberDefaults)
  (evs : list (Env * Event)) (e_end : Env) :
  let t :=
    fst (run evs (fst (construct e0 push_samples ignore_overload d))) in
  let o := lifetime e0 push_samples ignore_overload d evs e_end in
  flags (self t) = (push_samples, ignore_overload)
  /\ option_map flags (tracer_ignoring_overload_ t)
     = (if ignore_overload then None else Some (false, true))
  /\ Forall (fun x =>
               match x with
               | WORKER_STAT_ADD name _ =>
                   ignoring_overload_counter name = true
               | TAGGED_STAT_ADD _ name _ =>
                   ignoring_overload_counter name = false
               | _ => True
               end) o
  /\ (ignore_overload = true ->
      Forall (fun x => match x with
                       | TAGGED_STAT_ADD _ _ _ => False
                       | _ => True
                       end) o).
Proof.
  cbv zeta.
  destruct (inv_lifetime
              (fun t => flags t = (push_samples, ignore_overload))
              (fun t => flags t = (false, true))
              (of_variant ignore_overload) (of_variant true)
              e0 push_samples ignore_overload d evs e_end)
    as [[Hself Hshadow] Ho]; try reflexivity;
    try apply of_variant_maybeBumpStats;
    try (apply (entry_points_method _ e0 SettingsUpdated);
         apply of_variant_entry_points).
  { apply Forall_forall. intros [e ev] _.
    split; apply entry_points_method, of_variant_entry_points. }
  split; [exact Hself|]. split; [|split].
  - pose proof (has_shadow_run evs
                  (fst (construct e0 push_samples ignore_overload d)))
      as Hhas.
    rewrite has_shadow_construct in Hhas. unfold has_shadow in Hhas.
    destruct (tracer_ignoring_overload_ _) as [shadow|];
      destruct ignore_overload; try discriminate; [|reflexivity].
    cbn [option_map]. now rewrite Hshadow.
  - eapply Forall_impl; [|exact Ho].
    intros x [H | H]; destruct x; simpl in *; try exact I; apply H.
  - intros ->. eapply Forall_impl; [|exact Ho].
    intros x [H | H]; destruct x; simpl in *; try exact I;
      destruct H; discriminate.
Qed.

(** The flags of a tracer and of its shadow, at any point of a history. *)
Lemma flags_after_run (e0 : Env) (push io : bool) (d : MemberDefaults)
  (evs : list (Env * Event)) :
  let t := fst (run evs (fst (construct e0 push io d))) in
  flags (self t) = (push, io)
  /\ option_map flags (tracer_ignoring_overload_ t)
     = (if io then None else Some (false, true)).
Proof.
  cbv zeta.
  destruct (inv_lifetime
              (fun t => flags t = (push, io))
              (fun t => flags t = (false, true))
              (of_variant io) (of_variant true)
              e0 push io d evs e0)
    as [[Hself Hshadow] _]; try reflexivity;
    try apply of_variant_maybeBumpStats;
    try (apply (entry_points_method _ e0 SettingsUpdated);
         apply of_variant_entry_points).
  { apply Forall_forall. intros [e ev] _.
    split; apply entry_points_method, of_variant_entry_points. }
  split; [exact Hself|].
  pose proof (has_shadow_run evs (fst (construct e0 push io d))) as Hhas.
  rewrite has_shadow_construct in Hhas. unfold has_shadow in Hhas.
  destruct (tracer_ignoring_overload_ _) as [shadow|];
    destruct io; try discriminate; [|reflexivity].
  cbn [option_map]. now rewrite Hshadow.
Qed.

(** ** The size of the lag record *)

Lemma update_last_length (f : TimeLagBucket -> TimeLagBucket)
  (l : list TimeLagBucket) :
  List.length (update_last f l) = List.length l.
Proof.
  induction l as [|s r IH]; [reflexivity|].
  destruct r as [|s' r']; [reflexivity|].
  change (update_last f (s :: s' :: r')) with (s :: update_last f (s' :: r')).
  cbn [List.length]. now rewrite IH.
Qed.

Lemma pop_old_samples_length (l : list TimeLagBucket) :
  (List.length (pop_old_samples l) <= List.length l)%nat.
Proof.
  induction l as [|s r IH]; [apply Nat.le_refl|].
  cbn [pop_old_samples]. destruct (ttl s =? 0); cbn [List.length]; lia.
Qed.

Lemma within_capacity_same_record (n : Z) (t t' : Fields) :
  time_lag_record_ t' = time_lag_record_ t ->
  within_capacity n t -> within_capacity n t'.
Proof. unfold within_capacity. now intros ->. Qed.

Lemma within_capacity_update_back (n : Z) (d : Z) (t : Fields) :
  within_capacity n t ->
  within_capacity n
    (set_time_lag_record_
       (cb_update_back (add_time_lag_correction d) (time_lag_record_ t)) t).
Proof.
  unfold within_capacity. cbn [time_lag_record_ set_time_lag_record_
                                 cb_update_back items capacity].
  now rewrite update_last_length.
Qed.

Lemma within_capacity_push_back (n : Z) (x : TimeLagBucket) (t : Fields) :
  within_capacity n t ->
  within_capacity n
    (set_time_lag_record_ (cb_push_back x (time_lag_record_ t)) t).
Proof.
  unfold within_capacity. cbn [time_lag_record_ set_time_lag_record_].
  unfold cb_push_back, cb_full, cb_size.
  destruct (time_lag_record_ t) as [c l]. cbn [capacity items].
  intros [Hl Hn].
  destruct (c =? 0) eqn:Ec; [now split|].
  apply Z.eqb_neq in Ec.
  destruct (Z.of_nat (List.length l) =? c) eqn:Ef; cbn [capacity items];
    rewrite length_app; cbn [List.length].
  - apply Z.eqb_eq in Ef. destruct l as [|s r]; cbn [tl List.length] in *; lia.
  - apply Z.eqb_neq in Ef. lia.
Qed.

Lemma within_capacity_record_sample (n : Z) (e : Env) (cur : Z) :
  sat (inv_rel (within_capacity n) anything) (record_sample e cur).
Proof.
  intros t Ht. unfold record_sample. cbv zeta.
  assert (H1 : within_capacity n
                 (set_sample_counter_ (wrap64 (sample_counter_ t + 1)) t))
    by (now apply (within_capacity_same_record n t)).
  destruct (_ =? 0); cbn [fst snd]; [|split; [exact H1 | constructor]].
  destruct (negb (should_track_ _)); cbn [fst snd];
    (split; [|constructor]); apply within_capacity_push_back;
    [now apply within_capacity_update_back | exact H1].
Qed.

Lemma within_capacity_aged (n : Z) (t : Fields) :
  within_capacity n t ->
  within_capacity n (set_time_lag_record_ (aged (time_lag_record_ t)) t).
Proof.
  unfold within_capacity, aged.
  cbn [time_lag_record_ set_time_lag_record_ capacity items].
  rewrite length_map.
  pose proof (pop_old_samples_length (items (time_lag_record_ t))). lia.
Qed.

Lemma within_capacity_updateShouldTrack (n : Z) (e : Env) :
  sat (inv_rel (within_capacity n) anything) (updateShouldTrack e).
Proof.
  intros t Ht. split; [|apply Forall_anything].
  rewrite updateShouldTrack_run. cbv zeta.
  assert (H1 : within_capacity n
                 (set_should_track_
                    (tracking_gate e (ignore_overload (params_ t))) t))
    by (now apply (within_capacity_same_record n t)).
  destruct (estimateTimeLag e t) as [lag|];
    repeat match goal with
           | |- context [if ?c then _ else _] => destruct c
           end;
    cbn [fst]; try exact H1;
    apply (within_capacity_update_back n _ _ H1).
Qed.

Lemma within_capacity_onSettingsUpdated (n : Z) (e : Env) :
  0 <= num_sample_groups e <= n ->
  sat (inv_rel (within_capacity n) anything) (onSettingsUpdated e).
Proof.
  intros Hn t Ht. split; [|apply Forall_anything].
  unfold within_capacity, num_sample_groups in *.
  pose proof (settings_update_fields e t) as H. cbv zeta in H.
  destruct H as (Hc & Hi). rewrite Hc, Hi.
  destruct (_ =? _) eqn:E.
  - apply Z.eqb_eq in E. rewrite E. exact Ht.
  - rewrite length_firstn. lia.
Qed.

Ltac within_capacity_leaf :=
  first
    [ apply within_capacity_record_sample
    | apply within_capacity_updateShouldTrack
    | unfold sat, inv_rel; intros; (split; [|apply Forall_anything]);
      first
        [ now apply within_capacity_aged
        | unfold maybeBumpStats, traceReaderFlow, bumpHistograms; cbv zeta;
          repeat match goal with
                 | |- context [if ?c then _ else _] => destruct c
                 end;
          cbn [fst];
          (eapply within_capacity_same_record; [|eassumption]);
          reflexivity ] ].

Lemma within_capacity_method (n : Z) (e : Env) (ev : Event) :
  0 <= num_sample_groups e <= n ->
  sat (inv_rel (within_capacity n) anything) (method_of e ev).
Proof.
  intro Hn. destruct ev; cbn [method_of];
    try apply within_capacity_updateShouldTrack.
  - now apply within_capacity_onSettingsUpdated.
  - apply carry_onTimerTriggered;
      [apply inv_rel_compositional | intros; within_capacity_leaf ..].
  - apply carry_onSyncSequencerRequestResponse;
      [apply inv_rel_compositional | intros; within_capacity_leaf ..].
Qed.

(** X15.  If the settings every event sees, and those at construction, ask
    for between 0 and [n] sample groups, then through every history the lag
    record of a tracer and of its shadow holds no more buckets than its
    capacity, and that capacity is at most [n]. *)
Theorem lag_record_within_capacity (n : Z) (e0 : Env)
  (push_samples ignore_overload : bool) (d : MemberDefaults)
  (evs : list (Env * Event)) :
  0 <= num_sample_groups e0 <= n ->
  Forall (fun x => 0 <= num_sample_groups (fst x) <= n) evs ->
  let t :=
    fst (run evs (fst (construct e0 push_samples ignore_overload d))) in
  within_capacity n (self t)
  /\ (forall shadow,
        tracer_ignoring_overload_ t = Some shadow ->
        within_capacity n shadow).
Proof.
  intros H0 Hevs. cbv zeta.
  assert (Hinit : forall p i, within_capacity n (initial_fields p i d)).
  { intros p i. unfold within_capacity. cbn. lia. }
  destruct (inv_lifetime (within_capacity n) (within_capacity n)
              anything anything e0 push_samples ignore_overload d evs e0)
    as [[Hself Hshadow] _]; try apply Hinit;
    try (now apply within_capacity_onSettingsUpdated);
    try (intros; within_capacity_leaf).
  { eapply Forall_impl; [|exact Hevs].
    intros [e ev] He. split; now apply within_capacity_method. }
  split; [exact Hself|].
  intros shadow E. now rewrite E in Hshadow.
Qed.

Lemma lag_record_within_capacity_witness :
  Z.of_nat (List.length
              (items (time_lag_record_
                        (self (fst (run (example_growing_lag LSN_MAX)
                                      (fst (construct
                                              (example_env LSN_MAX 5 0)
                                              true false
                                              example_defaults))))))))
  <= 2.
Proof.
  assert (H0 : 0 <= num_sample_groups (example_env LSN_MAX 5 0) <= 2)
    by (vm_compute; split; discriminate).
  assert (Hevs : Forall (fun x => 0 <= num_sample_groups (fst x) <= 2)
                   (example_growing_lag LSN_MAX)).
  { repeat (apply Forall_cons; [vm_compute; split; discriminate|]).
    apply Forall_nil. }
  destruct (lag_record_within_capacity 2 (example_env LSN_MAX 5 0) true
              false example_defaults (example_growing_lag LSN_MAX) H0 Hevs)
    as [[H1 H2] _].
  exact (Z.le_trans _ _ _ H1 H2).
Defined.

(** ** Eviction *)

Lemma pop_old_samples_filter (l : list TimeLagBucket) :
  non_decreasing (map ttl l) ->
  Forall (fun x => 0 <= x < 2 ^ 16) (map ttl l) ->
  pop_old_samples l = filter alive l.
Proof.
  induction l as [|s r IH]; intros Hnd Hb; [reflexivity|].
  cbn [pop_old_samples filter]. unfold alive at 1.
  cbn [map] in Hnd, Hb. inversion Hb as [|? ? Hs Hr]; subst.
  destruct (ttl s =? 0) eqn:E; cbn [negb].
  - apply IH; [now apply non_decreasing_cons in Hnd | exact Hr].
  - apply Z.eqb_neq in E. f_equal.
    pose proof (non_decreasing_head _ _ Hnd) as Hh.
    clear IH Hnd Hb Hr. induction r as [|s' r' IH']; [reflexivity|].
    cbn [map] in Hh. inversion Hh as [|? ? H1 H2]; subst.
    cbn [filter]. unfold alive at 1.
    assert (E' : (ttl s' =? 0) = false) by (apply Z.eqb_neq; lia).
    rewrite E'. cbn [negb]. f_equal. now apply IH'.
Qed.

(** X16.  On a lag record whose TTLs do not decrease from the oldest bucket
    to the newest, the two loops that open a sample of [updateTimeLagging]
    drop exactly the expired buckets, wherever they are, and count every
    other TTL down by one without wrapping around; lags and corrections of
    the buckets that stay are untouched, and so is the capacity. *)
Theorem eviction_drops_exactly_the_expired (b : circular_buffer) :
  non_decreasing (map ttl (items b)) ->
  Forall (fun x => 0 <= x < 2 ^ 16) (map ttl (items b)) ->
  let survivors := filter alive (items b) in
  capacity (aged b) = capacity b
  /\ map ttl (items (aged b)) = map (fun x => ttl x - 1) survivors
  /\ map time_lag (items (aged b)) = map time_lag survivors
  /\ map time_lag_correction (items (aged b))
     = map time_lag_correction survivors
  /\ Forall (fun x => 0 <= x < 2 ^ 16 - 1) (map ttl (items (aged b))).
Proof.
  intros Hnd Hb. cbv zeta. unfold aged. cbn [capacity items].
  rewrite (pop_old_samples_filter _ Hnd Hb).
  assert (Hs : Forall (fun s => 1 <= ttl s < 2 ^ 16)
                 (filter alive (items b))).
  { apply Forall_forall. intros s Hin. apply filter_In in Hin.
    destruct Hin as [Hin Ha]. unfold alive in Ha.
    apply negb_true_iff, Z.eqb_neq in Ha.
    rewrite Forall_map in Hb.
    pose proof (proj1 (Forall_forall _ _) Hb s Hin). cbv beta in *. lia. }
  assert (Ht : map ttl (map decrement_ttl (filter alive (items b)))
               = map (fun x => ttl x - 1) (filter alive (items b))).
  { rewrite map_map. apply map_ext_in. intros s Hin.
    pose proof (proj1 (Forall_forall _ _) Hs s Hin). cbv beta in *.
    unfold decrement_ttl, wrap16. cbn [ttl]. apply Z.mod_small. lia. }
  split; [reflexivity|]. split; [exact Ht|].
  split; [now rewrite map_map|]. split; [now rewrite map_map|].
  rewrite Ht, Forall_map. eapply Forall_impl; [|exact Hs].
  cbv beta. intros; lia.
Qed.

Lemma eviction_drops_exactly_the_expired_witness :
  map ttl (items (aged example_record)) = [0; 2]
  /\ map time_lag (items (aged example_record)) = [300; 400].
Proof.
  assert (Hnd : non_decreasing (map ttl (items example_record)))
    by (vm_compute; intuition discriminate).
  assert (Hb : Forall (fun x => 0 <= x < 2 ^ 16)
                 (map ttl (items example_record))).
  { repeat (apply Forall_cons; [vm_compute; split; [discriminate | reflexivity]|]).
    apply Forall_nil. }
  destruct (eviction_drops_exactly_the_expired example_record Hnd Hb)
    as (_ & H1 & H2 & _).
  split; [exact H1 | exact H2].
Defined.

(** ** Carrying a relation whose leaves depend on the values stored *)

Section CarryValues.
Variable R : Rel.
Hypothesis HR : compositional R.
Variable e : Env.

Hypothesis R_maybeBumpStats : forall force, sat R (maybeBumpStats e force).
Hypothesis R_last_next_lsn_to_deliver :
  forall v t, R t [] (set_last_next_lsn_to_deliver_ v t).
Hypothesis R_stuck_timer_unset :
  forall t, R t [] (set_last_time_stuck_ TimePoint_max t).
Hypothesis R_stuck_timer_set :
  forall t, R t [] (set_last_time_stuck_ (now e) t).

Lemma carry_values_updateTimeStuck (tail_lsn : lsn_t) (st : Status) :
  sat R (updateTimeStuck e tail_lsn st).
Proof.
  unfold updateTimeStuck.
  apply (sat_andThen _ HR); [|apply (sat_andThen _ HR)].
  - intro t. cbv beta.
    destruct (negb (last_next_lsn_to_deliver_ t
                    =? next_lsn_to_deliver_ (owner_ e))).
    + revert t. apply (sat_andThen _ HR); [|apply (sat_andThen _ HR)].
      * apply sat_modify. apply R_last_next_lsn_to_deliver.
      * apply sat_modify. apply R_stuck_timer_unset.
      * apply R_maybeBumpStats.
    + apply (sat_skip _ HR).
  - intro t. cbv beta zeta.
    destruct (negb _).
    + apply R_stuck_timer_unset.
    + destruct (last_time_stuck_ t =? TimePoint_max).
      * apply R_stuck_timer_set.
      * apply (sat_skip _ HR).
  - apply R_maybeBumpStats.
Qed.

End CarryValues.

Section CarryEntries.
Variable R : Rel.
Hypothesis HR : compositional R.
Variable e : Env.

Hypothesis R_updateTimeStuck :
  forall tail_lsn st, sat R (updateTimeStuck e tail_lsn st).
Hypothesis R_updateTimeLagging : forall st, sat R (updateTimeLagging e st).
Hypothesis R_last_sync_seq_request_result :
  forall v t, R t [] (set_last_sync_seq_request_result_ v t).
Hypothesis R_traceReaderFlow : forall b r, sat R (traceReaderFlow e b r).
Hypothesis R_bumpHistograms : sat R (bumpHistograms e).

(** A completion that latches nothing. *)
Lemma carry_entries_unlatched (st : Status) (next_lsn : lsn_t)
  (attrs : option LogTailAttributes) :
  st <> E_OK \/ attrs = None ->
  sat R (onSyncSequencerRequestResponse e st next_lsn attrs).
Proof.
  intro Hun. unfold onSyncSequencerRequestResponse.
  apply (sat_andThen _ HR); [apply sat_modify, R_last_sync_seq_request_result|].
  apply (sat_andThen _ HR).
  { destruct attrs as [a|]; [|apply R_updateTimeStuck].
    destruct (Status_eqb st E_OK) eqn:E; [|apply R_updateTimeStuck].
    apply Status_eqb_eq in E. destruct Hun; [contradiction | discriminate]. }
  apply (sat_andThen _ HR); [apply R_updateTimeLagging|].
  apply (sat_andThen _ HR); [apply R_traceReaderFlow|].
  apply R_bumpHistograms.
Qed.

Hypothesis R_maybeBumpStats : forall force, sat R (maybeBumpStats e force).
Hypothesis R_updateShouldTrack : sat R (updateShouldTrack e).
Hypothesis R_postRequest :
  forall timeout skip_check t, R t [postRequest timeout skip_check] t.
Hypothesis R_timer_activate :
  forall delay t, R t [timer_activate delay] (set_timer_active_ true t).

Lemma carry_entries_onTimerTriggered (post_ok : bool) :
  sat R (onTimerTriggered e post_ok).
Proof.
  unfold onTimerTriggered.
  apply (sat_andThen _ HR).
  { unfold sendSyncSequencerRequest. apply (sat_andThen _ HR).
    - intro t. apply R_postRequest.
    - destruct (negb post_ok).
      + apply carry_entries_unlatched. left. discriminate.
      + apply (sat_skip _ HR). }
  apply (sat_andThen _ HR); [apply R_updateShouldTrack|].
  apply (sat_andThen _ HR); [apply R_maybeBumpStats|].
  intro t. apply R_timer_activate.
Qed.

(** A completion that may latch the tail. *)
Hypothesis R_latest_tail_info :
  forall v t, R t [] (set_latest_tail_info_ v t).

Lemma carry_entries_onSyncSequencerRequestResponse (st : Status)
  (next_lsn : lsn_t) (attrs : option LogTailAttributes) :
  sat R (onSyncSequencerRequestResponse e st next_lsn attrs).
Proof.
  unfold onSyncSequencerRequestResponse.
  apply (sat_andThen _ HR); [apply sat_modify, R_last_sync_seq_request_result|].
  apply (sat_andThen _ HR).
  { destruct attrs as [a|]; [destruct (Status_eqb st E_OK)|];
      try apply R_updateTimeStuck.
    apply (sat_andThen _ HR); [|apply R_updateTimeStuck].
    apply sat_modify, R_latest_tail_info. }
  apply (sat_andThen _ HR); [apply R_updateTimeLagging|].
  apply (sat_andThen _ HR); [apply R_traceReaderFlow|].
  apply R_bumpHistograms.
Qed.

End CarryEntries.

(** ** A tracer that never learns the tail *)

Lemma estimates_without_tail_info (e : Env) (t : Fields) :
  latest_tail_info_ t = None ->
  estimateTimeLag e t = None /\ estimateByteLag e t = None.
Proof. unfold estimateTimeLag, estimateByteLag. now intros ->. Qed.

Lemma state_to_report_not_lagging (e : Env) (force : bool) (t : Fields) :
  last_time_lagging_ t = TimePoint_max ->
  state_to_report e force t <> LAGGING.
Proof.
  intro Hl. unfold state_to_report. rewrite Hl, Z.eqb_refl. cbn [negb andb].
  destruct force; [discriminate|].
  destruct (if negb _ then _ else false); [|discriminate].
  destruct (_ && _); discriminate.
Qed.

Lemma shows_no_lag_quiet (o : list Effect) :
  Forall quiet_about_lagging o ->
  Forall (fun x => stat_delta x <> None) o ->
  Forall shows_no_lag o.
Proof.
  intros Hq Hs. rewrite Forall_forall in *. intros x Hx.
  split; [now apply Hq|].
  specialize (Hs x Hx). destruct x; simpl in *; try exact I; congruence.
Qed.

Lemma updateCountersForState_stats (s : State) (io : bool)
  (tags : list string) (inc : Z) :
  Forall (fun x => stat_delta x <> None)
    (updateCountersForState s io tags inc).
Proof.
  destruct s, io; simpl;
    repeat (apply Forall_cons; [discriminate|]); apply Forall_nil.
Qed.

Lemma without_tail_info_maybeBumpStats (e : Env) (force : bool) :
  sat (inv_rel without_tail_info shows_no_lag) (maybeBumpStats e force).
Proof.
  intros t (Hi & Hr & Hl & Hs).
  pose proof (state_to_report_not_lagging e force t Hl) as Hnew.
  split.
  - rewrite maybeBumpStats_fst. repeat split; assumption.
  - unfold maybeBumpStats. cbv zeta.
    destruct (negb _); cbn [snd]; [|constructor].
    apply shows_no_lag_quiet; apply Forall_app; split;
      first [ now apply updateCountersForState_quiet
            | apply updateCountersForState_stats ].
Qed.

Lemma without_tail_info_updateTimeLagging (e : Env) (st : Status) :
  sat (inv_rel without_tail_info shows_no_lag) (updateTimeLagging e st).
Proof.
  intros t Ht. pose proof Ht as (Hi & Hr & Hl & Hs).
  unfold updateTimeLagging, cur_ts_lag.
  rewrite (proj1 (estimates_without_tail_info e t Hi)).
  unfold cb_empty, cb_size. rewrite Hr. cbn [List.length Z.of_nat Z.eqb negb].
  rewrite andb_false_r. cbn [fst snd]. split; [exact Ht | constructor].
Qed.

Lemma without_tail_info_traceReaderFlow (e : Env) (b r : Z) :
  sat (inv_rel without_tail_info shows_no_lag) (traceReaderFlow e b r).
Proof.
  intros t Ht. pose proof Ht as (Hi & Hr & Hl & Hs).
  unfold traceReaderFlow.
  destruct (negb _); cbn [fst snd]; [split; [exact Ht | constructor]|].
  split; [repeat split; assumption|].
  apply Forall_cons; [|constructor].
  split; cbn.
  - intro H. apply (toString_injective _ LAGGING) in H. contradiction.
  - unfold estimateTimeLag, estimateByteLag. cbn. rewrite Hi. now split.
Qed.

Lemma without_tail_info_bumpHistograms (e : Env) :
  sat (inv_rel without_tail_info shows_no_lag) (bumpHistograms e).
Proof.
  intros t Ht. pose proof Ht as (Hi & Hr & Hl & Hs).
  unfold bumpHistograms. cbv zeta.
  rewrite (proj1 (estimates_without_tail_info e t Hi)). cbn [fst snd].
  split; [exact Ht|]. apply Forall_cons; [|constructor]. now split.
Qed.

Lemma without_tail_info_updateShouldTrack (e : Env) :
  sat (inv_rel without_tail_info shows_no_lag) (updateShouldTrack e).
Proof.
  intros t Ht. pose proof Ht as (Hi & Hr & Hl & Hs).
  rewrite updateShouldTrack_run. cbv zeta.
  rewrite (proj1 (estimates_without_tail_info e t Hi)). cbn [fst snd].
  split; [repeat split; assumption | constructor].
Qed.

Lemma onSettingsUpdated_keeps_health (e : Env) :
  sat (keeps (fun t => (latest_tail_info_ t, last_time_lagging_ t,
                        last_reported_state_ t)))
    (onSettingsUpdated e).
Proof. keeps_leaf. Qed.

Lemma without_tail_info_onSettingsUpdated (e : Env) :
  sat (inv_rel without_tail_info shows_no_lag) (onSettingsUpdated e).
Proof.
  intros t Ht. pose proof Ht as (Hi & Hr & Hl & Hs).
  pose proof (settings_update_fields e t) as H. cbv zeta in H.
  destruct H as (_ & Hitems).
  pose proof (settings_update_effects e t) as Hq.
  pose proof (onSettingsUpdated_keeps_health e t) as Hk.
  unfold keeps in Hk. injection Hk as Hk1 Hk2 Hk3.
  split.
  - split; [|split; [|split]].
    + now rewrite Hk1.
    + rewrite Hitems, Hr. destruct (_ =? _); [reflexivity|].
      apply firstn_nil.
    + now rewrite Hk2.
    + now rewrite Hk3.
  - eapply Forall_impl; [|exact Hq].
    intros x [-> | ->]; split; exact I.
Qed.

Ltac without_tail_info_setter :=
  unfold sat, inv_rel; intros;
  match goal with
  | H : without_tail_info _ |- _ =>
      destruct H as (? & ? & ? & ?);
      split; [repeat split; assumption|]
  end;
  repeat (apply Forall_cons; [split; exact I|]); apply Forall_nil.

Lemma without_tail_info_updateTimeStuck (e : Env) (tail_lsn : lsn_t)
  (st : Status) :
  sat (inv_rel without_tail_info shows_no_lag) (updateTimeStuck e tail_lsn st).
Proof.
  apply carry_values_updateTimeStuck;
    [ apply inv_rel_compositional
    | apply without_tail_info_maybeBumpStats
    | without_tail_info_setter .. ].
Qed.

Ltac without_tail_info_leaf :=
  first [ apply without_tail_info_updateTimeStuck
        | apply without_tail_info_updateTimeLagging
        | apply without_tail_info_traceReaderFlow
        | apply without_tail_info_bumpHistograms
        | apply without_tail_info_maybeBumpStats
        | apply without_tail_info_updateShouldTrack
        | without_tail_info_setter ].

Lemma without_tail_info_method (e : Env) (ev : Event) :
  latches_nothing ev ->
  sat (inv_rel without_tail_info shows_no_lag) (method_of e ev).
Proof.
  intro Hev. destruct ev; cbn [method_of latches_nothing] in *;
    try apply without_tail_info_updateShouldTrack.
  - apply without_tail_info_onSettingsUpdated.
  - apply carry_entries_onTimerTriggered;
      [apply inv_rel_compositional | intros; without_tail_info_leaf ..].
  - apply carry_entries_unlatched;
      [ apply inv_rel_compositional
      | intros; without_tail_info_leaf ..
      | exact Hev ].
Qed.

(** X17.  As long as no tail query completes successfully with tail
    attributes, neither a tracer nor its shadow ever has tail info: their
    lag records stay empty, their lagging timers stay unset and neither
    reports LAGGING.  In the effects of the whole lifetime no delta goes to
    a lagging counter, no value to the time-lag histogram, and every
    published sample is without both lag estimates and in a state other
    than "lagging". *)
Theorem no_tail_info_no_lag_metric (e0 : Env)
  (push_samples ignore_overload : bool) (d : MemberDefaults)
  (evs : list (Env * Event)) (e_end : Env) :
  Forall (fun x => latches_nothing (snd x)) evs ->
  let t :=
    fst (run evs (fst (construct e0 push_samples ignore_overload d))) in
  without_tail_info (self t)
  /\ (forall shadow,
        tracer_ignoring_overload_ t = Some shadow ->
        without_tail_info shadow)
  /\ Forall shows_no_lag
       (lifetime e0 push_samples ignore_overload d evs e_end).
Proof.
  intros Hevs. cbv zeta.
  assert (Hinit : forall p i, without_tail_info (initial_fields p i d)).
  { intros p i. repeat split. discriminate. }
  destruct (inv_lifetime without_tail_info without_tail_info
              shows_no_lag shows_no_lag
              e0 push_samples ignore_overload d evs e_end)
    as [[Hself Hshadow] Ho];
    try apply Hinit; try apply without_tail_info_onSettingsUpdated;
    try apply without_tail_info_maybeBumpStats.
  { eapply Forall_impl; [|exact Hevs].
    intros [e ev] Hev. split; now apply without_tail_info_method. }
  split; [exact Hself|]. split.
  - intros shadow E. now rewrite E in Hshadow.
  - eapply Forall_impl; [|exact Ho]. intros x [H | H]; exact H.
Qed.

Lemma no_tail_info_no_lag_metric_witness :
  Forall shows_no_lag
    (lifetime (example_env_at_tail 0) true false example_defaults
       example_failing_tail_query (example_env_at_tail 60000)).
Proof.
  assert (Hevs : Forall (fun x => latches_nothing (snd x))
                   example_failing_tail_query).
  { apply Forall_cons; [right; reflexivity|].
    apply Forall_cons; [exact I | apply Forall_nil]. }
  exact (proj2 (proj2 (no_tail_info_no_lag_metric (example_env_at_tail 0)
                         true false example_defaults
                         example_failing_tail_query
                         (example_env_at_tail 60000) Hevs))).
Defined.

(** ** No stuck reader before the threshold has passed *)

Lemma state_to_report_not_stuck (t0 : TimePoint) (e : Env) (force : bool)
  (t : Fields) :
  force = true \/ within_threshold_of t0 e ->
  last_time_stuck_ t = TimePoint_max \/ t0 <= last_time_stuck_ t ->
  state_to_report e force t = HEALTHY \/ state_to_report e force t = LAGGING.
Proof.
  intros He Ht. unfold state_to_report.
  destruct force; [now left|].
  destruct He as [He | [He1 He2]]; [discriminate|].
  assert (Hd : (if negb (last_time_stuck_ t =? TimePoint_max)
                then last_time_stuck_ t + reader_stuck_threshold (settings e)
                     <=? now e
                else false) = false).
  { destruct (last_time_stuck_ t =? TimePoint_max) eqn:E; cbn [negb];
      [reflexivity|].
    apply Z.eqb_neq in E. apply Z.leb_gt. lia. }
  rewrite Hd. destruct (_ && _); auto.
Qed.

Lemma updateCountersForState_not_stuck (s : State) (io : bool)
  (tags : list string) (inc : Z) :
  s = HEALTHY \/ s = LAGGING ->
  Forall shows_not_stuck (updateCountersForState s io tags inc).
Proof.
  intros [-> | ->]; destruct io; simpl;
    repeat (apply Forall_cons; [reflexivity|]); apply Forall_nil.
Qed.

Lemma not_stuck_states (s : State) :
  s = HEALTHY \/ s = LAGGING
  <-> ~ (s = STUCK \/ s = STUCK_WHILE_FAILING_SYNC_SEQ_REQ).
Proof.
  destruct s; split; intros H; try tauto;
    try (intros [H' | H']; discriminate);
    try (destruct H; discriminate);
    exfalso; apply H; auto.
Qed.

Lemma early_maybeBumpStats (t0 : TimePoint) (e : Env) (force : bool) :
  force = true \/ within_threshold_of t0 e ->
  sat (inv_rel (stuck_timer_since t0) shows_not_stuck)
    (maybeBumpStats e force).
Proof.
  intros He t [Hl Hs].
  pose proof (state_to_report_not_stuck t0 e force t He Hl) as Hnew.
  split.
  - rewrite maybeBumpStats_fst. split; [exact Hl|].
    unfold reports_stuck. cbn. now apply not_stuck_states.
  - unfold maybeBumpStats. cbv zeta.
    destruct (negb _); cbn [snd]; [|constructor].
    apply Forall_app; split; apply updateCountersForState_not_stuck;
      [|exact Hnew].
    now apply not_stuck_states.
Qed.

Lemma early_plain (t0 : TimePoint) (t t' : Fields) (o : list Effect) :
  plain t o t' -> last_time_stuck_ t' = last_time_stuck_ t ->
  inv_rel (stuck_timer_since t0) shows_not_stuck t o t'.
Proof.
  intros (_ & _ & Hst & _ & Hq) Hl [Ht Hs].
  split.
  - unfold stuck_timer_since, reports_stuck in *. now rewrite Hl, Hst.
  - eapply Forall_impl; [|exact Hq].
    intros x [Hx1 Hx2]. destruct x; simpl in *; try exact I; discriminate.
Qed.

Lemma early_traceReaderFlow (t0 : TimePoint) (e : Env) (b r : Z) :
  sat (inv_rel (stuck_timer_since t0) shows_not_stuck)
    (traceReaderFlow e b r).
Proof.
  intros t Ht. pose proof Ht as [Hl Hs].
  unfold traceReaderFlow.
  destruct (negb _); cbn [fst snd]; [split; [exact Ht | constructor]|].
  split; [exact Ht|].
  apply Forall_cons; [|constructor].
  unfold reports_stuck in Hs. cbn.
  repeat split.
  - intro H. apply (toString_injective _ STUCK) in H. auto.
  - intro H.
    apply (toString_injective _ STUCK_WHILE_FAILING_SYNC_SEQ_REQ) in H. auto.
  - unfold readerIsStuck. cbn.
    destruct (last_reported_state_ t); try reflexivity;
      exfalso; apply Hs; auto.
Qed.

Lemma keeps_stuck_timer_record_sample (e : Env) (cur : Z) :
  sat (keeps last_time_stuck_) (record_sample e cur).
Proof. keeps_leaf. Qed.

Lemma keeps_stuck_timer_bumpHistograms (e : Env) :
  sat (keeps last_time_stuck_) (bumpHistograms e).
Proof. keeps_leaf. Qed.

Lemma keeps_stuck_timer_updateShouldTrack (e : Env) :
  sat (keeps last_time_stuck_) (updateShouldTrack e).
Proof. keeps_leaf. Qed.

Lemma keeps_stuck_timer_onSettingsUpdated (e : Env) :
  sat (keeps last_time_stuck_) (onSettingsUpdated e).
Proof. keeps_leaf. Qed.

Lemma early_onSettingsUpdated (t0 : TimePoint) (e : Env) :
  sat (inv_rel (stuck_timer_since t0) shows_not_stuck) (onSettingsUpdated e).
Proof.
  intro t. apply early_plain;
    [apply plain_onSettingsUpdated | apply keeps_stuck_timer_onSettingsUpdated].
Qed.

Lemma early_updateShouldTrack (t0 : TimePoint) (e : Env) :
  sat (inv_rel (stuck_timer_since t0) shows_not_stuck) (updateShouldTrack e).
Proof.
  intro t. apply early_plain;
    [apply plain_updateShouldTrack | apply keeps_stuck_timer_updateShouldTrack].
Qed.

(** A leaf that leaves the stuck timer and the reported state alone. *)
Ltac early_leaf :=
  first
    [ apply early_traceReaderFlow
    | apply early_updateShouldTrack
    | unfold sat; intros; apply early_plain;
      [ first [ apply plain_record_sample
              | apply plain_bumpHistograms
              | plain_leaf ]
      | first [ apply keeps_stuck_timer_record_sample
              | apply keeps_stuck_timer_bumpHistograms
              | reflexivity ] ] ].

Lemma early_stuck_timer_unset (t0 : TimePoint) (t : Fields) :
  inv_rel (stuck_timer_since t0) shows_not_stuck t []
    (set_last_time_stuck_ TimePoint_max t).
Proof. intros [_ Hs]. split; [split; [now left | exact Hs] | constructor]. Qed.

Lemma early_stuck_timer_set (t0 : TimePoint) (e : Env) (t : Fields) :
  within_threshold_of t0 e ->
  inv_rel (stuck_timer_since t0) shows_not_stuck t []
    (set_last_time_stuck_ (now e) t).
Proof.
  intros [He _] [_ Hs]. split; [split; [now right | exact Hs] | constructor].
Qed.

Lemma early_updateTimeStuck (t0 : TimePoint) (e : Env) (tail_lsn : lsn_t)
  (st : Status) :
  within_threshold_of t0 e ->
  sat (inv_rel (stuck_timer_since t0) shows_not_stuck)
    (updateTimeStuck e tail_lsn st).
Proof.
  intro He. apply carry_values_updateTimeStuck.
  - apply inv_rel_compositional.
  - intro force. apply early_maybeBumpStats. now right.
  - intros; early_leaf.
  - apply early_stuck_timer_unset.
  - intro t. now apply early_stuck_timer_set.
Qed.

Lemma early_updateTimeLagging (t0 : TimePoint) (e : Env) (st : Status) :
  within_threshold_of t0 e ->
  sat (inv_rel (stuck_timer_since t0) shows_not_stuck)
    (updateTimeLagging e st).
Proof.
  intro He. apply carry_updateTimeLagging.
  - apply inv_rel_compositional.
  - intro force. apply early_maybeBumpStats. now right.
  - intros; early_leaf.
  - intros; early_leaf.
  - intros; early_leaf.
Qed.

Lemma early_method (t0 : TimePoint) (e : Env) (ev : Event) :
  within_threshold_of t0 e ->
  sat (inv_rel (stuck_timer_since t0) shows_not_stuck) (method_of e ev).
Proof.
  intro He.
  assert (Hb : forall force,
             sat (inv_rel (stuck_timer_since t0) shows_not_stuck)
               (maybeBumpStats e force)).
  { intro force. apply early_maybeBumpStats. now right. }
  destruct ev; cbn [method_of]; try apply early_updateShouldTrack.
  - apply early_onSettingsUpdated.
  - apply carry_entries_onTimerTriggered;
      [ apply inv_rel_compositional
      | intros;
        first [ now apply early_updateTimeStuck
              | now apply early_updateTimeLagging
              | apply Hb
              | early_leaf ] .. ].
  - apply carry_entries_onSyncSequencerRequestResponse;
      [ apply inv_rel_compositional
      | intros;
        first [ now apply early_updateTimeStuck
              | now apply early_updateTimeLagging
              | early_leaf ] .. ].
Qed.

(** X18.  While the clock of every event reads less than the stuck threshold
    after some time [t0] that no event precedes, neither a tracer nor its
    shadow reports a stuck state, whatever the tail queries answer and
    however the reader moves.  In the effects of the whole lifetime no
    delta goes to a counter of stuck readers, and no published sample is in
    a stuck state or names a node waited for. *)
Theorem not_stuck_before_the_threshold (t0 : TimePoint) (e0 : Env)
  (push_samples ignore_overload : bool) (d : MemberDefaults)
  (evs : list (Env * Event)) (e_end : Env) :
  Forall (fun x => within_threshold_of t0 (fst x)) evs ->
  let t :=
    fst (run evs (fst (construct e0 push_samples ignore_overload d))) in
  ~ reports_stuck (self t)
  /\ (forall shadow,
        tracer_ignoring_overload_ t = Some shadow -> ~ reports_stuck shadow)
  /\ Forall shows_not_stuck
       (lifetime e0 push_samples ignore_overload d evs e_end).
Proof.
  intros Hevs. cbv zeta.
  assert (Hinit : forall p i, stuck_timer_since t0 (initial_fields p i d)).
  { intros p i. split; [now left|]. intros [H | H]; discriminate. }
  destruct (inv_lifetime (stuck_timer_since t0) (stuck_timer_since t0)
              shows_not_stuck shows_not_stuck
              e0 push_samples ignore_overload d evs e_end)
    as [[Hself Hshadow] Ho];
    try apply Hinit; try apply early_onSettingsUpdated;
    try (apply early_maybeBumpStats; now left).
  { eapply Forall_impl; [|exact Hevs].
    intros [e ev] Hev. split; now apply early_method. }
  split; [apply Hself|]. split.
  - intros shadow E. rewrite E in Hshadow. apply Hshadow.
  - eapply Forall_impl; [|exact Ho]. intros x [H | H]; exact H.
Qed.

Lemma not_stuck_before_the_threshold_witness :
  Forall shows_not_stuck
    (lifetime (example_env LSN_MAX 5 0) true false example_defaults
       (example_stuck_by_position 59999) (example_env LSN_MAX 5 59999)).
Proof.
  assert (Hevs : Forall (fun x => within_threshold_of 0 (fst x))
                   (example_stuck_by_position 59999)).
  { repeat (apply Forall_cons;
            [vm_compute; split; [discriminate | reflexivity]|]).
    apply Forall_nil. }
  exact (proj2 (proj2 (not_stuck_before_the_threshold 0
                         (example_env LSN_MAX 5 0) true false
                         example_defaults (example_stuck_by_position 59999)
                         (example_env LSN_MAX 5 59999) Hevs))).
Defined.

(** ** Counters as gauges *)

Lemma contribution_by_variant (c : Counter) (io : bool) (s : State) :
  (contribution c io s <= 1)%nat
  /\ (ignoring_overload_counter c <> io -> contribution c io s = 0%nat).
Proof.
  destruct c, io, s; vm_compute; split; intros; try reflexivity;
    try congruence; try lia; repeat constructor.
Qed.

(** X19.  At every point of every history, what a tracer and its shadow
    have added to a counter and not taken back is exactly what their reported
    states contribute to it, and that is 0 or 1: a counter that ignores
    overload is held by the tracer that ignores overload only, and every
    other counter by the one that does not. *)
Theorem counters_are_gauges (e0 : Env) (push_samples io : bool)
  (d : MemberDefaults) (evs : list (Env * Event)) (c : Counter) :
  let built := construct e0 push_samples io d in
  let t := fst (run evs (fst built)) in
  let o := snd built ++ snd (run evs (fst built)) in
  net_delta c o = Z.of_nat (contribution_of_pair c t)
  /\ 0 <= net_delta c o <= 1
  /\ (ignoring_overload_counter c = io ->
      contribution_of_pair c t = contribution_of c (self t))
  /\ (ignoring_overload_counter c <> io ->
      contribution_of c (self t) = 0%nat).
Proof.
  cbv zeta.
  pose proof (conserves_construct c e0 push_samples io d)
    as [U0 C0].
  pose proof (conserves_run c evs
                (fst (construct e0 push_samples io d)))
    as [U1 C1].
  pose proof (flags_after_run e0 push_samples io d evs) as H.
  cbv zeta in H. destruct H as [Fs Fsh].
  set (t := fst (run evs (fst (construct e0 push_samples io d))))
    in *.
  set (o0 := snd (construct e0 push_samples io d)) in *.
  set (o1 := snd (run evs (fst (construct e0 push_samples io d))))
    in *.
  assert (Hnet : net_delta c (o0 ++ o1) = Z.of_nat (contribution_of_pair c t)).
  { rewrite (net_delta_units c (o0 ++ o1)) by (now apply Forall_app).
    rewrite !count_deltas_app. lia. }
  assert (Hio : ignore_overload (params_ (self t)) = io).
  { unfold flags in Fs. congruence. }
  assert (Hself : ignoring_overload_counter c <> io ->
                  contribution_of c (self t) = 0%nat).
  { intro Hne. unfold contribution_of. rewrite Hio.
    now apply contribution_by_variant. }
  assert (Hpair : ignoring_overload_counter c = io ->
                  contribution_of_pair c t = contribution_of c (self t)).
  { intro He. unfold contribution_of_pair.
    destruct (tracer_ignoring_overload_ t) as [shadow|] eqn:E;
      [|apply Nat.add_0_r].
    destruct io; [discriminate|].
    cbn [option_map] in Fsh. unfold flags in Fsh.
    unfold contribution_of at 2.
    assert (Hs : ignore_overload (params_ shadow) = true) by congruence.
    rewrite Hs, (proj2 (contribution_by_variant c true _)); [lia|].
    rewrite He. discriminate. }
  split; [exact Hnet|]. split; [|split; [exact Hpair | exact Hself]].
  rewrite Hnet. split; [lia|].
  destruct (Bool.bool_dec (ignoring_overload_counter c) io)
    as [He | Hne].
  - rewrite (Hpair He). unfold contribution_of.
    pose proof (proj1 (contribution_by_variant c
                         (ignore_overload (params_ (self t)))
                         (last_reported_state_ (self t)))). lia.
  - unfold contribution_of_pair. rewrite (Hself Hne).
    destruct (tracer_ignoring_overload_ t) as [shadow|]; [|simpl; lia].
    unfold contribution_of.
    pose proof (proj1 (contribution_by_variant c
                         (ignore_overload (params_ shadow))
                         (last_reported_state_ shadow))). lia.
Qed.

(** ** The callbacks of the owner *)

Lemma updateShouldTrack_gate (e : Env) (t : Fields) :
  should_track_ (fst (updateShouldTrack e t))
  = tracking_gate e (ignore_overload (params_ t))
  /\ snd (updateShouldTrack e t) = []
  /\ health_inputs (fst (updateShouldTrack e t)) = health_inputs t
  /\ last_reported_state_ (fst (updateShouldTrack e t))
     = last_reported_state_ t.
Proof.
  rewrite updateShouldTrack_run. cbv zeta. cbn [fst snd].
  destruct (estimateTimeLag e t) as [lag|];
    repeat match goal with
           | |- context [if ?c then _ else _] => destruct c
           end;
    repeat split.
Qed.

Lemma tracking_gate_ignoring_overload (e : Env) :
  tracking_gate e false = true -> tracking_gate e true = true.
Proof.
  unfold tracking_gate. destruct (overloadDetector e) as [o|]; cbn [negb andb];
    [|exact (fun H => H)].
  destruct o; cbn [negb andb]; [discriminate | exact (fun H => H)].
Qed.

(** X20.  Each of the four callbacks of the owner
    ([onRedeliveryTimerInactive], [onRedeliveryTimerActive],
    [onWindowUpdatePending], [onWindowUpdateSent]) recomputes the tracking
    gate of the tracer and, through it, of its shadow, each with its own
    overload flag; it has no visible effect and changes neither reported
    state.  So right after a callback the shadow tracks whenever the tracer
    itself does. *)
Theorem owner_callbacks_reach_both_tracers (e0 : Env)
  (push_samples io : bool) (d : MemberDefaults)
  (evs : list (Env * Event)) (e : Env) (ev : Event) :
  is_owner_callback ev = true ->
  let t := fst (run evs (fst (construct e0 push_samples io d))) in
  let t' := fst (step e ev t) in
  snd (step e ev t) = []
  /\ should_track_ (self t') = tracking_gate e io
  /\ last_reported_state_ (self t') = last_reported_state_ (self t)
  /\ has_shadow t' = negb io
  /\ (forall shadow',
        tracer_ignoring_overload_ t' = Some shadow' ->
        should_track_ shadow' = tracking_gate e true
        /\ option_map last_reported_state_ (tracer_ignoring_overload_ t)
           = Some (last_reported_state_ shadow')
        /\ (should_track_ (self t') = true -> should_track_ shadow' = true)).
Proof.
  intros Hev. cbv zeta.
  pose proof (flags_after_run e0 push_samples io d evs) as H.
  cbv zeta in H. destruct H as [Fs Fsh].
  pose proof (has_shadow_run evs (fst (construct e0 push_samples io d)))
    as Hhas.
  rewrite has_shadow_construct in Hhas.
  set (t := fst (run evs (fst (construct e0 push_samples io d)))) in *.
  assert (Hstep : step e ev t = forwarded (updateShouldTrack e) t)
    by (destruct ev; try discriminate; reflexivity).
  rewrite Hstep, forwarded_run. cbn [fst snd].
  unfold on_self, on_shadow.
  pose proof (updateShouldTrack_gate e (self t)) as (G1 & G2 & _ & G4).
  destruct (updateShouldTrack e (self t)) as [s o]. cbn [fst snd] in *.
  cbn [self tracer_ignoring_overload_ fst snd].
  assert (Hio : ignore_overload (params_ (self t)) = io)
    by (unfold flags in Fs; congruence).
  rewrite Hio in G1. subst o.
  destruct (tracer_ignoring_overload_ t) as [shadow|] eqn:E.
  - pose proof (updateShouldTrack_gate e shadow) as (S1 & S2 & _ & S4).
    destruct (updateShouldTrack e shadow) as [s' o']. cbn [fst snd] in *.
    cbn [self tracer_ignoring_overload_ fst snd].
    subst o'. split; [reflexivity|]. split; [exact G1|]. split; [exact G4|].
    split.
    { unfold has_shadow in *. now rewrite E in Hhas. }
    intros shadow' [= <-].
    destruct io; [discriminate|].
    cbn [option_map] in Fsh. unfold flags in Fsh.
    assert (Hs : ignore_overload (params_ shadow) = true) by congruence.
    rewrite Hs in S1. split; [exact S1|]. split; [now rewrite S4|].
    rewrite G1, S1. apply tracking_gate_ignoring_overload.
  - cbn [self tracer_ignoring_overload_ fst snd].
    split; [reflexivity|]. split; [exact G1|]. split; [exact G4|].
    split.
    { unfold has_shadow in *. cbn. now rewrite E in *. }
    intros shadow' [=].
Qed.

Lemma owner_callbacks_reach_both_tracers_witness :
  let t :=
    fst (run (example_growing_lag LSN_MAX)
           (fst (construct (example_env LSN_MAX 5 0) true false
                   example_defaults))) in
  snd (step (example_env_gate true 1000 4000) WindowUpdatePending t) = [].
Proof.
  exact (proj1 (owner_callbacks_reach_both_tracers (example_env LSN_MAX 5 0)
                  true false example_defaults (example_growing_lag LSN_MAX)
                  (example_env_gate true 1000 4000) WindowUpdatePending
                  eq_refl)).
Defined.

(** ** The publisher over a history of notifications *)

Lemma publish_in_inputs (rv : Z) (w : PublisherHistory.World) :
  PublisherHistory.inputs (fst (PublisherHistory.publish_in rv w))
  = PublisherHistory.inputs w.
Proof.
  unfold PublisherHistory.publish_in, NodesConfigurationPublisher.publish,
    NodesConfigurationPublisher.update.
  cbv zeta. destruct (negb _); [|reflexivity].
  destruct (rv =? 0); reflexivity.
Qed.

Lemma selected_inputs (w1 w2 : PublisherHistory.World) :
  PublisherHistory.inputs w1 = PublisherHistory.inputs w2 ->
  PublisherHistory.selected w1 = PublisherHistory.selected w2.
Proof.
  unfold PublisherHistory.inputs, PublisherHistory.selected,
    NodesConfigurationPublisher.nodes_configuration_to_publish.
  intros [= -> -> ->]. reflexivity.
Qed.

Lemma publish_in_published (rv : Z) (w : PublisherHistory.World) :
  PublisherHistory.published (fst (PublisherHistory.publish_in rv w))
  = (if rv =? 0 then PublisherHistory.selected w
     else PublisherHistory.published w)
  \/ PublisherHistory.published (fst (PublisherHistory.publish_in rv w))
     = PublisherHistory.selected w.
Proof.
  unfold PublisherHistory.publish_in, PublisherHistory.published,
    PublisherHistory.selected, NodesConfigurationPublisher.publish,
    NodesConfigurationPublisher.update.
  cbv zeta.
  destruct (Z.eqb _ _) eqn:E; cbn [negb fst PublisherHistory.config_].
  - right. now apply Z.eqb_eq in E.
  - left. destruct (rv =? 0); reflexivity.
Qed.

Lemma publish_in_succeeds (w : PublisherHistory.World) :
  PublisherHistory.published (fst (PublisherHistory.publish_in 0 w))
  = PublisherHistory.selected w.
Proof. destruct (publish_in_published 0 w) as [H | H]; exact H. Qed.

Lemma publish_in_updates (rv : Z) (w : PublisherHistory.World) :
  (List.length (filter PublisherHistory.is_update_called
                  (snd (PublisherHistory.publish_in rv w))) <= 1)%nat
  /\ Forall (fun x =>
               forall nc,
                 x = NodesConfigurationPublisher.update_called nc ->
                 nc = PublisherHistory.selected w)
       (snd (PublisherHistory.publish_in rv w)).
Proof.
  unfold PublisherHistory.publish_in, PublisherHistory.selected,
    NodesConfigurationPublisher.publish.
  cbv zeta. destruct (negb _); cbn [snd]; [|split; [apply Nat.le_0_l|constructor]].
  destruct (negb (rv =? 0)); cbn; (split; [apply Nat.le_refl|]);
    repeat (apply Forall_cons; [intros nc [=]; auto|]); apply Forall_nil.
Qed.

Lemma publisher_run_cons (subscribed : bool) (n : PublisherHistory.Notification)
  (rv : Z) (rest : list (PublisherHistory.Notification * Z))
  (w : PublisherHistory.World) :
  PublisherHistory.run subscribed ((n, rv) :: rest) w
  = (fst (PublisherHistory.run subscribed rest
            (fst (PublisherHistory.notify subscribed n rv w))),
     snd (PublisherHistory.notify subscribed n rv w)
     ++ snd (PublisherHistory.run subscribed rest
               (fst (PublisherHistory.notify subscribed n rv w)))).
Proof.
  cbn [PublisherHistory.run].
  destruct (PublisherHistory.notify subscribed n rv w) as [w1 o1].
  cbn [fst snd]. now destruct (PublisherHistory.run subscribed rest w1).
Qed.

Lemma changed_inputs (n : PublisherHistory.Notification)
  (w1 w2 : PublisherHistory.World) :
  PublisherHistory.inputs w1 = PublisherHistory.inputs w2 ->
  PublisherHistory.inputs (PublisherHistory.changed n w1)
  = PublisherHistory.inputs (PublisherHistory.changed n w2).
Proof.
  unfold PublisherHistory.inputs. intros [= H1 H2 H3].
  destruct n; cbn; congruence.
Qed.

Lemma changed_published (n : PublisherHistory.Notification)
  (w : PublisherHistory.World) :
  PublisherHistory.published (PublisherHistory.changed n w)
  = PublisherHistory.published w.
Proof. now destruct n. Qed.

Lemma publisher_run_inputs (subscribed : bool)
  (ns : list (PublisherHistory.Notification * Z))
  (w w' : PublisherHistory.World) :
  PublisherHistory.inputs w = PublisherHistory.inputs w' ->
  PublisherHistory.inputs (fst (PublisherHistory.run subscribed ns w))
  = PublisherHistory.inputs (PublisherHistory.changes ns w').
Proof.
  revert w w'. induction ns as [|[n rv] rest IH]; intros w w' H; [exact H|].
  rewrite publisher_run_cons. cbn [fst PublisherHistory.changes fold_left].
  apply IH. unfold PublisherHistory.notify.
  destruct subscribed; cbn [fst].
  - rewrite publish_in_inputs. now apply changed_inputs.
  - now apply changed_inputs.
Qed.

Lemma publisher_run_last (ns : list (PublisherHistory.Notification * Z))
  (w : PublisherHistory.World) (rv : Z) :
  PublisherHistory.published w = PublisherHistory.selected w \/ ns <> [] ->
  PublisherHistory.last_answer rv ns = 0 ->
  PublisherHistory.published (fst (PublisherHistory.run true ns w))
  = PublisherHistory.selected (fst (PublisherHistory.run true ns w)).
Proof.
  revert w rv. induction ns as [|[n rv1] rest IH]; intros w rv Hw Hlast.
  - destruct Hw as [Hw | Hw]; [exact Hw | congruence].
  - rewrite publisher_run_cons. cbn [fst].
    unfold PublisherHistory.last_answer in *. cbn [map snd] in Hlast.
    destruct rest as [|[n2 rv2] rest'].
    + cbn [map last] in Hlast. subst rv1. cbn [PublisherHistory.run fst].
      unfold PublisherHistory.notify.
      rewrite publish_in_succeeds.
      apply selected_inputs. symmetry. apply publish_in_inputs.
    + apply (IH _ rv); [right; discriminate|].
      cbn [map snd last] in *. exact Hlast.
Qed.

Lemma publisher_run_unsubscribed
  (ns : list (PublisherHistory.Notification * Z))
  (w : PublisherHistory.World) :
  PublisherHistory.run false ns w = (PublisherHistory.changes ns w, []).
Proof.
  revert w. induction ns as [|[n rv] rest IH]; intro w; [reflexivity|].
  rewrite publisher_run_cons. unfold PublisherHistory.notify.
  cbn [fst snd]. now rewrite IH.
Qed.

Lemma publisher_run_updates (subscribed : bool)
  (ns : list (PublisherHistory.Notification * Z))
  (w : PublisherHistory.World) :
  (List.length (filter PublisherHistory.is_update_called
                  (snd (PublisherHistory.run subscribed ns w)))
   <= List.length ns)%nat.
Proof.
  revert w. induction ns as [|[n rv] rest IH]; intro w; [apply Nat.le_refl|].
  rewrite publisher_run_cons. cbn [snd List.length].
  rewrite filter_app, length_app.
  specialize (IH (fst (PublisherHistory.notify subscribed n rv w))).
  unfold PublisherHistory.notify in *.
  destruct subscribed; cbn [fst snd] in *.
  - pose proof (proj1 (publish_in_updates rv (PublisherHistory.changed n w)))
      as H.
    lia.
  - cbn [filter List.length]. lia.
Qed.

(** X21.  A publisher built with [subscribe] set runs [publish()] once at
    construction and once after every change it is notified of.  Whenever
    the last of these publishings was answered with 0 by [update], the
    published view is the one the current settings select from the current
    sources.  The publisher never changes the settings or either source, and
    calls [update] at most once per publishing.  A publisher built without
    subscriptions publishes at construction only: later changes leave the
    published view alone and cause no call at all. *)
Theorem published_view_follows_the_selected_source
  (rv : Z) (ns : list (PublisherHistory.Notification * Z))
  (w : PublisherHistory.World) :
  PublisherHistory.last_answer rv ns = 0 ->
  let subscribed := PublisherHistory.life true rv ns w in
  let unsubscribed := PublisherHistory.life false rv ns w in
  PublisherHistory.published (fst subscribed)
  = PublisherHistory.selected (fst subscribed)
  /\ PublisherHistory.inputs (fst subscribed)
     = PublisherHistory.inputs (PublisherHistory.changes ns w)
  /\ (List.length (filter PublisherHistory.is_update_called (snd subscribed))
      <= S (List.length ns))%nat
  /\ fst unsubscribed
     = PublisherHistory.changes ns
         (fst (PublisherHistory.publish_in rv w))
  /\ snd unsubscribed = snd (PublisherHistory.publish_in rv w)
  /\ PublisherHistory.published (fst unsubscribed)
     = PublisherHistory.published (fst (PublisherHistory.publish_in rv w)).
Proof.
  intro Hlast. cbv zeta.
  unfold PublisherHistory.life, PublisherHistory.construct.
  pose proof (publish_in_inputs rv w) as Hin.
  pose proof (publish_in_updates rv w) as [Hup _].
  destruct (PublisherHistory.publish_in rv w) as [w0 o0] eqn:E0.
  cbn [fst snd] in *.
  pose proof (publisher_run_inputs true ns w0 w Hin) as Hrun.
  pose proof (publisher_run_updates true ns w0) as Hups.
  rewrite publisher_run_unsubscribed.
  assert (Hpub : PublisherHistory.published
                   (fst (PublisherHistory.run true ns w0))
                 = PublisherHistory.selected
                     (fst (PublisherHistory.run true ns w0))).
  { apply (publisher_run_last ns w0 rv); [|exact Hlast].
    destruct ns as [|x r]; [left | right; discriminate].
    unfold PublisherHistory.last_answer in Hlast. cbn in Hlast. subst rv.
    pose proof (publish_in_succeeds w) as H. rewrite E0 in H. cbn [fst] in H.
    rewrite H. apply selected_inputs. now symmetry. }
  destruct (PublisherHistory.run true ns w0) as [w1 o1]. cbn [fst snd] in *.
  split; [exact Hpub|]. split; [exact Hrun|]. split.
  { rewrite filter_app, length_app. lia. }
  split; [reflexivity|]. split; [apply app_nil_r|].
  clear. revert w0. induction ns as [|[n rv] rest IH]; intro w0;
    [reflexivity|].
  cbn [PublisherHistory.changes fold_left fst].
  unfold PublisherHistory.changes in IH. rewrite IH.
  apply changed_published.
Qed.

Lemma published_view_follows_the_selected_source_witness :
  PublisherHistory.published
    (fst (PublisherHistory.life true 0 PublisherHistory.example_notifications
            PublisherHistory.example_world))
  = 12.
Proof.
  exact (proj1 (published_view_follows_the_selected_source 0
                  PublisherHistory.example_notifications
                  PublisherHistory.example_world eq_refl)).
Defined.

(** ** The tags of a lifetime *)

Lemma tagged_deltas_carry_the_stream_tags_witness :
  Forall (tagged_with ["tag"%string])
    (lifetime (example_env LSN_MAX 5 0) true false example_defaults
       (example_growing_lag LSN_MAX) (example_env LSN_MAX 7 4000)).
Proof.
  apply tagged_deltas_carry_the_stream_tags; [|reflexivity].
  repeat (apply Forall_cons; [reflexivity|]). apply Forall_nil.
Defined.

(** ** A pause in tracking *)

Lemma bump_last_removelast (d : Z) (l : list Z) :
  removelast (bump_last d l) = removelast l.
Proof.
  induction l as [|x r IH]; [reflexivity|].
  destruct r as [|y r']; [reflexivity|].
  change (bump_last d (x :: y :: r')) with (x :: bump_last d (y :: r')).
  change (removelast (x :: y :: r')) with (x :: removelast (y :: r')).
  destruct (bump_last d (y :: r')) as [|z u] eqn:E.
  - destruct r'; discriminate E.
  - change (removelast (x :: z :: u)) with (x :: removelast (z :: u)).
    now rewrite IH.
Qed.

Lemma bump_last_nonempty (d : Z) (l : list Z) :
  l <> [] -> bump_last d l <> [].
Proof. destruct l as [|x [|y r]]; simpl; congruence. Qed.

Lemma bump_last_nil (d : Z) (l : list Z) : bump_last d l = [] -> l = [].
Proof. destruct l as [|x [|y r]]; simpl; congruence. Qed.

Lemma bump_last_total (d : Z) (l : list Z) :
  l <> [] ->
  fold_right Z.add 0 (bump_last d l) = fold_right Z.add 0 l + d.
Proof.
  induction l as [|x r IH]; [congruence|]. intros _.
  destruct r as [|y r']; [simpl; lia|].
  change (bump_last d (x :: y :: r')) with (x :: bump_last d (y :: r')).
  cbn [fold_right] in *. rewrite IH by discriminate. lia.
Qed.

Lemma bump_last_skipn (d : Z) (n : nat) (l : list Z) :
  skipn n (bump_last d l) = bump_last d (skipn n l).
Proof.
  revert l. induction n as [|n IH]; intro l; [reflexivity|].
  destruct l as [|x r]; [reflexivity|].
  destruct r as [|y r']; [now destruct n|].
  change (bump_last d (x :: y :: r')) with (x :: bump_last d (y :: r')).
  cbn [skipn]. apply IH.
Qed.

Lemma update_last_corrections (d : Z) (l : list TimeLagBucket) :
  map time_lag_correction (update_last (add_time_lag_correction d) l)
  = bump_last d (map time_lag_correction l).
Proof.
  induction l as [|s r IH]; [reflexivity|].
  destruct r as [|s' r']; [reflexivity|].
  change (update_last (add_time_lag_correction d) (s :: s' :: r'))
    with (s :: update_last (add_time_lag_correction d) (s' :: r')).
  rewrite map_cons, IH. reflexivity.
Qed.

Lemma pop_old_samples_skipn (l : list TimeLagBucket) :
  exists k, pop_old_samples l = skipn k l.
Proof.
  induction l as [|s r [k IH]]; [now exists 0%nat|].
  cbn [pop_old_samples]. destruct (ttl s =? 0).
  - exists (S k). exact IH.
  - now exists 0%nat.
Qed.

Lemma skipn_by_length {A : Type} (n : nat) (l : list A) :
  skipn (List.length l - List.length (skipn n l)) l = skipn n l.
Proof.
  rewrite length_skipn.
  destruct (Nat.le_gt_cases n (List.length l)) as [Hle | Hgt].
  - f_equal. lia.
  - rewrite (skipn_all2 l (n := n)) by lia.
    apply skipn_all2. lia.
Qed.

(** What [updateShouldTrack] does to the lags and the corrections. *)
Lemma updateShouldTrack_lists (e : Env) (t : Fields) :
  let gate := tracking_gate e (ignore_overload (params_ t)) in
  let t' := fst (updateShouldTrack e t) in
  should_track_ t' = gate
  /\ params_ t' = params_ t
  /\ capacity (time_lag_record_ t') = capacity (time_lag_record_ t)
  /\ sample_counter_ t' = sample_counter_ t
  /\ time_lags t' = time_lags t
  /\ corrections t'
     = match estimateTimeLag e t with
       | Some lag =>
           if should_track_ t && negb gate
           then bump_last (0 - lag) (corrections t)
           else if negb (should_track_ t) && gate
                then bump_last lag (corrections t)
                else corrections t
       | None => corrections t
       end.
Proof.
  cbv zeta. rewrite updateShouldTrack_run. cbv zeta. cbn [fst].
  unfold time_lags, corrections, cb_empty, cb_size.
  destruct (estimateTimeLag e t) as [lag|]; [|repeat split].
  destruct (items (time_lag_record_ t)) as [|s r] eqn:El.
  { cbn [List.length Z.of_nat Z.eqb].
    cbn [should_track_ params_ time_lag_record_ sample_counter_
           set_should_track_].
    rewrite El. repeat split.
    destruct (_ && _); [reflexivity|]. now destruct (_ && _). }
  assert (Hne : (Z.of_nat (List.length (s :: r)) =? 0) = false).
  { apply Z.eqb_neq. cbn [List.length]. lia. }
  rewrite Hne.
  destruct (should_track_ t && negb _) eqn:E1;
    [|destruct (negb (should_track_ t) && _) eqn:E2];
    cbn [should_track_ params_ time_lag_record_ sample_counter_
           set_should_track_ set_time_lag_record_ cb_update_back capacity
           items];
    rewrite ?El, ?update_last_lags, ?update_last_corrections;
    repeat split.
Qed.

Lemma paused_keeps (t1 t t' : Fields) (o : list Effect) :
  keeps pause_inputs t o t' -> inv_rel (paused t1) anything t o t'.
Proof.
  unfold keeps, pause_inputs. intros [= H1 H2 H3 H4] (P1 & P2 & P3 & P4 & P5).
  split; [|apply Forall_anything].
  unfold paused, time_lags, corrections in *.
  rewrite H1, H2, H3, H4. repeat split; assumption.
Qed.

Lemma keeps_pause_inputs_updateTimeStuck (e : Env) (tail_lsn : lsn_t)
  (st : Status) :
  sat (keeps pause_inputs) (updateTimeStuck e tail_lsn st).
Proof.
  apply carry_updateTimeStuck; [apply keeps_compositional | keeps_leaf ..].
Qed.

Lemma paused_aged (t1 t : Fields) (f : Fields -> Fields) :
  (forall x, pause_inputs (f x) = pause_inputs x) ->
  paused t1 t ->
  paused t1 (f (set_time_lag_record_ (aged (time_lag_record_ t)) t)).
Proof.
  intros Hf (P1 & P2 & P3 & P4 & n & P5 & P6).
  pose proof (Hf (set_time_lag_record_ (aged (time_lag_record_ t)) t)) as H.
  unfold pause_inputs in H. injection H as H1 H2 H3 H4.
  unfold paused, time_lags, corrections in *.
  rewrite H1, H2, H3, H4.
  cbn [should_track_ params_ time_lag_record_ sample_counter_
         set_time_lag_record_ aged capacity items].
  repeat (split; [assumption|]).
  destruct (pop_old_samples_skipn (items (time_lag_record_ t))) as [k Hk].
  exists (k + n)%nat. rewrite Hk, !map_map. cbn [decrement_ttl time_lag
                                                 time_lag_correction].
  rewrite <- !skipn_skipn, <- P5, <- P6, !skipn_map. split; reflexivity.
Qed.

Lemma paused_updateTimeLagging (t1 : Fields) (e : Env) (st : Status) :
  sat (inv_rel (paused t1) anything) (updateTimeLagging e st).
Proof.
  intros t Hp. split; [|apply Forall_anything].
  pose proof Hp as (Htrack & _).
  unfold updateTimeLagging.
  destruct (cur_ts_lag e st t) as [lag|]; [|exact Hp].
  rewrite andThen_fst. cbn [modify fst].
  change (should_track_ (set_time_lag_record_ (aged (time_lag_record_ t)) t))
    with (should_track_ t).
  rewrite Htrack. cbn [negb]. rewrite andThen_fst. cbn [modify fst].
  rewrite maybeBumpStats_fst.
  apply (paused_aged t1 t
           (fun x =>
              set_last_reported_state_
                (state_to_report e false
                   (set_last_time_lagging_ TimePoint_max x))
                (set_last_time_lagging_ TimePoint_max x)));
    [reflexivity | exact Hp].
Qed.

Lemma paused_updateShouldTrack (t1 : Fields) (e : Env) :
  tracking_gate e (ignore_overload (params_ t1)) = false ->
  sat (inv_rel (paused t1) anything) (updateShouldTrack e).
Proof.
  intros Hg t (P1 & P2 & P3 & P4 & n & P5 & P6).
  split; [|apply Forall_anything].
  pose proof (updateShouldTrack_lists e t) as H. cbv zeta in H.
  rewrite P2, Hg, P1 in H. cbn [andb negb] in H.
  destruct H as (H1 & H2 & H3 & H4 & H5 & H6).
  unfold paused. rewrite H1, H2, H3, H4, H5, H6.
  repeat (split; [first [assumption | reflexivity]|]).
  exists n. split; [exact P5|]. now destruct (estimateTimeLag e t).
Qed.

Lemma paused_onSettingsUpdated (t1 : Fields) (e : Env) :
  num_sample_groups e = capacity (time_lag_record_ t1) ->
  sat (inv_rel (paused t1) anything) (onSettingsUpdated e).
Proof.
  intros Hn t (P1 & P2 & P3 & P4 & n & P5 & P6).
  split; [|apply Forall_anything].
  pose proof (settings_update_fields e t) as H. cbv zeta in H.
  destruct H as (Hc & Hi).
  fold (num_sample_groups e) in Hc, Hi.
  rewrite Hn, <- P3, Z.eqb_refl in Hi.
  assert (Hk : sat (keeps (fun t => (should_track_ t,
                                     ignore_overload (params_ t),
                                     sample_counter_ t)))
                 (onSettingsUpdated e)) by keeps_leaf.
  specialize (Hk t). unfold keeps in Hk. injection Hk as K1 K2 K3.
  unfold paused, time_lags, corrections in *.
  rewrite K1, K2, K3, Hc, Hi, Hn.
  repeat (split; [first [assumption | reflexivity]|]).
  exists n. now split.
Qed.

Ltac paused_leaf :=
  first
    [ apply paused_updateTimeLagging
    | unfold sat; intros; apply paused_keeps;
      first [ apply keeps_pause_inputs_updateTimeStuck | keeps_leaf ] ].

Lemma paused_method (t1 : Fields) (e : Env) (ev : Event) :
  tracking_gate e (ignore_overload (params_ t1)) = false ->
  (ev = SettingsUpdated ->
   num_sample_groups e = capacity (time_lag_record_ t1)) ->
  sat (inv_rel (paused t1) anything) (method_of e ev).
Proof.
  intros Hg Hn.
  pose proof (paused_updateShouldTrack t1 e Hg) as Hu.
  destruct ev; cbn [method_of]; try exact Hu.
  - apply paused_onSettingsUpdated. now apply Hn.
  - apply carry_entries_onTimerTriggered;
      [ apply inv_rel_compositional
      | intros; first [exact Hu | paused_leaf] .. ].
  - apply carry_entries_onSyncSequencerRequestResponse;
      [apply inv_rel_compositional | intros; paused_leaf ..].
Qed.

Lemma paused_run_methods (t1 : Fields) (evs : list (Env * Event))
  (t : Fields) :
  Forall (fun x =>
            tracking_gate (fst x) (ignore_overload (params_ t1)) = false)
    evs ->
  Forall (fun x =>
            snd x = SettingsUpdated ->
            num_sample_groups (fst x) = capacity (time_lag_record_ t1))
    evs ->
  paused t1 t -> paused t1 (fst (run_methods evs t)).
Proof.
  intros Hg. revert t.
  induction Hg as [|[e ev] rest He _ IH]; intros t Hn Hp; [exact Hp|].
  inversion Hn as [|? ? Hn1 Hn2]; subst.
  cbn [run_methods]. rewrite andThen_fst.
  apply IH; [exact Hn2|].
  apply (paused_method t1 e ev He Hn1 t Hp).
Qed.

(** X3.  A pause in tracking is taken out of the slope.  A tracked tracer
    stops being tracked while its lag estimate is [lag1]; any events follow
    at which the tracking gate is closed and no settings update changes the
    capacity of the lag record; then the gate opens while the estimate is
    [lag2].  During the pause no bucket is opened and the sample counter
    does not advance, but buckets may expire: the record at the end holds
    the lags of the newest buckets of the record at the start, and their
    corrections, except in the newest bucket.  If any bucket is left, the
    corrections left add up to what they added up to at the start, less
    [lag1], plus [lag2]. *)
Theorem tracking_pause_correction (e1 e2 : Env) (mid : list (Env * Event))
  (t : Fields) (lag1 lag2 : Z) :
  let io := ignore_overload (params_ t) in
  let t_mid := fst (run_methods mid (fst (updateShouldTrack e1 t))) in
  let t2 := fst (updateShouldTrack e2 t_mid) in
  let dropped :=
    (List.length (time_lags t) - List.length (time_lags t2))%nat in
  should_track_ t = true ->
  tracking_gate e1 io = false ->
  Forall (fun x => tracking_gate (fst x) io = false) mid ->
  Forall (fun x =>
            snd x = SettingsUpdated ->
            num_sample_groups (fst x) = capacity (time_lag_record_ t)) mid ->
  tracking_gate e2 io = true ->
  estimateTimeLag e1 t = Some lag1 ->
  estimateTimeLag e2 t_mid = Some lag2 ->
  should_track_ t_mid = false
  /\ should_track_ t2 = true
  /\ sample_counter_ t2 = sample_counter_ t
  /\ time_lags t2 = skipn dropped (time_lags t)
  /\ removelast (corrections t2) = removelast (skipn dropped (corrections t))
  /\ (items (time_lag_record_ t2) <> [] ->
      total_correction t2
      = fold_right Z.add 0 (skipn dropped (corrections t)) - lag1 + lag2).
Proof.
  cbv zeta. intros Htrack Hg1 Hmid Hcap Hg2 Hl1 Hl2.
  pose proof (updateShouldTrack_lists e1 t) as H1. cbv zeta in H1.
  rewrite Hg1, Htrack, Hl1 in H1. cbn [andb negb] in H1.
  destruct H1 as (A1 & A2 & A3 & A4 & A5 & A6).
  set (t1 := fst (updateShouldTrack e1 t)) in *.
  assert (Hio : ignore_overload (params_ t1) = ignore_overload (params_ t))
    by (now rewrite A2).
  assert (Hp1 : paused t1 t1).
  { repeat (split; [first [assumption | reflexivity]|]).
    now exists 0%nat. }
  assert (Hp : paused t1 (fst (run_methods mid t1))).
  { apply paused_run_methods; [now rewrite Hio | now rewrite A3 | exact Hp1]. }
  set (t_mid := fst (run_methods mid t1)) in *.
  destruct Hp as (P1 & P2 & P3 & P4 & n & P5 & P6).
  pose proof (updateShouldTrack_lists e2 t_mid) as H2. cbv zeta in H2.
  rewrite P2, Hio, Hg2, P1, Hl2 in H2. cbn [andb negb] in H2.
  destruct H2 as (B1 & B2 & B3 & B4 & B5 & B6).
  set (t2 := fst (updateShouldTrack e2 t_mid)) in *.
  assert (Hlen : List.length (corrections t) = List.length (time_lags t)).
  { unfold corrections, time_lags. now rewrite !length_map. }
  assert (Hlags : time_lags t2 = skipn n (time_lags t)).
  { now rewrite B5, P5, A5. }
  assert (Hcorr : corrections t2
                  = bump_last lag2
                      (bump_last (0 - lag1) (skipn n (corrections t)))).
  { now rewrite B6, P6, A6, bump_last_skipn. }
  assert (Hdrop : forall A (l : list A),
             List.length l = List.length (time_lags t) ->
             skipn (List.length (time_lags t) - List.length (time_lags t2)) l
             = skipn n l).
  { intros A l Hl. rewrite Hlags, <- Hl, !length_skipn, Hl, <- Hl.
    rewrite <- (length_skipn n l). apply skipn_by_length. }
  rewrite (Hdrop _ (time_lags t) eq_refl), (Hdrop _ (corrections t) Hlen).
  split; [exact P1|]. split; [exact B1|].
  split; [now rewrite B4, P4, A4|]. split; [exact Hlags|]. split.
  - now rewrite Hcorr, !bump_last_removelast.
  - intro Hne. unfold total_correction. rewrite Hcorr.
    assert (Hs : skipn n (corrections t) <> []).
    { intro Hs. apply Hne.
      assert (Hc : corrections t2 = []) by (now rewrite Hcorr, Hs).
      unfold corrections in Hc. now apply map_eq_nil in Hc. }
    rewrite bump_last_total by (now apply bump_last_nonempty).
    rewrite bump_last_total by assumption. lia.
Qed.

(** The tracker of the growing-lag history is paused by a pending window
    update while 15 s behind, sees a tail query time out, which ages the
    record, and resumes when 12 s behind: both buckets are still there, and
    3 s are taken out of the slope. *)
Lemma tracking_pause_correction_witness :
  let t2 :=
    fst (updateShouldTrack (example_env_gate false 4000 5000)
           (fst (run_methods example_pause
                   (fst (updateShouldTrack (example_env_gate true 1000 4000)
                           example_third_sample))))) in
  time_lags t2 = time_lags example_third_sample
  /\ total_correction t2 = total_correction example_third_sample - 3000.
Proof.
  assert (Hmid : Forall
                   (fun x =>
                      tracking_gate (fst x)
                        (ignore_overload (params_ example_third_sample))
                      = false) example_pause)
    by (repeat constructor).
  assert (Hcap : Forall
                   (fun x =>
                      snd x = SettingsUpdated ->
                      num_sample_groups (fst x)
                      = capacity (time_lag_record_ example_third_sample))
                   example_pause)
    by (repeat constructor; discriminate).
  destruct (tracking_pause_correction (example_env_gate true 1000 4000)
              (example_env_gate false 4000 5000) example_pause
              example_third_sample 15000 12000 eq_refl eq_refl Hmid Hcap
              eq_refl eq_refl eq_refl)
    as (_ & _ & _ & Hlags & _ & Htotal).
  split; [exact Hlags|].
  apply Htotal. vm_compute. discriminate.
Defined.

(** The same pause with four timed-out tail queries in it: both buckets
    expire, and the correction goes with them. *)
Example pause_outlasting_the_record :
  let t2 :=
    fst (updateShouldTrack (example_env_gate false 4000 5000)
           (fst (run_methods
                   (example_pause ++ example_pause ++ example_pause
                    ++ example_pause)
                   (fst (updateShouldTrack (example_env_gate true 1000 4000)
                           example_third_sample))))) in
  ttls example_third_sample = [1; 2]
  /\ items (time_lag_record_ t2) = []
  /\ total_correction t2 = 0.
Proof. repeat split; reflexivity. Qed.
